(** * Streaming speech-recognition pipeline: ring buffer, framing and VAD state machine

    A shallow embedding of [speech_recognition/numpy_ring_buffer.py],
    [speech_recognition/vad_config.py] and
    [speech_recognition/speech_recognizer.py], followed by the properties of
    the specification stated and proved (or refuted) over it, and of
    [speech_recognition/audio_logger.py] and the configuration and audio-log
    endpoints of [http_speech_recognition_admin_service.py].

    Part I holds the embedding, Part II the lemmas and theorems about the
    specification, Part III further properties of the code. *)

From Stdlib Require Import String.
From Stdlib Require Import ZArith QArith Qround Qabs Qpower.
From Stdlib Require Import Strings.Byte.
From Stdlib Require Import List Lia Bool Arith PeanoNat.
From Stdlib Require Import Sorting.Permutation Sorting.Sorted.
Import ListNotations.

Set Implicit Arguments.
Close Scope Q_scope.
Open Scope nat_scope.

(** * Part I: the embedding *)

(** ** Python slices on lists *)

Section Slices.
Variable A : Type.

(** [l[a:b]] for [0 <= a <= b]. *)
Definition slice (l : list A) (a b : nat) : list A := firstn (b - a) (skipn a l).

(** [l[a:a+len(v)] = v] when the slice lies inside [l]. *)
Definition slice_assign (l : list A) (a : nat) (v : list A) : list A :=
  firstn a l ++ v ++ skipn (a + length v) l.

(** [l[-k:]] for [k > 0]: the last [k] elements, all of [l] when it is shorter. *)
Definition last_n (k : nat) (l : list A) : list A := skipn (length l - k) l.

(** [l[:k]] for any integer [k]; a negative [k] counts from the end. *)
Definition slice_to (l : list A) (k : Z) : list A :=
  if (0 <=? k)%Z then firstn (Z.to_nat k) l
  else firstn (length l - Z.to_nat (- k)) l.

End Slices.

(** ** [NumPyRingBuffer] *)

Module NumPyRingBuffer.
Section RingBuffer.
Variable A : Type.
(** The value [np.zeros] fills with. *)
Variable zero : A.

Record t : Type := mk {
  maxsize : nat;
  buffer : list A;
  head : nat;   (* next position to write *)
  tail : nat;   (* next position to read *)
  count : nat   (* number of elements held *)
}.

(** [__init__]: [None] stands for [ValueError("maxsize must be positive")]. *)
Definition init (maxsize : Z) : option t :=
  if (maxsize <=? 0)%Z then None
  else Some (mk (Z.to_nat maxsize) (repeat zero (Z.to_nat maxsize)) 0 0 0).

Definition put (self : t) (item : A) : t :=
  let buffer1 := slice_assign (buffer self) (head self) [item] in
  let head1 := (head self + 1) mod maxsize self in
  if count self <? maxsize self
  then mk (maxsize self) buffer1 head1 (tail self) (count self + 1)
  else mk (maxsize self) buffer1 head1 ((tail self + 1) mod maxsize self) (count self).

Definition put_bulk (self : t) (data : list A) : t :=
  let n := length data in
  if n =? 0 then self
  else if maxsize self <=? n then
    mk (maxsize self) (last_n (maxsize self) data) 0 0 (maxsize self)
  else
    let buffer1 :=
      if head self + n <=? maxsize self then
        slice_assign (buffer self) (head self) data
      else
        let split := maxsize self - head self in
        slice_assign
          (slice_assign (buffer self) (head self) (firstn split data))
          0 (skipn split data) in
    let head1 := (head self + n) mod maxsize self in
    if count self + n <=? maxsize self then
      mk (maxsize self) buffer1 head1 (tail self) (count self + n)
    else
      let overflow := (count self + n) - maxsize self in
      mk (maxsize self) buffer1 head1
         ((tail self + overflow) mod maxsize self) (maxsize self).

(** The copy of [actual_n] elements starting at [tail]; the source repeats
    these lines in [get_bulk], [peek] and [get_all]. *)
Definition read (self : t) (actual_n : nat) : list A :=
  if tail self + actual_n <=? maxsize self then
    slice (buffer self) (tail self) (tail self + actual_n)
  else
    let split := maxsize self - tail self in
    skipn (tail self) (buffer self) ++ firstn (actual_n - split) (buffer self).

Definition get (self : t) : option A * t :=
  if count self =? 0 then (None, self)
  else (Some (nth (tail self) (buffer self) zero),
        mk (maxsize self) (buffer self) (head self)
           ((tail self + 1) mod maxsize self) (count self - 1)).

(** [n] is the number of elements asked for; the callers pass [n >= 0]. *)
Definition get_bulk (self : t) (n : nat) : list A * t :=
  if count self =? 0 then ([], self)
  else
    let actual_n := Nat.min n (count self) in
    (read self actual_n,
     mk (maxsize self) (buffer self) (head self)
        ((tail self + actual_n) mod maxsize self) (count self - actual_n)).

Definition peek (self : t) (n : nat) : list A :=
  if count self =? 0 then [] else read self (Nat.min n (count self)).

Definition get_all (self : t) : list A :=
  if count self =? 0 then [] else read self (count self).

Definition clear (self : t) : t := mk (maxsize self) (buffer self) 0 0 0.
Definition size (self : t) : nat := count self.
Definition is_empty (self : t) : bool := count self =? 0.
Definition is_full (self : t) : bool := count self =? maxsize self.
Definition capacity (self : t) : nat := maxsize self.

(** The representation invariant kept by every operation. *)
Definition wf (self : t) : Prop :=
  0 < maxsize self /\ length (buffer self) = maxsize self /\
  head self < maxsize self /\ tail self < maxsize self /\
  count self <= maxsize self /\
  head self = (tail self + count self) mod maxsize self.

End RingBuffer.
End NumPyRingBuffer.

(** ** Wire formats: float32 and int16, little-endian

    A float32 sample is kept as its 32-bit pattern.  [f32_decode] gives the
    value the pattern denotes (IEEE 754 binary32), as an exact rational. *)

Definition float32 : Type := Z.

Inductive f32_class : Type :=
| F32_nan
| F32_inf (negative : bool)
| F32_finite (q : Q).

Definition f32_sign (x : float32) : bool := Z.testbit x 31.
Definition f32_exponent (x : float32) : Z := Z.land (Z.shiftr x 23) 255.
Definition f32_mantissa (x : float32) : Z := Z.land x (2 ^ 23 - 1).

Definition f32_decode (x : float32) : f32_class :=
  let e := f32_exponent x in
  let m := f32_mantissa x in
  if (e =? 255)%Z then
    if (m =? 0)%Z then F32_inf (f32_sign x) else F32_nan
  else
    let magnitude : Q :=
      if (e =? 0)%Z then (inject_Z m * Qpower 2 (-149))%Q
      else (inject_Z (2 ^ 23 + m) * Qpower 2 (e - 150))%Q in
    F32_finite (if f32_sign x then (- magnitude)%Q else magnitude).

(** [np.abs] on a float32: the sign bit is cleared. *)
Definition f32_abs (x : float32) : float32 := Z.land x (2 ^ 31 - 1).

(** [x <= c] for a float32 [x] and a finite constant [c]; a comparison with
    NaN is false. *)
Definition f32_le_const (x : float32) (c : Q) : bool :=
  match f32_decode x with
  | F32_nan => false
  | F32_inf negative => negative
  | F32_finite q => Qle_bool q c
  end.

Definition Z_of_byte (b : byte) : Z := Z.of_N (Byte.to_N b).

(** [np.frombuffer(data, dtype=np.float32)]; [None] stands for the
    [ValueError] raised when the length is not a multiple of 4. *)
Fixpoint frombuffer_float32 (data : list byte) : option (list float32) :=
  match data with
  | [] => Some []
  | b0 :: b1 :: b2 :: b3 :: rest =>
      match frombuffer_float32 rest with
      | Some xs =>
          Some ((Z_of_byte b0 + 2 ^ 8 * Z_of_byte b1 + 2 ^ 16 * Z_of_byte b2
                 + 2 ^ 24 * Z_of_byte b3)%Z :: xs)
      | None => None
      end
  | _ => None
  end.

(** [np.frombuffer(data, dtype=np.int16)]; [None] stands for the
    [ValueError] raised when the length is odd. *)
Fixpoint frombuffer_int16 (data : list byte) : option (list Z) :=
  match data with
  | [] => Some []
  | b0 :: b1 :: rest =>
      match frombuffer_int16 rest with
      | Some xs =>
          let u := (Z_of_byte b0 + 2 ^ 8 * Z_of_byte b1)%Z in
          Some ((if (u <? 2 ^ 15)%Z then u else u - 2 ^ 16)%Z :: xs)
      | None => None
      end
  | _ => None
  end.

(** [astype(np.float32)] on an integer of magnitude below [2^24]: exact. *)
Definition astype_float32 (x : Z) : float32 :=
  if (x =? 0)%Z then 0%Z
  else
    let a := Z.abs x in
    let k := Z.log2 a in
    ((if (x <? 0)%Z then 2 ^ 31 else 0)
     + Z.shiftl (k + 127) 23 + Z.shiftl (a - 2 ^ k) (23 - k))%Z.

(** [/ 32768.0] on a float32 that is zero or normal with exponent field
    above 15: the exponent drops by 15, exactly. *)
Definition div_32768 (x : float32) : float32 :=
  if (f32_exponent x =? 0)%Z then x else (x - Z.shiftl 15 23)%Z.

(** ** [VADConfig] *)

Module VADConfig.

Record t : Type := mk {
  threshold : Q;
  min_speech_duration_ms : Z;
  max_speech_duration_s : Q;
  prefix_speech_pad_ms : Z;
  silence_duration_ms : Z;
  chunk_size : Z
}.

(** [VADConfig.__init__]: the default settings. *)
Definition default : t := mk (1 # 2) 250 (30 # 1) 300 500 512.

Definition min_speech_duration_s (c : t) : Q := (inject_Z (min_speech_duration_ms c) / 1000)%Q.
Definition prefix_speech_pad_s (c : t) : Q := (inject_Z (prefix_speech_pad_ms c) / 1000)%Q.
Definition silence_duration_s (c : t) : Q := (inject_Z (silence_duration_ms c) / 1000)%Q.

End VADConfig.

(** ** [SpeechRecognizer]

    Python computes the durations below in binary64; the embedding computes
    them as exact rationals.  [py_int] is Python's [int()] on a number:
    truncation toward zero. *)

Definition py_int (q : Q) : Z := Z.quot (Qnum q) (Zpos (Qden q)).

Definition Qgt_bool (a b : Q) : bool := negb (Qle_bool a b).
Definition Qlt_bool (a b : Q) : bool := negb (Qle_bool b a).

(** [SpeechRecognizer.State] *)
Inductive State : Type := SPEECH_START | SPEECH_END | RECOGNITION_RESULT.

(** A speech id is the string of a fresh [uuid.uuid4()]; the embedding
    numbers them, so two calls never give the same id. *)
Definition uuid : Type := nat.

Inductive Exn : Type :=
| ValueError
| AttributeError
| ZeroDivisionError
| TypeError
| VadException.

(** What [inspect.iscoroutinefunction(self._callback)] answers. *)
Inductive Callback : Type := CoroutineFunction | PlainFunction.

(** The values the handshake can hand to the setters. *)
Inductive PyValue : Type :=
| PyStr (s : string)
| PyNone
| PyInt (z : Z).

Definition is_empty_str (v : PyValue) : bool :=
  match v with
  | PyStr s => if string_dec s EmptyString then true else false
  | _ => false
  end.

Definition isinstance_str (v : PyValue) : bool :=
  match v with PyStr _ => true | _ => false end.

Definition as_str (v : PyValue) : option string :=
  match v with PyStr s => Some s | _ => None end.

(** The part of [WhisperProcessor] the recognizer reads and writes. *)
Record WhisperProcessor : Type := mkWhisper { language : option string }.

(** What the scorer does with a frame: a probability, or an exception. *)
Inductive VadOutcome : Type :=
| Prob (p : Q)
| VadRaises.

(** The effects of the pipeline on its collaborators, in the order they happen. *)
Inductive Effect : Type :=
| VadCall (frame : list float32) (sample_rate : Z)
| CallbackTask (state : State) (session_id : Z) (speech_id : option uuid) (param : nat)
| SaveAudioRaw (samples : list float32) (session_id : Z)
| RecognizeAsync (samples : list float32) (session_id : Z)
                 (speech_id : option uuid) (prompt : option string)
| LogError (e : Exn).

(** What lies outside the session object: the effects so far and the next
    unused uuid. *)
Record World : Type := mkWorld {
  trace : list Effect;
  next_uuid : uuid
}.

Definition emit (e : Effect) (w : World) : World :=
  mkWorld (trace w ++ [e]) (next_uuid w).

(** The frames handed to the scorer so far, oldest first. *)
Fixpoint vad_frames (tr : list Effect) : list (list float32) :=
  match tr with
  | [] => []
  | VadCall frame _ :: rest => frame :: vad_frames rest
  | _ :: rest => vad_frames rest
  end.

(** The class-level state the session reads: the scorer ([None] when the
    model failed to load; its answer may depend on the frames it has scored
    before), the threshold of the shared configuration, and whether audio
    logging is enabled. *)
Record Env : Type := mkEnv {
  _vad_model : option (list (list float32) -> list float32 -> VadOutcome);
  vad_threshold : Q;
  audio_log_enabled : bool
}.

Record SpeechRecognizer : Type := mkSpeechRecognizer {
  _session_id : Z;
  _speech_id : option uuid;
  _sample_rate : Z;
  _whisper_processor : option WhisperProcessor;
  _prompt : option string;
  _chunk_size : nat;
  _min_speech_duration_s : Q;
  _max_speech_duration_s : Q;
  _prefix_speech_pad_s : Q;
  _silence_duration_frames : Z;
  _audio_buffer : NumPyRingBuffer.t float32;
  _chunk_buffer : NumPyRingBuffer.t float32;
  _silence_counter : Z;
  _speech_start_index : Z;
  _callback : Callback
}.

Definition set_speech_id (v : option uuid) (r : SpeechRecognizer) : SpeechRecognizer :=
  mkSpeechRecognizer (_session_id r) v (_sample_rate r) (_whisper_processor r)
    (_prompt r) (_chunk_size r) (_min_speech_duration_s r) (_max_speech_duration_s r)
    (_prefix_speech_pad_s r) (_silence_duration_frames r) (_audio_buffer r)
    (_chunk_buffer r) (_silence_counter r) (_speech_start_index r) (_callback r).

Definition set_whisper_processor (v : option WhisperProcessor) (r : SpeechRecognizer)
  : SpeechRecognizer :=
  mkSpeechRecognizer (_session_id r) (_speech_id r) (_sample_rate r) v
    (_prompt r) (_chunk_size r) (_min_speech_duration_s r) (_max_speech_duration_s r)
    (_prefix_speech_pad_s r) (_silence_duration_frames r) (_audio_buffer r)
    (_chunk_buffer r) (_silence_counter r) (_speech_start_index r) (_callback r).

Definition set_prompt (v : option string) (r : SpeechRecognizer) : SpeechRecognizer :=
  mkSpeechRecognizer (_session_id r) (_speech_id r) (_sample_rate r) (_whisper_processor r)
    v (_chunk_size r) (_min_speech_duration_s r) (_max_speech_duration_s r)
    (_prefix_speech_pad_s r) (_silence_duration_frames r) (_audio_buffer r)
    (_chunk_buffer r) (_silence_counter r) (_speech_start_index r) (_callback r).

Definition set_audio_buffer (v : NumPyRingBuffer.t float32) (r : SpeechRecognizer)
  : SpeechRecognizer :=
  mkSpeechRecognizer (_session_id r) (_speech_id r) (_sample_rate r) (_whisper_processor r)
    (_prompt r) (_chunk_size r) (_min_speech_duration_s r) (_max_speech_duration_s r)
    (_prefix_speech_pad_s r) (_silence_duration_frames r) v
    (_chunk_buffer r) (_silence_counter r) (_speech_start_index r) (_callback r).

Definition set_chunk_buffer (v : NumPyRingBuffer.t float32) (r : SpeechRecognizer)
  : SpeechRecognizer :=
  mkSpeechRecognizer (_session_id r) (_speech_id r) (_sample_rate r) (_whisper_processor r)
    (_prompt r) (_chunk_size r) (_min_speech_duration_s r) (_max_speech_duration_s r)
    (_prefix_speech_pad_s r) (_silence_duration_frames r) (_audio_buffer r)
    v (_silence_counter r) (_speech_start_index r) (_callback r).

Definition set_silence_counter (v : Z) (r : SpeechRecognizer) : SpeechRecognizer :=
  mkSpeechRecognizer (_session_id r) (_speech_id r) (_sample_rate r) (_whisper_processor r)
    (_prompt r) (_chunk_size r) (_min_speech_duration_s r) (_max_speech_duration_s r)
    (_prefix_speech_pad_s r) (_silence_duration_frames r) (_audio_buffer r)
    (_chunk_buffer r) v (_speech_start_index r) (_callback r).

Definition set_speech_start_index (v : Z) (r : SpeechRecognizer) : SpeechRecognizer :=
  mkSpeechRecognizer (_session_id r) (_speech_id r) (_sample_rate r) (_whisper_processor r)
    (_prompt r) (_chunk_size r) (_min_speech_duration_s r) (_max_speech_duration_s r)
    (_prefix_speech_pad_s r) (_silence_duration_frames r) (_audio_buffer r)
    (_chunk_buffer r) (_silence_counter r) v (_callback r).

(** [SpeechRecognizer.__init__].  [whisper] is what
    [WhisperProcessor.create()] returned.  [inl] is the exception the
    constructor raises: a zero chunk size divides by zero, and a ring buffer
    refuses a size that is not positive. *)
Definition __init__ (vad_config : VADConfig.t) (whisper : option WhisperProcessor)
    (session_id : Z) (callback : Callback) : Exn + SpeechRecognizer :=
  let sample_rate := 16000%Z in
  let chunk_size := VADConfig.chunk_size vad_config in
  if (chunk_size * 1000 =? 0)%Z then inl ZeroDivisionError
  else
    let silence_duration_frames :=
      py_int (inject_Z (sample_rate * VADConfig.silence_duration_ms vad_config)
              / inject_Z (chunk_size * 1000))%Q in
    let audio_buffer_sec :=
      (VADConfig.max_speech_duration_s vad_config
       + VADConfig.prefix_speech_pad_s vad_config
       + VADConfig.silence_duration_s vad_config)%Q in
    match NumPyRingBuffer.init 0%Z (py_int (inject_Z sample_rate * audio_buffer_sec)%Q) with
    | None => inl ValueError
    | Some audio_buffer =>
        match NumPyRingBuffer.init 0%Z chunk_size with
        | None => inl ValueError
        | Some chunk_buffer =>
            inr (mkSpeechRecognizer session_id None sample_rate whisper None
                   (Z.to_nat chunk_size)
                   (VADConfig.min_speech_duration_s vad_config)
                   (VADConfig.max_speech_duration_s vad_config)
                   (VADConfig.prefix_speech_pad_s vad_config)
                   silence_duration_frames audio_buffer chunk_buffer 0%Z (-1)%Z callback)
        end
    end.

(** [language.setter] *)
Definition language_setter (self : SpeechRecognizer) (value : PyValue) : SpeechRecognizer :=
  let value1 : option string :=
    if is_empty_str value then None
    else if negb (isinstance_str value) then None
    else as_str value in
  match _whisper_processor self with
  | Some _ => set_whisper_processor (Some (mkWhisper value1)) self
  | None => self
  end.

(** [prompt.setter]: the assignment to [self._prompt] sits inside the
    [elif] branch. *)
Definition prompt_setter (self : SpeechRecognizer) (value : PyValue) : SpeechRecognizer :=
  if is_empty_str value then self
  else if negb (isinstance_str value) then set_prompt None self
  else self.

(** [_notify].  With a coroutine function the coroutine is created and
    scheduled by [asyncio.create_task]; otherwise evaluating the arguments
    reads [self._audio_buffe], which does not exist. *)
Definition _notify (self : SpeechRecognizer) (w : World) (state : State) : Exn + World :=
  match _callback self with
  | CoroutineFunction =>
      inr (emit (CallbackTask state (_session_id self) (_speech_id self)
                   (NumPyRingBuffer.size (_audio_buffer self))) w)
  | PlainFunction => inl AttributeError
  end.

(** [_trigger_recognition] *)
Definition _trigger_recognition (env : Env) (self : SpeechRecognizer) (w : World)
    (speech_array : list float32) : World :=
  match _whisper_processor self with
  | None => w
  | Some _ =>
      if length speech_array =? 0 then w
      else
        let len := inject_Z (Z.of_nat (length speech_array)) in
        let min_length := (inject_Z (_sample_rate self) * _min_speech_duration_s self)%Q in
        if Qlt_bool len min_length then w
        else
          let max_length := (inject_Z (_sample_rate self) * _max_speech_duration_s self)%Q in
          let speech_array1 :=
            if Qgt_bool len max_length then slice_to speech_array (py_int max_length)
            else speech_array in
          let w1 :=
            if audio_log_enabled env
            then emit (SaveAudioRaw speech_array1 (_session_id self)) w
            else w in
          emit (RecognizeAsync speech_array1 (_session_id self) (_speech_id self)
                  (_prompt self)) w1
  end.

(** [_process_audio_chunk].  Everything after the debug log runs inside
    [try: ... except Exception], so an exception leaves the assignments made
    before it in place and is logged. *)
Definition _process_audio_chunk (env : Env) (self : SpeechRecognizer) (w : World)
    (audio_chunk : list float32) : SpeechRecognizer * World :=
  match _vad_model env with
  | None => (self, emit (LogError TypeError) w)
  | Some model =>
      let outcome := model (vad_frames (trace w)) audio_chunk in
      let w0 := emit (VadCall audio_chunk (_sample_rate self)) w in
      match outcome with
      | VadRaises => (self, emit (LogError VadException) w0)
      | Prob speech_prob =>
          let is_speech := Qgt_bool speech_prob (vad_threshold env) in
          if is_speech then
            if (_speech_start_index self <? 0)%Z then
              let self1 := set_speech_id (Some (next_uuid w0)) self in
              let w1 := mkWorld (trace w0) (S (next_uuid w0)) in
              let self2 :=
                set_speech_start_index
                  (Z.max 0 (Z.of_nat (NumPyRingBuffer.size (_audio_buffer self1))
                            - py_int (inject_Z (_sample_rate self1)
                                      * _prefix_speech_pad_s self1)%Q))
                  self1 in
              match _notify self2 w1 SPEECH_START with
              | inl e => (self2, emit (LogError e) w1)
              | inr w2 => (set_silence_counter 0 self2, w2)
              end
            else (set_silence_counter 0 self, w0)
          else
            if (0 <=? _speech_start_index self)%Z then
              let self1 := set_silence_counter (_silence_counter self + 1) self in
              if (_silence_duration_frames self1 <=? _silence_counter self1)%Z then
                let skipped :=
                  NumPyRingBuffer.get_bulk (_audio_buffer self1)
                    (Z.to_nat (_speech_start_index self1)) in
                let self2 := set_audio_buffer (snd skipped) self1 in
                let taken :=
                  NumPyRingBuffer.get_bulk (_audio_buffer self2)
                    (NumPyRingBuffer.size (_audio_buffer self2)) in
                let speech_array := fst taken in
                let self3 := set_audio_buffer (snd taken) self2 in
                let w1 := _trigger_recognition env self3 w0 speech_array in
                let self4 := set_silence_counter 0 self3 in
                let self5 :=
                  set_audio_buffer (NumPyRingBuffer.clear (_audio_buffer self4)) self4 in
                let self6 := set_speech_start_index (-1) self5 in
                let self7 :=
                  set_chunk_buffer (NumPyRingBuffer.clear (_chunk_buffer self6)) self6 in
                match _notify self7 w1 SPEECH_END with
                | inl e => (self7, emit (LogError e) w1)
                | inr w2 => (set_speech_id None self7, w2)
                end
              else (self1, w0)
            else (self, w0)
      end
  end.

(** The [while remain >= self._chunk_size] loop of [_process_audio].  The
    fuel bounds the number of iterations; [S remain] is enough as soon as the
    chunk size is positive. *)
Fixpoint process_frames (env : Env) (fuel : nat) (self : SpeechRecognizer) (w : World)
    (audio_array : list float32) (start remain : nat)
  : SpeechRecognizer * World * nat * nat :=
  match fuel with
  | 0 => (self, w, start, remain)
  | S fuel' =>
      if _chunk_size self <=? remain then
        let r :=
          _process_audio_chunk env self w
            (slice audio_array start (start + _chunk_size self)) in
        process_frames env fuel' (fst r) (snd r) audio_array
          (start + _chunk_size self) (remain - _chunk_size self)
      else (self, w, start, remain)
  end.

(** [_process_audio] *)
Definition _process_audio (env : Env) (self : SpeechRecognizer) (w : World)
    (audio_array : list float32) : SpeechRecognizer * World :=
  match _vad_model env with
  | None => (self, w)
  | Some _ =>
      if length audio_array =? 0 then (self, w)
      else
        let count := NumPyRingBuffer.size (_chunk_buffer self) in
        let taken := NumPyRingBuffer.get_bulk (_chunk_buffer self) count in
        let self1 :=
          if 0 <? count
          then set_chunk_buffer (NumPyRingBuffer.clear (snd taken)) self
          else self in
        let audio_array1 :=
          if 0 <? count then fst taken ++ audio_array else audio_array in
        let looped :=
          process_frames env (S (length audio_array1)) self1 w audio_array1
            0 (length audio_array1) in
        let self2 := fst (fst (fst looped)) in
        let w2 := snd (fst (fst looped)) in
        let start := snd (fst looped) in
        let remain := snd looped in
        if 0 <? remain then
          (set_chunk_buffer
             (NumPyRingBuffer.put_bulk (_chunk_buffer self2) (skipn start audio_array1))
             self2, w2)
        else (self2, w2)
  end.

(** The samples a payload decodes to and the branch taken by
    [add_audio_chunk]: float32 when the length is a multiple of 4 and every
    magnitude is at most 1.5, else int16 scaled by 1/32768. *)
Inductive Decoded : Type :=
| AsFloat32 (samples : list float32)
| AsInt16 (samples : list float32)
| Undecodable.

Definition decode_payload (audio_data : list byte) : Decoded :=
  let float_branch :=
    if length audio_data mod 4 =? 0 then
      match frombuffer_float32 audio_data with
      | Some float32_array =>
          if forallb (fun x => f32_le_const (f32_abs x) (3 # 2)) float32_array
          then Some float32_array
          else None
      | None => None
      end
    else None in
  match float_branch with
  | Some float32_array => AsFloat32 float32_array
  | None =>
      match frombuffer_int16 audio_data with
      | Some int16_array =>
          AsInt16 (map (fun x => div_32768 (astype_float32 x)) int16_array)
      | None => Undecodable
      end
  end.

(** [add_audio_chunk].  [inl ValueError] is the exception of
    [np.frombuffer(audio_data, dtype=np.int16)] on a payload of odd length;
    it is raised before the session is touched. *)
Definition add_audio_chunk (env : Env) (self : SpeechRecognizer) (w : World)
    (audio_data : list byte) : Exn + SpeechRecognizer * World :=
  match decode_payload audio_data with
  | AsFloat32 float32_array | AsInt16 float32_array =>
      let self1 :=
        set_audio_buffer
          (NumPyRingBuffer.put_bulk (_audio_buffer self) float32_array) self in
      inr (_process_audio env self1 w float32_array)
  | Undecodable => inl ValueError
  end.

(** The receive loop of [websocket_audio_endpoint]: payloads are fed one by
    one, and the first exception ends the session. *)
Fixpoint receive_loop (env : Env) (self : SpeechRecognizer) (w : World)
    (payloads : list (list byte)) : Exn + SpeechRecognizer * World :=
  match payloads with
  | [] => inr (self, w)
  | audio_data :: rest =>
      match add_audio_chunk env self w audio_data with
      | inl e => inl e
      | inr r => receive_loop env (fst r) (snd r) rest
      end
  end.

(** The states a session passes through: built by [__init__], then any
    sequence of setter calls and payloads.  The class-level state may change
    between two calls. *)
Inductive Reachable : SpeechRecognizer -> World -> Prop :=
| Reach_init vad_config whisper session_id callback self u :
    __init__ vad_config whisper session_id callback = inr self ->
    Reachable self (mkWorld [] u)
| Reach_language self w value :
    Reachable self w -> Reachable (language_setter self value) w
| Reach_prompt self w value :
    Reachable self w -> Reachable (prompt_setter self value) w
| Reach_audio env self w audio_data self1 w1 :
    Reachable self w ->
    add_audio_chunk env self w audio_data = inr (self1, w1) ->
    Reachable self1 w1.

(** ** Observations on streams and traces *)

(** The frames the specification asks for: the full chunks of [cs] samples
    of a stream, consecutive and in order. *)
Definition frames_of (cs : nat) (stream : list float32) : list (list float32) :=
  map (fun i => slice stream (i * cs) (i * cs + cs)) (seq 0 (length stream / cs)).

(** What is left of the stream after its full chunks. *)
Definition residual_of (cs : nat) (stream : list float32) : list float32 :=
  skipn (length stream / cs * cs) stream.

(** The samples of a payload, [[]] when it cannot be decoded. *)
Definition samples_of (audio_data : list byte) : list float32 :=
  match decode_payload audio_data with
  | AsFloat32 xs | AsInt16 xs => xs
  | Undecodable => []
  end.

(** The utterances handed to [recognize_async], oldest first. *)
Fixpoint dispatched (tr : list Effect) : list (list float32) :=
  match tr with
  | [] => []
  | RecognizeAsync samples _ _ _ :: rest => samples :: dispatched rest
  | _ :: rest => dispatched rest
  end.

(** The notifications and dispatches of a trace: what the client and the
    recognizer see of the session. *)
Definition is_session_event (e : Effect) : bool :=
  match e with
  | CallbackTask _ _ _ _ | RecognizeAsync _ _ _ _ => true
  | _ => false
  end.

Definition session_events (tr : list Effect) : list Effect := filter is_session_event tr.

(** The notifications of a trace, as (state, speech id). *)
Fixpoint notifications (tr : list Effect) : list (State * option uuid) :=
  match tr with
  | [] => []
  | CallbackTask st _ sp _ :: rest => (st, sp) :: notifications rest
  | _ :: rest => notifications rest
  end.





(** The fields a frame never assigns. *)
Definition same_settings (a b : SpeechRecognizer) : Prop :=
  _session_id a = _session_id b /\ _sample_rate a = _sample_rate b
  /\ _whisper_processor a = _whisper_processor b /\ _prompt a = _prompt b
  /\ _chunk_size a = _chunk_size b
  /\ _min_speech_duration_s a = _min_speech_duration_s b
  /\ _max_speech_duration_s a = _max_speech_duration_s b
  /\ _prefix_speech_pad_s a = _prefix_speech_pad_s b
  /\ _silence_duration_frames a = _silence_duration_frames b
  /\ _callback a = _callback b.

(** The chunk buffer as the framing loop needs it: empty, of the size of a chunk. *)
Definition chunk_ready (self : SpeechRecognizer) : Prop :=
  NumPyRingBuffer.wf (_chunk_buffer self)
  /\ NumPyRingBuffer.count (_chunk_buffer self) = 0
  /\ NumPyRingBuffer.maxsize (_chunk_buffer self) = _chunk_size self.

(** The chunk buffer between two calls: it holds less than a chunk. *)
Definition chunk_inv (self : SpeechRecognizer) : Prop :=
  NumPyRingBuffer.wf (_chunk_buffer self)
  /\ NumPyRingBuffer.count (_chunk_buffer self) < _chunk_size self
  /\ NumPyRingBuffer.maxsize (_chunk_buffer self) = _chunk_size self.

(** When [_trigger_recognition] dispatches [U'] for the extracted [U]. *)
Definition dispatch_of (self : SpeechRecognizer) (U U' : list float32) : Prop :=
  _whisper_processor self <> None /\ U <> []
  /\ Qlt_bool (inject_Z (Z.of_nat (length U)))
       (inject_Z (_sample_rate self) * _min_speech_duration_s self)%Q = false
  /\ U' = (if Qgt_bool (inject_Z (Z.of_nat (length U)))
                (inject_Z (_sample_rate self) * _max_speech_duration_s self)%Q
           then slice_to U (py_int (inject_Z (_sample_rate self)
                                    * _max_speech_duration_s self)%Q)
           else U).



(** The utterance the end transition extracts from the audio ring: the
    first [_speech_start_index] samples are skipped, the rest is taken. *)
Definition extracted_utterance (self : SpeechRecognizer) : list float32 :=
  let skipped :=
    NumPyRingBuffer.get_bulk (_audio_buffer self) (Z.to_nat (_speech_start_index self)) in
  fst (NumPyRingBuffer.get_bulk (snd skipped) (NumPyRingBuffer.size (snd skipped))).

Definition min_length (self : SpeechRecognizer) : Q :=
  (inject_Z (_sample_rate self) * _min_speech_duration_s self)%Q.

Definition max_length (self : SpeechRecognizer) : Q :=
  (inject_Z (_sample_rate self) * _max_speech_duration_s self)%Q.



(** The prompt handed to each recognition call is absent. *)
Definition prompt_absent (e : Effect) : Prop :=
  match e with
  | RecognizeAsync _ _ _ prompt => prompt = None
  | _ => True
  end.

(** What the int16 branch promises of one sample [i]: the float32 it
    becomes denotes exactly [i / 32768], which lies in [-1, 1]. *)
Definition int16_sample_ok (i : Z) : bool :=
  match f32_decode (div_32768 (astype_float32 i)) with
  | F32_finite q => Qeq_bool q (i # 32768) && Qle_bool (-1) q && Qle_bool q 1
  | _ => false
  end.

(** [int16_sample_ok] on the [n] integers from [i] on. *)
Fixpoint int16_samples_ok_from (n : nat) (i : Z) : bool :=
  match n with
  | O => true
  | S n' => if int16_sample_ok i then int16_samples_ok_from n' (i + 1)%Z else false
  end.

(** ** Sessions used as examples *)

(** A buffer of capacity 4 that holds [1; 2]. *)
Definition ring_1_2 : NumPyRingBuffer.t Z :=
  NumPyRingBuffer.put_bulk (NumPyRingBuffer.mk 4 (repeat 0%Z 4) 0 0 0) [1%Z; 2%Z].

(** The default settings with the maximal speech duration lowered to 0.1 s,
    the least value the admin endpoint accepts: chunks of 512 samples, 4800
    samples of prefix pad, 15 silent frames to end an utterance, at most 1600
    samples per utterance, a ring of 14400 samples. *)
Definition short_max_config : VADConfig.t := VADConfig.mk (1 # 2) 250 (1 # 10) 300 500 512.

Definition blank_session : SpeechRecognizer :=
  mkSpeechRecognizer 0 None 0 None None 0 0 0 0 0
    (NumPyRingBuffer.mk 0 [] 0 0 0) (NumPyRingBuffer.mk 0 [] 0 0 0) 0 0 PlainFunction.

Definition session_or_blank (r : Exn + SpeechRecognizer) : SpeechRecognizer :=
  match r with
  | inr self => self
  | inl _ => blank_session
  end.

(** Session 7, with a coroutine callback and with a plain one. *)
Definition coroutine_session : SpeechRecognizer :=
  session_or_blank (__init__ short_max_config (Some (mkWhisper None)) 7 CoroutineFunction).

Definition plain_session : SpeechRecognizer :=
  session_or_blank (__init__ short_max_config (Some (mkWhisper None)) 7 PlainFunction).

Definition world0 : World := mkWorld [] 0.

Definition state_or_blank (r : Exn + SpeechRecognizer * World) : SpeechRecognizer * World :=
  match r with
  | inr x => x
  | inl _ => (blank_session, world0)
  end.

(** A payload of [n] float32 samples 0.0. *)
Definition zeros (n : nat) : list byte := repeat x00 (4 * n).

(** A scorer that answers 0.9 on the frames numbered [from] to [to - 1] of
    the session and 0.0 on the others. *)
Definition speech_on (from to : nat) (history : list (list float32)) (frame : list float32)
  : VadOutcome :=
  if (from <=? length history) && (length history <? to) then Prob (9 # 10) else Prob 0.

Definition always_raises (history : list (list float32)) (frame : list float32)
  : VadOutcome := VadRaises.

Definition env_of (model : list (list float32) -> list float32 -> VadOutcome) : Env :=
  mkEnv (Some model) (1 # 2) false.

(** Continuous speech: eight frames, all scored as speech. *)
Definition after_continuous_speech : SpeechRecognizer * World :=
  state_or_blank (receive_loop (env_of (speech_on 0 8)) coroutine_session world0
                    (repeat (zeros 512) 8)).

(** Pure silence: twelve frames, none scored as speech. *)
Definition after_silence : SpeechRecognizer * World :=
  state_or_blank (receive_loop (env_of (speech_on 0 0)) coroutine_session world0
                    (repeat (zeros 512) 12)).

(** One frame of speech and fourteen of silence: one silent frame short of
    the end of the utterance. *)
Definition before_last_silent_frame : SpeechRecognizer * World :=
  state_or_blank (receive_loop (env_of (speech_on 0 1)) coroutine_session world0
                    (repeat (zeros 512) 15)).

(** The same with a plain callback. *)
Definition plain_before_last_silent_frame : SpeechRecognizer * World :=
  state_or_blank (receive_loop (env_of (speech_on 0 1)) plain_session world0
                    (repeat (zeros 512) 15)).

(** One payload of sixteen frames, the first scored as speech: the
    utterance ends at the last frame. *)
Definition after_one_utterance : SpeechRecognizer * World :=
  state_or_blank (receive_loop (env_of (speech_on 0 1)) coroutine_session world0
                    [zeros (16 * 512)]).

(** The same after the handshake has set the prompt to "hello". *)
Definition after_one_utterance_with_prompt : SpeechRecognizer * World :=
  state_or_blank
    (receive_loop (env_of (speech_on 0 1))
       (prompt_setter coroutine_session (PyStr "hello")) world0 [zeros (16 * 512)]).

(** One frame of float32 samples 0.0. *)
Definition zero_frame : list float32 := repeat 0%Z 512.

(** The prompts handed to [recognize_async], oldest first. *)
Fixpoint prompts_of (tr : list Effect) : list (option string) :=
  match tr with
  | [] => []
  | RecognizeAsync _ _ _ prompt :: rest => prompt :: prompts_of rest
  | _ :: rest => prompts_of rest
  end.

(** ** What a session keeps between two calls *)

(** The audio ring is well formed, and the session is either IDLE, with
    start index -1 and silence counter 0, or IN_SPEECH, with a start index
    inside the ring and a silence counter that is 0 or below its limit. *)
Definition session_inv (self : SpeechRecognizer) : Prop :=
  NumPyRingBuffer.wf (_audio_buffer self)
  /\ ((_speech_start_index self = (-1)%Z /\ _silence_counter self = 0%Z)
      \/ ((0 <= _speech_start_index self
           <= Z.of_nat (NumPyRingBuffer.size (_audio_buffer self)))%Z
          /\ (0 <= _silence_counter self)%Z
          /\ (_silence_counter self = 0%Z
              \/ (_silence_counter self < _silence_duration_frames self)%Z))).

(** The byte of value [z mod 256]. *)
Definition byte_of_Z (z : Z) : byte :=
  match Byte.of_N (Z.to_N (z mod 256)) with
  | Some b => b
  | None => x00
  end.

(** The state machine run on a list of frames, one after the other. *)
Definition run_frames (env : Env) (frames : list (list float32))
    (self : SpeechRecognizer) (w : World) : SpeechRecognizer * World :=
  fold_left (fun sw f => _process_audio_chunk env (fst sw) (snd sw) f) frames (self, w).

(** [audio_array.tobytes()] as [save_audio_raw] writes it to the raw file:
    four bytes per sample, least significant first. *)
Definition tobytes_float32 (audio_array : list float32) : list byte :=
  flat_map (fun x => [byte_of_Z x; byte_of_Z (x / 2 ^ 8); byte_of_Z (x / 2 ^ 16);
                      byte_of_Z (x / 2 ^ 24)]) audio_array.

(** The utterances handed to [save_audio_raw], oldest first. *)
Fixpoint saved (tr : list Effect) : list (list float32) :=
  match tr with
  | [] => []
  | SaveAudioRaw samples _ :: rest => samples :: saved rest
  | _ :: rest => saved rest
  end.

(** The SpeechEnd notifications of a trace. *)
Definition speech_ends (tr : list Effect) : list (State * option uuid) :=
  filter (fun n => match fst n with SPEECH_END => true | _ => false end)
    (notifications tr).

(** The settings the admin endpoint can leave in the shared configuration:
    the ranges [update_from_dict] clamps to, which the defaults lie in. *)
Definition valid_config (c : VADConfig.t) : Prop :=
  (0 <= VADConfig.threshold c <= 1)%Q
  /\ (0 <= VADConfig.min_speech_duration_ms c)%Z
  /\ (1 # 10 <= VADConfig.max_speech_duration_s c)%Q
  /\ (0 <= VADConfig.prefix_speech_pad_ms c)%Z
  /\ (0 <= VADConfig.silence_duration_ms c)%Z
  /\ (1 <= VADConfig.chunk_size c)%Z.

(** ** [VADConfig] as the admin endpoint sees it

    [update_from_dict], [to_dict], [reset], [load_config] and [save_config]
    work on the attributes of the shared instance by name, so the instance is
    embedded once more, as its [__dict__]: the attributes set so far with
    their values, in the order they were first set.  A float is the exact
    rational it denotes or one of the three special values; the rounding of
    an integer to the nearest float is not modelled. *)

Module VADConfigObject.
Local Open Scope string_scope.

Inductive PyFloat : Type :=
| Finite (q : Q)
| PosInf
| NegInf
| NaN.

(** The values of a decoded JSON document, which are also the values an
    attribute can hold.  The contents of arrays and objects play no role. *)
Inductive Value : Type :=
| VInt (z : Z)
| VFloat (x : PyFloat)
| VBool (b : bool)
| VStr (s : string)
| VNone
| VArray
| VObject.

(** [a < b] on floats: false as soon as one side is NaN. *)
Definition float_lt (a b : PyFloat) : bool :=
  match a, b with
  | NaN, _ => false
  | _, NaN => false
  | Finite x, Finite y => Qlt_bool x y
  | Finite _, PosInf => true
  | Finite _, NegInf => false
  | PosInf, _ => false
  | NegInf, NegInf => false
  | NegInf, _ => true
  end.

(** [min(a, b)] and [max(a, b)]: the first argument, unless the second is
    smaller (larger). *)
Definition float_min (a b : PyFloat) : PyFloat := if float_lt b a then b else a.
Definition float_max (a b : PyFloat) : PyFloat := if float_lt a b then b else a.

Section Builtins.
(** [float(s)] and [int(s)] on a string; [None] stands for [ValueError]. *)
Variable float_of_str : string -> option PyFloat.
Variable int_of_str : string -> option Z.

(** [float(value)]; [None] stands for the exception raised: [OverflowError]
    for an integer that rounds beyond the largest binary64, [TypeError] for
    [None], a list or a dict. *)
Definition float_of (value : Value) : option PyFloat :=
  match value with
  | VInt z =>
      if (Z.abs z <? 2 ^ 1024 - 2 ^ 970)%Z then Some (Finite (inject_Z z)) else None
  | VFloat x => Some x
  | VBool b => Some (Finite (if b then 1 else 0))
  | VStr s => float_of_str s
  | VNone | VArray | VObject => None
  end.

(** [int(value)]; [None] stands for the exception raised: [OverflowError]
    on an infinity, [ValueError] on NaN, [TypeError] for [None], a list or a
    dict. *)
Definition int_of (value : Value) : option Z :=
  match value with
  | VInt z => Some z
  | VFloat (Finite q) => Some (py_int q)
  | VFloat _ => None
  | VBool b => Some (if b then 1 else 0)%Z
  | VStr s => int_of_str s
  | VNone | VArray | VObject => None
  end.

(** The instance: its [__dict__]. *)
Definition t : Type := list (string * Value).

Fixpoint getattr (self : t) (name : string) : option Value :=
  match self with
  | [] => None
  | (k, v) :: rest => if String.eqb k name then Some v else getattr rest name
  end.

Fixpoint setattr (self : t) (name : string) (value : Value) : t :=
  match self with
  | [] => [(name, value)]
  | (k, v) :: rest =>
      if String.eqb k name then (k, value) :: rest
      else (k, v) :: setattr rest name value
  end.

(** The names the class body defines.  The names every object inherits
    from [object] ([__class__], [__dict__], ...) are left out: no branch of
    [update_from_dict] is taken for such a key. *)
Definition class_attributes : list string :=
  ["__init__"; "min_speech_duration_s"; "prefix_speech_pad_s"; "silence_duration_s";
   "reset"; "to_dict"; "load_config"; "update_from_dict"; "save_config"].

Definition hasattr (self : t) (name : string) : bool :=
  match getattr self name with
  | Some _ => true
  | None => existsb (String.eqb name) class_attributes
  end.

(** [__init__], which [reset] calls on the instance itself. *)
Definition init (self : t) : t :=
  let self1 := setattr self "threshold" (VFloat (Finite (1 # 2))) in
  let self2 := setattr self1 "min_speech_duration_ms" (VInt 250) in
  let self3 := setattr self2 "max_speech_duration_s" (VFloat (Finite (30 # 1))) in
  let self4 := setattr self3 "prefix_speech_pad_ms" (VInt 300) in
  let self5 := setattr self4 "silence_duration_ms" (VInt 500) in
  let self6 := setattr self5 "chunk_size" (VInt 512) in
  setattr self6 "config_file" (VStr "config/vad-config.json").

(** [VADConfig()] *)
Definition new : t := init [].

Definition reset (self : t) : t := init self.

(** The names of the six settings, which are the keys of [to_dict]. *)
Definition setting_names : list string :=
  ["threshold"; "min_speech_duration_ms"; "max_speech_duration_s"; "prefix_speech_pad_ms";
   "silence_duration_ms"; "chunk_size"].

(** The names [__init__] sets. *)
Definition names_of_new : list string :=
  ["threshold"; "min_speech_duration_ms"; "max_speech_duration_s"; "prefix_speech_pad_ms";
   "silence_duration_ms"; "chunk_size"; "config_file"].

(** [to_dict]; [None] stands for [AttributeError]. *)
Definition to_dict (self : t) : option (list (string * Value)) :=
  match getattr self "threshold", getattr self "min_speech_duration_ms",
        getattr self "max_speech_duration_s", getattr self "prefix_speech_pad_ms",
        getattr self "silence_duration_ms", getattr self "chunk_size" with
  | Some a, Some b, Some c, Some d, Some e, Some f =>
      Some [("threshold", a); ("min_speech_duration_ms", b); ("max_speech_duration_s", c);
            ("prefix_speech_pad_ms", d); ("silence_duration_ms", e); ("chunk_size", f)]
  | _, _, _, _, _, _ => None
  end.

Definition in_names (key : string) (names : list string) : bool :=
  existsb (String.eqb key) names.

(** The body of the loop of [update_from_dict] for one item; [None] when
    [float(value)] or [int(value)] raised. *)
Definition update_item (self : t) (key : string) (value : Value) : option t :=
  if hasattr self key then
    if String.eqb key "threshold" then
      match float_of value with
      | Some x =>
          Some (setattr self "threshold"
                  (VFloat (float_max (Finite 0) (float_min (Finite 1) x))))
      | None => None
      end
    else if in_names key
              ["min_speech_duration_ms"; "prefix_speech_pad_ms"; "silence_duration_ms"] then
      match int_of value with
      | Some z => Some (setattr self key (VInt (Z.max 0 z)))
      | None => None
      end
    else if String.eqb key "max_speech_duration_s" then
      match float_of value with
      | Some x =>
          Some (setattr self "max_speech_duration_s"
                  (VFloat (float_max (Finite (1 # 10)) x)))
      | None => None
      end
    else if in_names key ["chunk_size"] then
      match int_of value with
      | Some z => Some (setattr self key (VInt (Z.max 1 z)))
      | None => None
      end
    else if in_names key ["activation_threshold"] then
      Some (setattr self key (VFloat (float_max (Finite 0) (Finite 1))))
    else Some self
  else Some self.

(** What an item writes to the attribute of its key when the instance has
    the seven attributes of [__init__] and no other: [None] when the
    conversion raises, [Some None] when nothing is written. *)
Definition written_by (key : string) (value : Value) : option (option Value) :=
  if String.eqb key "threshold" then
    match float_of value with
    | Some x => Some (Some (VFloat (float_max (Finite 0) (float_min (Finite 1) x))))
    | None => None
    end
  else if in_names key
            ["min_speech_duration_ms"; "prefix_speech_pad_ms"; "silence_duration_ms"] then
    match int_of value with
    | Some z => Some (Some (VInt (Z.max 0 z)))
    | None => None
    end
  else if String.eqb key "max_speech_duration_s" then
    match float_of value with
    | Some x => Some (Some (VFloat (float_max (Finite (1 # 10)) x)))
    | None => None
    end
  else if in_names key ["chunk_size"] then
    match int_of value with
    | Some z => Some (Some (VInt (Z.max 1 z)))
    | None => None
    end
  else Some None.

(** How a call ended. *)
Inductive Completion : Type := Returned | Raised.

(** [update_from_dict]: the items are taken in the order of the dict; an
    exception leaves the attributes set before it in place. *)
Fixpoint update_from_dict (self : t) (config_dict : list (string * Value))
  : Completion * t :=
  match config_dict with
  | [] => (Returned, self)
  | (key, value) :: rest =>
      match update_item self key value with
      | Some self1 => update_from_dict self1 rest
      | None => (Raised, self)
      end
  end.

(** [save_config].  [now] is [datetime.now().isoformat()] and [dump_ok]
    tells whether opening the file and [json.dump] succeed.  The result is
    the value returned and the data handed to [json.dump], if the function
    gets that far: building [config_data] raises [AttributeError] as soon as
    an attribute it reads does not exist. *)
Definition save_config (self : t) (now : string) (dump_ok : bool)
  : bool * option (list (string * Value)) :=
  match getattr self "threshold", getattr self "min_speech_duration_ms",
        getattr self "max_speech_duration_s", getattr self "speech_pad_ms",
        getattr self "silence_duration_ms", getattr self "chunk_size" with
  | Some a, Some b, Some c, Some d, Some e, Some f =>
      (dump_ok,
       Some [("threshold", a); ("min_speech_duration_ms", b); ("max_speech_duration_s", c);
             ("speech_pad_ms", d); ("silence_duration_ms", e); ("chunk_size", f);
             ("last_updated", VStr now)])
  | _, _, _, _, _, _ => (false, None)
  end.

(** What [load_config] finds at [config_file]. *)
Inductive ConfigFile : Type :=
| Missing
| Unreadable                              (* not JSON, or not a JSON object *)
| Content (config_data : list (string * Value)).

(** [config_data.get(name, self.<name>)]: the default is evaluated first,
    and [None] stands for its [AttributeError]. *)
Definition get_or_attr (config_data : list (string * Value)) (self : t) (name : string)
  : option Value :=
  match getattr self name with
  | None => None
  | Some default =>
      Some (match getattr config_data name with
            | Some v => v
            | None => default
            end)
  end.

(** [load_config]: the value returned, the instance, and the data handed
    to [json.dump] by the call of [save_config] made when there is no file.
    An [AttributeError] inside the [try] leaves the attributes assigned
    before it in place. *)
Definition load_config (self : t) (file : ConfigFile) (now : string) (dump_ok : bool)
  : bool * t * option (list (string * Value)) :=
  match file with
  | Missing => (false, self, snd (save_config self now dump_ok))
  | Unreadable => (false, self, None)
  | Content config_data =>
      let assign (r : bool * t) (name : string) : bool * t :=
        if fst r then
          match get_or_attr config_data (snd r) name with
          | Some v => (true, setattr (snd r) name v)
          | None => (false, snd r)
          end
        else r in
      let r :=
        fold_left assign
          ["threshold"; "min_speech_duration_ms"; "max_speech_duration_s";
           "prefix_speech_pad_ms"; "silence_duration_ms"; "chunk_size"]
          (true, self) in
      (fst r, snd r, None)
  end.

(** [HttpSpeechRecognitionAdminService.update_vad_config]: the answer, the
    instance afterwards, and the data handed to [json.dump]. *)
Inductive Answer : Type :=
| Success (old_config new_config : list (string * Value)) (active_sessions : nat)
| Error.

Definition update_vad_config (self : t) (config : list (string * Value))
    (active_sessions : nat) (now : string) (dump_ok : bool)
  : Answer * t * option (list (string * Value)) :=
  match to_dict self with
  | None => (Error, self, None)
  | Some old_config =>
      match update_from_dict self config with
      | (Raised, self1) => (Error, self1, None)
      | (Returned, self1) =>
          match to_dict self1 with
          | None => (Error, self1, None)
          | Some new_config =>
              (Success old_config new_config active_sessions, self1,
               snd (save_config self1 now dump_ok))
          end
      end
  end.

(** [reset_vad_config] *)
Definition reset_vad_config (self : t) (active_sessions : nat) (now : string)
    (dump_ok : bool) : Answer * t * option (list (string * Value)) :=
  match to_dict self with
  | None => (Error, self, None)
  | Some old_config =>
      let self1 := reset self in
      let saved := snd (save_config self1 now dump_ok) in
      match to_dict self1 with
      | None => (Error, self1, saved)
      | Some new_config => (Success old_config new_config active_sessions, self1, saved)
      end
  end.

(** The states of the shared instance: created by [VADConfig()], then
    loaded, updated and reset any number of times. *)
Inductive Configured : t -> Prop :=
| Conf_new : Configured new
| Conf_load self file now dump_ok :
    Configured self -> Configured (snd (fst (load_config self file now dump_ok)))
| Conf_update self config_dict :
    Configured self -> Configured (snd (update_from_dict self config_dict))
| Conf_reset self : Configured self -> Configured (reset self).

End Builtins.

(** The settings are in the ranges [update_from_dict] clamps to. *)
Definition in_range (self : t) : Prop :=
  (exists q, getattr self "threshold" = Some (VFloat (Finite q)) /\ (0 <= q <= 1)%Q)
  /\ (exists z, getattr self "min_speech_duration_ms" = Some (VInt z) /\ (0 <= z)%Z)
  /\ (exists x, getattr self "max_speech_duration_s" = Some (VFloat x)
                /\ (x = PosInf \/ exists q, x = Finite q /\ (1 # 10 <= q)%Q))
  /\ (exists z, getattr self "prefix_speech_pad_ms" = Some (VInt z) /\ (0 <= z)%Z)
  /\ (exists z, getattr self "silence_duration_ms" = Some (VInt z) /\ (0 <= z)%Z)
  /\ (exists z, getattr self "chunk_size" = Some (VInt z) /\ (1 <= z)%Z).

(** The settings as [SpeechRecognizer.__init__] reads them, when every one
    of them is a finite number of the expected type. *)
Definition settings (self : t) : option VADConfig.t :=
  match getattr self "threshold", getattr self "min_speech_duration_ms",
        getattr self "max_speech_duration_s", getattr self "prefix_speech_pad_ms",
        getattr self "silence_duration_ms", getattr self "chunk_size" with
  | Some (VFloat (Finite a)), Some (VInt b), Some (VFloat (Finite c)), Some (VInt d),
    Some (VInt e), Some (VInt f) => Some (VADConfig.mk a b c d e f)
  | _, _, _, _, _, _ => None
  end.

End VADConfigObject.

(** ** [AudioLogger.cleanup_old_files] *)

Module AudioLogger.
Section Cleanup.
(** The paths of the output directory, and [path.stat().st_ctime]. *)
Variable File : Type.
Variable st_ctime : File -> Q.

(** [sorted(files, key=lambda x: x.stat().st_ctime)].  [sorted] is stable:
    files of equal time keep the order they are listed in.  The embedding
    sorts by insertion, from the last file to the first. *)
Fixpoint insert_by_ctime (x : File) (l : list File) : list File :=
  match l with
  | [] => [x]
  | y :: rest =>
      if Qle_bool (st_ctime x) (st_ctime y) then x :: l
      else y :: insert_by_ctime x rest
  end.

Definition sorted_by_ctime (l : list File) : list File :=
  fold_right insert_by_ctime [] l.

(** [files_to_delete]: [files[:-max_files]] when there are more than
    [max_files] files.  [raw_files] is what [glob("*.raw")] lists and
    [max_files] an integer. *)
Definition files_to_delete (max_files : Z) (raw_files : list File) : list File :=
  let files := sorted_by_ctime raw_files in
  if (max_files <? Z.of_nat (length files))%Z
  then slice_to files (- max_files)
  else [].

(** [cleanup_old_files]: the files deleted.  [unlink] tells for each file
    whether deleting it succeeds; a failure is logged and the loop goes on. *)
Definition cleanup_old_files (enabled output_dir_exists : bool) (max_files : Z)
    (raw_files : list File) (unlink : File -> bool) : list File :=
  if negb enabled then []
  else if negb output_dir_exists then []
  else filter unlink (files_to_delete max_files raw_files).

(** The files the call does not try to delete. *)
Definition files_kept (max_files : Z) (raw_files : list File) : list File :=
  skipn (length (files_to_delete max_files raw_files)) (sorted_by_ctime raw_files).

End Cleanup.
End AudioLogger.

(** ** The WAV file built by [play_audio_file] *)

(** The [length] low bytes of [v], least significant first. *)
Fixpoint le_bytes (length : nat) (v : Z) : list byte :=
  match length with
  | O => []
  | S length' => byte_of_Z v :: le_bytes length' (v / 256)
  end.

(** [v.to_bytes(length, 'little')]; [None] stands for [OverflowError],
    raised for a negative [v] and for one that needs more bytes. *)
Definition to_bytes_little (length : nat) (v : Z) : option (list byte) :=
  if (v <? 0)%Z || (2 ^ (8 * Z.of_nat length) <=? v)%Z then None
  else Some (le_bytes length v).

(** [int.from_bytes(bs, 'little')], to read a field back. *)
Fixpoint from_bytes_little (bs : list byte) : Z :=
  match bs with
  | [] => 0
  | b :: rest => Z_of_byte b + 256 * from_bytes_little rest
  end.

(** [header.extend(piece)], after which nothing more happens once an
    exception was raised. *)
Definition extend (header piece : option (list byte)) : option (list byte) :=
  match header, piece with
  | Some h, Some p => Some (h ++ p)
  | _, _ => None
  end.

(** The header of [play_audio_file], for a sample rate that is an integer. *)
Definition wav_header (sample_rate pcm_length : Z) : option (list byte) :=
  let header := Some [] in
  let header := extend header (Some (list_byte_of_string "RIFF")) in
  let header := extend header (to_bytes_little 4 (36 + pcm_length)) in
  let header := extend header (Some (list_byte_of_string "WAVE")) in
  let header := extend header (Some (list_byte_of_string "fmt ")) in
  let header := extend header (to_bytes_little 4 16) in
  let header := extend header (to_bytes_little 2 1) in
  let header := extend header (to_bytes_little 2 1) in
  let header := extend header (to_bytes_little 4 sample_rate) in
  let header := extend header (to_bytes_little 4 (sample_rate * 2)) in
  let header := extend header (to_bytes_little 2 2) in
  let header := extend header (to_bytes_little 2 16) in
  let header := extend header (Some (list_byte_of_string "data")) in
  extend header (to_bytes_little 4 pcm_length).

(** [wav_content = bytes(header) + pcm_data] *)
Definition wav_content (sample_rate : Z) (pcm_data : list byte) : option (list byte) :=
  extend (wav_header sample_rate (Z.of_nat (length pcm_data))) (Some pcm_data).

(** * Part II: lemmas and theorems *)

(** ** Slices *)

Section SliceFacts.
Variable A : Type.
Implicit Types l v : list A.

Lemma length_slice l a b : b <= length l -> length (slice l a b) = b - a.
Proof.
  intros H. unfold slice. rewrite length_firstn, length_skipn. lia.
Qed.

Lemma length_slice_assign l a v :
  a + length v <= length l -> length (slice_assign l a v) = length l.
Proof.
  intros H. unfold slice_assign.
  rewrite !length_app, length_firstn, length_skipn. lia.
Qed.

Lemma length_last_n k l : length (last_n k l) = Nat.min k (length l).
Proof. unfold last_n. rewrite length_skipn. lia. Qed.

Lemma nth_last_n k l i d :
  nth i (last_n k l) d = nth (length l - k + i) l d.
Proof. unfold last_n. apply nth_skipn. Qed.

Lemma nth_slice l a b i d :
  i < b - a -> nth i (slice l a b) d = nth (a + i) l d.
Proof.
  intros H. unfold slice. rewrite nth_firstn.
  destruct (Nat.ltb_spec i (b - a)); [apply nth_skipn | lia].
Qed.

Lemma nth_slice_assign l a v j d :
  a + length v <= length l ->
  nth j (slice_assign l a v) d =
    if j <? a then nth j l d
    else if j <? a + length v then nth (j - a) v d
    else nth j l d.
Proof.
  intros H. unfold slice_assign.
  destruct (Nat.ltb_spec j a) as [Hj|Hj].
  - rewrite app_nth1 by (rewrite length_firstn; lia).
    rewrite nth_firstn. destruct (Nat.ltb_spec j a); [reflexivity | lia].
  - rewrite app_nth2 by (rewrite length_firstn; lia).
    rewrite length_firstn, Nat.min_l by lia.
    destruct (Nat.ltb_spec j (a + length v)) as [Hv|Hv].
    + rewrite app_nth1 by lia. reflexivity.
    + rewrite app_nth2 by lia. rewrite nth_skipn. f_equal. lia.
Qed.

Lemma last_n_all k l : length l <= k -> last_n k l = l.
Proof.
  intros H. unfold last_n. replace (length l - k) with 0 by lia. reflexivity.
Qed.

End SliceFacts.

(** ** Cursors that wrap at most once *)

Lemma mod_lt2_cases (a m : nat) :
  0 < m -> a < 2 * m ->
  (a < m /\ a mod m = a) \/ (m <= a /\ a mod m = a - m).
Proof.
  intros Hm Ha. destruct (Nat.lt_ge_cases a m) as [H|H].
  - left. split; [assumption | now apply Nat.mod_small].
  - right. split; [assumption|].
    replace a with ((a - m) + 1 * m) at 1 by lia.
    rewrite Nat.Div0.mod_add. apply Nat.mod_small. lia.
Qed.

Ltac wrap_once :=
  match goal with
  | |- context [?a mod ?m] =>
      let H := fresh "Hmod" in
      destruct (@mod_lt2_cases a m ltac:(lia) ltac:(lia)) as [[? H]|[? H]];
      rewrite !H in *; clear H
  | Hyp : context [?a mod ?m] |- _ =>
      let H := fresh "Hmod" in
      destruct (@mod_lt2_cases a m ltac:(lia) ltac:(lia)) as [[? H]|[? H]];
      rewrite !H in *; clear H
  end.

(** ** The ring buffer against its contents *)

Module RingFacts.
Import NumPyRingBuffer.
Section Facts.
Variable A : Type.
Variable zero : A.
Implicit Types (rb : t A) (X : list A).

Lemma length_read rb k :
  wf rb -> k <= count rb -> length (read rb k) = k.
Proof.
  intros (Hm & Hl & Hh & Ht & Hc & Hhd) Hk. unfold read.
  destruct (Nat.leb_spec (tail rb + k) (maxsize rb)).
  - rewrite length_slice; lia.
  - rewrite length_app, length_skipn, length_firstn. lia.
Qed.

Lemma nth_read rb k i d :
  wf rb -> k <= count rb -> i < k ->
  nth i (read rb k) d = nth ((tail rb + i) mod maxsize rb) (buffer rb) d.
Proof.
  intros (Hm & Hl & Hh & Ht & Hc & Hhd) Hk Hi. clear Hhd. unfold read.
  destruct (Nat.leb_spec (tail rb + k) (maxsize rb)).
  - rewrite nth_slice by lia. rewrite Nat.mod_small by lia. reflexivity.
  - destruct (Nat.lt_ge_cases i (maxsize rb - tail rb)).
    + rewrite app_nth1 by (rewrite length_skipn; lia).
      rewrite nth_skipn, Nat.mod_small by lia. reflexivity.
    + rewrite app_nth2 by (rewrite length_skipn; lia).
      rewrite length_skipn, nth_firstn.
      destruct (Nat.ltb_spec (i - (length (buffer rb) - tail rb))
                  (k - (maxsize rb - tail rb))); [|lia].
      wrap_once; [lia|]. f_equal. lia.
Qed.

Lemma length_get_all rb : wf rb -> length (get_all rb) = count rb.
Proof.
  intros H. unfold get_all. destruct (Nat.eqb_spec (count rb) 0) as [E|E].
  - now rewrite E.
  - now apply length_read.
Qed.

Lemma nth_get_all rb i d :
  wf rb -> i < count rb ->
  nth i (get_all rb) d = nth ((tail rb + i) mod maxsize rb) (buffer rb) d.
Proof.
  intros H Hi. unfold get_all. destruct (Nat.eqb_spec (count rb) 0); [lia|].
  now apply nth_read.
Qed.

Lemma read_firstn rb k :
  wf rb -> k <= count rb -> read rb k = firstn k (get_all rb).
Proof.
  intros H Hk. destruct (Nat.eq_dec (count rb) 0) as [E|E].
  - assert (k = 0) by lia. subst k. simpl.
    apply length_zero_iff_nil. now apply length_read.
  - assert (Hlen : length (read rb k) = length (firstn k (get_all rb))).
    { rewrite length_read, length_firstn, length_get_all by assumption. lia. }
    destruct (read rb k) as [|a0 r0] eqn:Er.
    + symmetry. apply length_zero_iff_nil. now rewrite <- Hlen.
    + rewrite <- Er in *. apply nth_ext with (d := a0) (d' := a0); [exact Hlen|].
      intros i Hi. rewrite length_read in Hi by assumption.
      rewrite nth_firstn. destruct (Nat.ltb_spec i k); [|lia].
      rewrite nth_read, nth_get_all by (assumption || lia). reflexivity.
Qed.

Lemma wf_init n rb : init zero n = Some rb -> wf rb /\ count rb = 0 /\ maxsize rb = Z.to_nat n.
Proof.
  unfold init. destruct (Z.leb_spec n 0); [discriminate|].
  intros [= <-]. unfold wf. simpl. rewrite repeat_length.
  rewrite Nat.Div0.mod_0_l. lia.
Qed.

Lemma wf_clear rb : wf rb -> wf (clear rb).
Proof.
  intros (Hm & Hl & Hh & Ht & Hc & Hhd). unfold wf, clear. simpl.
  rewrite Nat.Div0.mod_0_l. lia.
Qed.

Lemma get_all_empty rb : count rb = 0 -> get_all rb = [].
Proof. intros H. unfold get_all. now rewrite H. Qed.

Lemma get_bulk_fst rb n :
  wf rb -> fst (get_bulk rb n) = firstn n (get_all rb).
Proof.
  intros H. unfold get_bulk. destruct (Nat.eqb_spec (count rb) 0) as [E|E]; simpl.
  - rewrite get_all_empty by assumption. now rewrite firstn_nil.
  - rewrite read_firstn by (assumption || lia).
    destruct (Nat.le_ge_cases n (count rb)).
    + now rewrite Nat.min_l.
    + rewrite Nat.min_r by assumption.
      rewrite !firstn_all2; rewrite ?length_get_all; auto.
Qed.

Lemma get_bulk_size rb : fst (get_bulk rb (size rb)) = get_all rb.
Proof.
  unfold get_bulk, get_all, size. destruct (count rb =? 0); simpl; [reflexivity|].
  now rewrite Nat.min_id.
Qed.

Lemma wf_get_bulk rb n : wf rb -> wf (snd (get_bulk rb n)).
Proof.
  intros H. pose proof H as (Hm & Hl & Hh & Ht & Hc & Hhd).
  unfold get_bulk. destruct (Nat.eqb_spec (count rb) 0); simpl; [assumption|].
  unfold wf; simpl.
  assert (Hn : Nat.min n (count rb) <= count rb) by lia.
  revert Hn. generalize (Nat.min n (count rb)). intros a Ha.
  repeat split; try lia.
  - apply Nat.mod_upper_bound. lia.
  - rewrite Hhd. rewrite Nat.Div0.add_mod_idemp_l. f_equal. lia.
Qed.

Lemma count_get_bulk rb n : count (snd (get_bulk rb n)) = count rb - n.
Proof.
  unfold get_bulk. destruct (Nat.eqb_spec (count rb) 0); simpl; lia.
Qed.

Lemma count_put_bulk rb X :
  count rb <= maxsize rb ->
  count (put_bulk rb X) = Nat.min (maxsize rb) (count rb + length X).
Proof.
  intros Hc. unfold put_bulk.
  destruct (Nat.eqb_spec (length X) 0) as [E|E]; [rewrite E; lia|].
  destruct (Nat.leb_spec (maxsize rb) (length X)); simpl; [lia|].
  destruct (Nat.leb_spec (count rb + length X) (maxsize rb)); simpl; lia.
Qed.

Lemma maxsize_put_bulk rb X : maxsize (put_bulk rb X) = maxsize rb.
Proof.
  unfold put_bulk.
  destruct (length X =? 0); [reflexivity|].
  destruct (maxsize rb <=? length X); [reflexivity|].
  destruct (count rb + length X <=? maxsize rb); reflexivity.
Qed.

Lemma nth_buffer_put_bulk rb X j d :
  wf rb -> 0 < length X < maxsize rb -> j < maxsize rb ->
  nth j (buffer (put_bulk rb X)) d =
    let k := (j + maxsize rb - head rb) mod maxsize rb in
    if k <? length X then nth k X d else nth j (buffer rb) d.
Proof.
  intros (Hm & Hl & Hh & Ht & Hc & Hhd) [Hn0 Hn] Hj. clear Hhd.
  unfold put_bulk.
  destruct (Nat.eqb_spec (length X) 0); [lia|].
  destruct (Nat.leb_spec (maxsize rb) (length X)); [lia|].
  assert (Hbuf : forall (b : list A) h t c (b' : list A) h' t' c',
             buffer (if count rb + length X <=? maxsize rb
                     then mk (maxsize rb) b h t c else mk (maxsize rb) b' h' t' c')
             = if count rb + length X <=? maxsize rb then b else b').
  { intros. now destruct (count rb + length X <=? maxsize rb). }
  rewrite Hbuf. clear Hbuf.
  assert (Hsame : forall b : list A,
             (if count rb + length X <=? maxsize rb then b else b) = b).
  { intros. now destruct (count rb + length X <=? maxsize rb). }
  rewrite Hsame. clear Hsame. cbv zeta.
  destruct (Nat.leb_spec (head rb + length X) (maxsize rb)) as [Hfit|Hwrap].
  - rewrite nth_slice_assign by lia.
    destruct (Nat.ltb_spec j (head rb)).
    + wrap_once; [|lia].
      destruct (Nat.ltb_spec (j + maxsize rb - head rb) (length X)); [lia|reflexivity].
    + wrap_once; [lia|].
      replace (j + maxsize rb - head rb - maxsize rb) with (j - head rb) by lia.
      destruct (Nat.ltb_spec j (head rb + length X));
        destruct (Nat.ltb_spec (j - head rb) (length X)); try lia; reflexivity.
  - assert (Hf : length (firstn (maxsize rb - head rb) X) = maxsize rb - head rb).
    { rewrite length_firstn. lia. }
    assert (Hs : length (skipn (maxsize rb - head rb) X)
                 = length X - (maxsize rb - head rb)).
    { now rewrite length_skipn. }
    assert (Hinner : length (slice_assign (buffer rb) (head rb)
                               (firstn (maxsize rb - head rb) X)) = maxsize rb).
    { rewrite length_slice_assign; lia. }
    rewrite nth_slice_assign by lia.
    rewrite Hs. rewrite (proj2 (Nat.ltb_ge j 0)) by lia.
    destruct (Nat.ltb_spec j (0 + (length X - (maxsize rb - head rb)))).
    + rewrite nth_skipn, Nat.sub_0_r.
      wrap_once; [|lia].
      destruct (Nat.ltb_spec (j + maxsize rb - head rb) (length X)); [|lia].
      f_equal. lia.
    + rewrite nth_slice_assign by lia. rewrite Hf.
      destruct (Nat.ltb_spec j (head rb)).
      * wrap_once; [|lia].
        destruct (Nat.ltb_spec (j + maxsize rb - head rb) (length X)); [lia|reflexivity].
      * destruct (Nat.ltb_spec j (head rb + (maxsize rb - head rb))); [|lia].
        wrap_once; [lia|].
        destruct (Nat.ltb_spec (j + maxsize rb - head rb - maxsize rb) (length X)); [|lia].
        rewrite nth_firstn.
        destruct (Nat.ltb_spec (j - head rb) (maxsize rb - head rb)); [|lia].
        f_equal. lia.
Qed.

Lemma wf_put_bulk rb X : wf rb -> wf (put_bulk rb X).
Proof.
  intros H. pose proof H as (Hm & Hl & Hh & Ht & Hc & Hhd).
  unfold put_bulk.
  destruct (Nat.eqb_spec (length X) 0); [assumption|].
  destruct (Nat.leb_spec (maxsize rb) (length X)).
  - unfold wf; simpl. rewrite length_last_n.
    rewrite ?Nat.add_0_l, Nat.Div0.mod_same. lia.
  - assert (Hb : length (if head rb + length X <=? maxsize rb
                         then slice_assign (buffer rb) (head rb) X
                         else slice_assign
                                (slice_assign (buffer rb) (head rb)
                                   (firstn (maxsize rb - head rb) X))
                                0 (skipn (maxsize rb - head rb) X)) = maxsize rb).
    { destruct (Nat.leb_spec (head rb + length X) (maxsize rb)).
      - rewrite length_slice_assign; lia.
      - rewrite !length_slice_assign; rewrite ?length_slice_assign;
          rewrite ?length_firstn, ?length_skipn; lia. }
    destruct (Nat.leb_spec (count rb + length X) (maxsize rb));
      unfold wf; simpl; rewrite Hb.
    + repeat split; try lia.
      * apply Nat.mod_upper_bound; lia.
      * rewrite Hhd. rewrite Nat.Div0.add_mod_idemp_l. f_equal. lia.
    + repeat split; try lia.
      * apply Nat.mod_upper_bound; lia.
      * apply Nat.mod_upper_bound; lia.
      * rewrite Hhd.
        rewrite Nat.Div0.add_mod_idemp_l, Nat.Div0.add_mod_idemp_l.
        replace (tail rb + (count rb + length X - maxsize rb) + maxsize rb)
          with (tail rb + count rb + length X) by lia.
        reflexivity.
Qed.

(** The contents after a bulk write: the newest [maxsize] elements of the
    old contents followed by the data. *)
Lemma get_all_put_bulk rb X :
  wf rb -> get_all (put_bulk rb X) = last_n (maxsize rb) (get_all rb ++ X).
Proof.
  intros H. pose proof H as (Hm & Hl & Hh & Ht & Hc & Hhd).
  pose proof (wf_put_bulk X H) as H'.
  pose proof (count_put_bulk rb X Hc) as Hcount.
  pose proof (length_get_all H) as Hlen.
  destruct (Nat.eq_dec (length X) 0) as [E0|E0].
  { apply length_zero_iff_nil in E0. subst X. rewrite app_nil_r.
    rewrite last_n_all by lia. reflexivity. }
  destruct (Nat.le_gt_cases (maxsize rb) (length X)) as [Hbig|Hsmall].
  - (* the data alone fills the buffer *)
    assert (HR : last_n (maxsize rb) (get_all rb ++ X) = last_n (maxsize rb) X).
    { unfold last_n. rewrite length_app, Hlen.
      replace (count rb + length X - maxsize rb)
        with (length (get_all rb) + (length X - maxsize rb)) by lia.
      rewrite skipn_app, skipn_all2 by lia.
      now rewrite Nat.add_comm, Nat.add_sub. }
    rewrite HR. clear HR.
    unfold put_bulk. destruct (Nat.eqb_spec (length X) 0); [lia|].
    destruct (Nat.leb_spec (maxsize rb) (length X)); [|lia].
    unfold get_all, read; simpl.
    destruct (Nat.eqb_spec (maxsize rb) 0); [lia|].
    rewrite Nat.leb_refl. unfold slice.
    rewrite Nat.sub_0_r. simpl skipn.
    apply firstn_all2. rewrite length_last_n; lia.
  - (* the data is appended at [head] *)
    destruct X as [|x0 X0] eqn:EX; [simpl in E0; lia|]. rewrite <- EX in *.
    apply nth_ext with (d := x0) (d' := x0).
    { rewrite length_get_all, length_last_n, length_app, Hlen by assumption.
      rewrite Hcount. reflexivity. }
    intros i Hi. rewrite length_get_all, Hcount in Hi by assumption.
    rewrite nth_get_all by (assumption || lia).
    rewrite maxsize_put_bulk.
    rewrite nth_last_n, length_app, Hlen.
    assert (Htail : tail (put_bulk rb X) =
                    if count rb + length X <=? maxsize rb then tail rb
                    else (tail rb + (count rb + length X - maxsize rb)) mod maxsize rb).
    { unfold put_bulk. destruct (Nat.eqb_spec (length X) 0); [lia|].
      destruct (Nat.leb_spec (maxsize rb) (length X)); [lia|].
      destruct (count rb + length X <=? maxsize rb); reflexivity. }
    rewrite Htail. clear Htail.
    assert (Hidx : forall a, a mod maxsize rb < maxsize rb).
    { intros a. apply Nat.mod_upper_bound. lia. }
    destruct (Nat.leb_spec (count rb + length X) (maxsize rb)) as [Hfit|Hover];
      rewrite nth_buffer_put_bulk by (assumption || lia || apply Hidx);
      clear Hidx; cbv zeta;
      (destruct (Nat.lt_ge_cases (count rb + length X - maxsize rb + i) (count rb));
       [ rewrite app_nth1 by lia; rewrite nth_get_all by assumption
       | rewrite app_nth2 by lia; rewrite Hlen ]);
      repeat wrap_once;
      repeat match goal with
        | |- context [?a <? ?b] => destruct (Nat.ltb_spec a b)
        end;
      try lia; try reflexivity; f_equal; lia.
Qed.

End Facts.
End RingFacts.

(** ** C2: bulk write followed by a full read *)

Section RingBufferClaims.
Import NumPyRingBuffer.

(** C2, amended: for a ring buffer in a state its operations can produce and
    any input [X], after [put_bulk(X)] the call [get_bulk(size())] returns
    the last [min(count + |X|, capacity)] elements of the prior contents
    followed by [X]; the size never exceeds the capacity; and a write of
    [|X| >= capacity] leaves exactly the trailing [capacity] elements of [X]
    in the array with [head = tail = 0] and [count = capacity]. *)
Theorem put_bulk_get_bulk_newest (A : Type) (rb : t A) (X : list A) :
  wf rb ->
  let rb' := put_bulk rb X in
  fst (get_bulk rb' (size rb'))
    = last_n (Nat.min (count rb + length X) (capacity rb)) (get_all rb ++ X)
  /\ size rb' <= capacity rb'
  /\ wf rb'
  /\ (capacity rb <= length X ->
      buffer rb' = last_n (capacity rb) X
      /\ head rb' = 0 /\ tail rb' = 0 /\ count rb' = capacity rb).
Proof.
  intros H rb'. pose proof H as (Hm & Hl & Hh & Ht & Hc & Hhd).
  pose proof (RingFacts.wf_put_bulk X H) as H'. fold rb' in H'.
  repeat split; try apply H'.
  - rewrite RingFacts.get_bulk_size. unfold rb'.
    rewrite RingFacts.get_all_put_bulk by assumption.
    unfold last_n, capacity. rewrite length_app, RingFacts.length_get_all by assumption.
    f_equal. lia.
  - unfold rb', put_bulk. destruct (Nat.eqb_spec (length X) 0); [unfold capacity in *; lia|].
    destruct (Nat.leb_spec (maxsize rb) (length X)); [reflexivity|unfold capacity in *; lia].
  - unfold rb', put_bulk. destruct (Nat.eqb_spec (length X) 0); [unfold capacity in *; lia|].
    destruct (Nat.leb_spec (maxsize rb) (length X)); [reflexivity|unfold capacity in *; lia].
  - unfold rb', put_bulk. destruct (Nat.eqb_spec (length X) 0); [unfold capacity in *; lia|].
    destruct (Nat.leb_spec (maxsize rb) (length X)); [reflexivity|unfold capacity in *; lia].
  - unfold rb', put_bulk. destruct (Nat.eqb_spec (length X) 0); [unfold capacity in *; lia|].
    destruct (Nat.leb_spec (maxsize rb) (length X)); [reflexivity|unfold capacity in *; lia].
Qed.

Lemma wf_ring_1_2 : wf ring_1_2.
Proof. unfold wf; cbn. repeat split; lia. Defined.

(** The theorem at a buffer of capacity 4 holding [1; 2], written with
    [3; 4; 5]: the oldest element is dropped. *)
Lemma put_bulk_get_bulk_newest_witness :
  wf ring_1_2 /\
  fst (get_bulk (put_bulk ring_1_2 [3; 4; 5]%Z) (size (put_bulk ring_1_2 [3; 4; 5]%Z)))
  = last_n (Nat.min (count ring_1_2 + 3) (capacity ring_1_2))
      (get_all ring_1_2 ++ [3; 4; 5]%Z).
Proof.
  split; [exact wf_ring_1_2|].
  exact (proj1 (put_bulk_get_bulk_newest [3; 4; 5]%Z wf_ring_1_2)).
Defined.

(** C2 as stated fails: with [1; 2] held and [X = [3]], the read returns
    [1; 2; 3], not the last [min(|X|, capacity) = 1] element. *)
Lemma put_bulk_get_bulk_last_min_X_fails :
  let rb' := put_bulk ring_1_2 [3%Z] in
  get_all ring_1_2 = [1; 2]%Z
  /\ fst (get_bulk rb' (size rb')) = [1; 2; 3]%Z
  /\ fst (get_bulk rb' (size rb'))
     <> last_n (Nat.min (length [3%Z]) (capacity ring_1_2)) (get_all ring_1_2 ++ [3%Z]).
Proof.
  cbv zeta. repeat split; try reflexivity.
  vm_compute. discriminate.
Qed.

End RingBufferClaims.

(** ** Traces *)

Lemma vad_frames_app tr1 tr2 : vad_frames (tr1 ++ tr2) = vad_frames tr1 ++ vad_frames tr2.
Proof.
  induction tr1 as [|e tr1 IH]; [reflexivity|].
  destruct e; simpl; rewrite IH; reflexivity.
Qed.

Lemma dispatched_app tr1 tr2 : dispatched (tr1 ++ tr2) = dispatched tr1 ++ dispatched tr2.
Proof.
  induction tr1 as [|e tr1 IH]; [reflexivity|].
  destruct e; simpl; rewrite IH; reflexivity.
Qed.

Lemma notifications_app tr1 tr2 :
  notifications (tr1 ++ tr2) = notifications tr1 ++ notifications tr2.
Proof.
  induction tr1 as [|e tr1 IH]; [reflexivity|].
  destruct e; simpl; rewrite IH; reflexivity.
Qed.


(** ** One frame: case analysis of [_process_audio_chunk] *)

Ltac rsimpl :=
  cbn [_session_id _speech_id _sample_rate _whisper_processor _prompt _chunk_size
       _min_speech_duration_s _max_speech_duration_s _prefix_speech_pad_s
       _silence_duration_frames _audio_buffer _chunk_buffer _silence_counter
       _speech_start_index _callback
       set_speech_id set_whisper_processor set_prompt set_audio_buffer
       set_chunk_buffer set_silence_counter set_speech_start_index
       fst snd trace next_uuid emit] in *.

Ltac frame_cases :=
  unfold _process_audio_chunk; cbv zeta;
  repeat match goal with
    | H : _vad_model ?e = _ |- context [_vad_model ?e] => rewrite H
    | |- context [match _vad_model ?e with _ => _ end] =>
        destruct (_vad_model e) eqn:?
    | |- context [match ?m ?h ?f with Prob _ => _ | VadRaises => _ end] =>
        destruct (m h f) eqn:?
    | |- context [if Qgt_bool ?p ?t then _ else _] =>
        destruct (Qgt_bool p t) eqn:?
    | |- context [if (?a <? ?b)%Z then _ else _] => destruct (Z.ltb_spec a b)
    | |- context [if (?a <=? ?b)%Z then _ else _] => destruct (Z.leb_spec a b)
    | |- context [match _notify ?s ?w ?st with _ => _ end] =>
        unfold _notify; rsimpl
    | |- context [match _callback ?s with _ => _ end] =>
        destruct (_callback s) eqn:?
    end;
  rsimpl.

Lemma frame_same_settings env self w f :
  same_settings (fst (_process_audio_chunk env self w f)) self.
Proof.
  unfold same_settings. frame_cases; repeat split; congruence.
Qed.

Lemma frame_chunk_buffer env self w f :
  _chunk_buffer (fst (_process_audio_chunk env self w f)) = _chunk_buffer self
  \/ _chunk_buffer (fst (_process_audio_chunk env self w f))
     = NumPyRingBuffer.clear (_chunk_buffer self).
Proof.
  frame_cases; auto.
Qed.


Lemma trigger_trace env self w U :
  exists effs,
    trace (_trigger_recognition env self w U) = trace w ++ effs
    /\ (effs = []
        \/ exists U', dispatch_of self U U'
             /\ (effs = [RecognizeAsync U' (_session_id self) (_speech_id self) (_prompt self)]
                 \/ effs = [SaveAudioRaw U' (_session_id self);
                            RecognizeAsync U' (_session_id self) (_speech_id self)
                              (_prompt self)])).
Proof.
  unfold _trigger_recognition.
  destruct (_whisper_processor self) eqn:Hw;
    [|exists []; rewrite app_nil_r; auto].
  destruct (Nat.eqb_spec (length U) 0);
    [exists []; rewrite app_nil_r; auto|].
  destruct (Qlt_bool _ _) eqn:Hmin;
    [exists []; rewrite app_nil_r; auto|].
  assert (Hd : dispatch_of self U
                 (if Qgt_bool (inject_Z (Z.of_nat (length U)))
                       (inject_Z (_sample_rate self) * _max_speech_duration_s self)%Q
                  then slice_to U (py_int (inject_Z (_sample_rate self)
                                           * _max_speech_duration_s self)%Q)
                  else U)).
  { unfold dispatch_of. repeat split; try assumption.
    - rewrite Hw. discriminate.
    - intros ->. simpl in *. lia. }
  destruct (audio_log_enabled env); cbn [emit trace].
  - eexists. rewrite <- app_assoc. split; [reflexivity|].
    right. eexists. split; [exact Hd|]. right. reflexivity.
  - eexists. split; [reflexivity|].
    right. eexists. split; [exact Hd|]. left. reflexivity.
Qed.

Lemma trigger_vad_frames env self w U :
  vad_frames (trace (_trigger_recognition env self w U)) = vad_frames (trace w).
Proof.
  destruct (trigger_trace env self w U) as (effs & -> & [->|(U' & _ & [->| ->])]);
    rewrite vad_frames_app; simpl; apply app_nil_r.
Qed.

Lemma frame_vad_frames env model self w f :
  _vad_model env = Some model ->
  vad_frames (trace (snd (_process_audio_chunk env self w f)))
  = vad_frames (trace w) ++ [f].
Proof.
  intros Hm. frame_cases;
    rewrite ?vad_frames_app, ?trigger_vad_frames; cbn [trace emit];
    rewrite ?vad_frames_app; simpl; rewrite ?app_nil_r; reflexivity.
Qed.

(** ** The framing loop *)

Lemma div_mod_step (cs remain : nat) :
  0 < cs -> cs <= remain ->
  remain / cs = S ((remain - cs) / cs) /\ remain mod cs = (remain - cs) mod cs.
Proof.
  intros Hcs Hle.
  replace remain with ((remain - cs) + 1 * cs) at 1 3 by lia.
  rewrite Nat.div_add, Nat.Div0.mod_add by lia. lia.
Qed.

Lemma chunk_ready_frame env self w f :
  chunk_ready self -> chunk_ready (fst (_process_audio_chunk env self w f)).
Proof.
  intros (Hwf & Hc & Hm). unfold chunk_ready.
  destruct (frame_same_settings env self w f) as (_ & _ & _ & _ & Hcs & _).
  rewrite Hcs.
  destruct (frame_chunk_buffer env self w f) as [-> | ->]; [auto|].
  split; [now apply RingFacts.wf_clear|]. split; [reflexivity | exact Hm].
Qed.

Lemma process_frames_spec env model :
  _vad_model env = Some model ->
  forall fuel self w arr start remain,
    0 < _chunk_size self -> remain < fuel -> chunk_ready self ->
    let r := process_frames env fuel self w arr start remain in
    let cs := _chunk_size self in
    snd r = remain mod cs
    /\ snd (fst r) = start + remain / cs * cs
    /\ chunk_ready (fst (fst (fst r)))
    /\ same_settings (fst (fst (fst r))) self
    /\ vad_frames (trace (snd (fst (fst r))))
       = vad_frames (trace w)
         ++ map (fun i => slice arr (start + i * cs) (start + i * cs + cs))
              (seq 0 (remain / cs)).
Proof.
  intros Hmodel. induction fuel as [|fuel IH]; intros self w arr start remain Hcs Hfuel Hready;
    [lia|].
  cbn [process_frames]. cbv zeta.
  destruct (Nat.leb_spec (_chunk_size self) remain) as [Hle|Hlt].
  - set (r1 := _process_audio_chunk env self w
                 (slice arr start (start + _chunk_size self))).
    pose proof (frame_same_settings env self w
                  (slice arr start (start + _chunk_size self))) as Hsame.
    fold r1 in Hsame.
    assert (Hcs1 : _chunk_size (fst r1) = _chunk_size self) by apply Hsame.
    specialize (IH (fst r1) (snd r1) arr (start + _chunk_size self)
                  (remain - _chunk_size self)).
    rewrite Hcs1 in IH.
    destruct IH as (I1 & I2 & I3 & I4 & I5);
      [lia | lia | apply chunk_ready_frame; exact Hready |].
    destruct (div_mod_step Hcs Hle) as [Hdiv Hmod].
    refine (conj _ (conj _ (conj _ (conj _ _)))).
    + rewrite I1. symmetry. exact Hmod.
    + rewrite I2, Hdiv. simpl. lia.
    + exact I3.
    + unfold same_settings in *. intuition congruence.
    + rewrite I5. unfold r1. erewrite frame_vad_frames by eassumption.
      rewrite Hdiv. cbn [seq map]. rewrite <- app_assoc. simpl.
      rewrite Nat.add_0_r. do 2 f_equal.
      rewrite <- seq_shift, map_map. apply map_ext. intros i.
      f_equal; simpl; lia.
  - cbn [fst snd]. rewrite Nat.mod_small, Nat.div_small by lia.
    refine (conj _ (conj _ (conj _ (conj _ _)))).
    + reflexivity.
    + simpl. lia.
    + assumption.
    + unfold same_settings. repeat split.
    + simpl. now rewrite app_nil_r.
Qed.

(** ** Chunks of a stream *)




Lemma length_frames_of cs stream : length (frames_of cs stream) = length stream / cs.
Proof. unfold frames_of. now rewrite length_map, length_seq. Qed.




(** ** [_process_audio]: frames scored and residual kept *)

Lemma same_settings_refl self : same_settings self self.
Proof. unfold same_settings. repeat split. Qed.

Lemma same_settings_trans a b c :
  same_settings a b -> same_settings b c -> same_settings a c.
Proof. unfold same_settings. intuition congruence. Qed.

Lemma process_audio_framing env model self w X :
  _vad_model env = Some model ->
  0 < _chunk_size self -> chunk_inv self ->
  let r := _process_audio env self w X in
  let cs := _chunk_size self in
  let stream := NumPyRingBuffer.get_all (_chunk_buffer self) ++ X in
  vad_frames (trace (snd r)) = vad_frames (trace w) ++ frames_of cs stream
  /\ NumPyRingBuffer.get_all (_chunk_buffer (fst r)) = residual_of cs stream
  /\ chunk_inv (fst r)
  /\ same_settings (fst r) self.
Proof.
  intros Hmodel Hcs (Hwf & Hcount & Hmax). cbv zeta.
  pose proof (RingFacts.length_get_all Hwf) as Hlen.
  unfold _process_audio. rewrite Hmodel.
  destruct (Nat.eqb_spec (length X) 0) as [HX|HX].
  - apply length_zero_iff_nil in HX. subst X. rewrite app_nil_r. cbn [fst snd].
    unfold frames_of, residual_of. rewrite Hlen, Nat.div_small by lia.
    simpl. rewrite app_nil_r.
    split; [reflexivity|]. split; [reflexivity|].
    split; [unfold chunk_inv; auto | apply same_settings_refl].
  - set (cb := _chunk_buffer self) in *.
    set (taken := NumPyRingBuffer.get_bulk cb (NumPyRingBuffer.size cb)).
    set (self1 := if 0 <? NumPyRingBuffer.size cb
                  then set_chunk_buffer (NumPyRingBuffer.clear (snd taken)) self
                  else self).
    set (arr := if 0 <? NumPyRingBuffer.size cb then fst taken ++ X else X).
    assert (Harr : arr = NumPyRingBuffer.get_all cb ++ X).
    { unfold arr, taken. rewrite RingFacts.get_bulk_size.
      destruct (Nat.ltb_spec 0 (NumPyRingBuffer.size cb)) as [Hp|Hz]; [reflexivity|].
      rewrite RingFacts.get_all_empty; [reflexivity|].
      unfold NumPyRingBuffer.size in Hz. lia. }
    assert (Hs1 : same_settings self1 self).
    { unfold self1. destruct (0 <? NumPyRingBuffer.size cb);
        unfold same_settings; repeat split. }
    assert (Hcs1 : _chunk_size self1 = _chunk_size self) by apply Hs1.
    assert (Hready : chunk_ready self1).
    { unfold self1, chunk_ready.
      destruct (Nat.ltb_spec 0 (NumPyRingBuffer.size cb)) as [Hp|Hz]; rsimpl.
      - split; [apply RingFacts.wf_clear, RingFacts.wf_get_bulk; exact Hwf|].
        split; [reflexivity|].
        unfold taken, NumPyRingBuffer.get_bulk, NumPyRingBuffer.clear.
        destruct (NumPyRingBuffer.count cb =? 0); exact Hmax.
      - fold cb. unfold NumPyRingBuffer.size in Hz.
        split; [exact Hwf|]. split; [lia | exact Hmax]. }
    pose proof (@process_frames_spec env model Hmodel (S (length arr)) self1 w arr 0
                  (length arr)) as Hloop.
    rewrite Hcs1 in Hloop. cbv zeta in Hloop.
    destruct Hloop as (L1 & L2 & L3 & L4 & L5); [lia | lia | exact Hready |].
    set (looped := process_frames env (S (length arr)) self1 w arr 0 (length arr)) in *.
    pose proof (Nat.div_mod_eq (length arr) (_chunk_size self)) as Hdm.
    assert (Hframes : vad_frames (trace (snd (fst (fst looped))))
                      = vad_frames (trace w) ++ frames_of (_chunk_size self) arr).
    { rewrite L5. unfold frames_of. reflexivity. }
    destruct L3 as (Lwf & Lcount & Lmax).
    assert (Lcs : _chunk_size (fst (fst (fst looped))) = _chunk_size self).
    { transitivity (_chunk_size self1); [apply L4 | exact Hcs1]. }
    rewrite <- Harr.
    destruct (Nat.ltb_spec 0 (snd looped)) as [Hrem|Hrem]; cbn [fst snd]; rsimpl.
    + assert (Hrest : length (skipn (snd (fst looped)) arr) = snd looped).
      { rewrite length_skipn, L2, L1. simpl. nia. }
      refine (conj Hframes (conj _ (conj _ _))).
      * rewrite RingFacts.get_all_put_bulk by exact Lwf.
        rewrite RingFacts.get_all_empty by exact Lcount. simpl.
        rewrite last_n_all.
        -- unfold residual_of. rewrite L2. reflexivity.
        -- rewrite Hrest, L1, Lmax, Lcs. apply Nat.lt_le_incl, Nat.mod_upper_bound. lia.
      * unfold chunk_inv. rsimpl.
        split; [now apply RingFacts.wf_put_bulk|].
        rewrite RingFacts.count_put_bulk, RingFacts.maxsize_put_bulk by lia.
        rewrite Lcount, Hrest, L1, Lmax, Lcs.
        pose proof (Nat.mod_upper_bound (length arr) (_chunk_size self)). lia.
      * eapply same_settings_trans; [|exact Hs1].
        eapply same_settings_trans; [|exact L4].
        unfold same_settings. repeat split.
    + refine (conj Hframes (conj _ (conj _ _))).
      * rewrite RingFacts.get_all_empty by exact Lcount.
        unfold residual_of. symmetry. apply skipn_all2. rewrite L1 in Hrem. nia.
      * unfold chunk_inv. rewrite Lcount, Lcs.
        split; [exact Lwf|]. split; [exact Hcs|]. now rewrite Lmax.
      * eapply same_settings_trans; [exact L4 | exact Hs1].
Qed.

(** ** Lifting a property of one frame to calls and sessions *)

Section FrameLifting.
Variable env : Env.
Variable P : SpeechRecognizer -> World -> Prop.
Hypothesis P_chunk : forall self w cb, P self w -> P (set_chunk_buffer cb self) w.
Hypothesis P_frame : forall self w f,
  P self w ->
  P (fst (_process_audio_chunk env self w f)) (snd (_process_audio_chunk env self w f)).

Lemma process_frames_lift fuel :
  forall self w arr start remain,
    P self w ->
    P (fst (fst (fst (process_frames env fuel self w arr start remain))))
      (snd (fst (fst (process_frames env fuel self w arr start remain)))).
Proof.
  induction fuel as [|fuel IH]; intros self w arr start remain HP; [exact HP|].
  cbn [process_frames]. cbv zeta.
  destruct (_chunk_size self <=? remain); [|exact HP].
  apply IH, P_frame, HP.
Qed.

Lemma process_audio_lift self w X :
  P self w ->
  P (fst (_process_audio env self w X)) (snd (_process_audio env self w X)).
Proof.
  intros HP. unfold _process_audio.
  destruct (_vad_model env); [|exact HP].
  destruct (length X =? 0); [exact HP|]. cbv zeta.
  match goal with
  | |- context [process_frames env ?fuel ?s ?w0 ?arr ?st ?rem] =>
      pose proof (@process_frames_lift fuel s w0 arr st rem) as Hl;
      set (looped := process_frames env fuel s w0 arr st rem) in *
  end.
  assert (HP1 : P (fst (fst (fst looped))) (snd (fst (fst looped)))).
  { apply Hl. destruct (0 <? NumPyRingBuffer.size (_chunk_buffer self));
      [apply P_chunk|]; exact HP. }
  destruct (0 <? snd looped); cbn [fst snd]; [apply P_chunk|]; exact HP1.
Qed.

Hypothesis P_audio : forall self w X,
  P self w ->
  P (set_audio_buffer (NumPyRingBuffer.put_bulk (_audio_buffer self) X) self) w.

Lemma add_audio_chunk_lift self w audio_data r :
  add_audio_chunk env self w audio_data = inr r -> P self w -> P (fst r) (snd r).
Proof.
  unfold add_audio_chunk. intros H HP.
  destruct (decode_payload audio_data); try discriminate;
    injection H as <-; apply process_audio_lift, P_audio, HP.
Qed.

Lemma receive_loop_lift payloads :
  forall self w r,
    receive_loop env self w payloads = inr r -> P self w -> P (fst r) (snd r).
Proof.
  induction payloads as [|p rest IH]; intros self w r H HP.
  - injection H as <-. exact HP.
  - cbn [receive_loop] in H.
    destruct (add_audio_chunk env self w p) as [e|r1] eqn:Hadd; [discriminate|].
    eapply IH; [exact H|]. eapply add_audio_chunk_lift; eassumption.
Qed.

End FrameLifting.

Section ReachableLifting.
Variable P : SpeechRecognizer -> World -> Prop.
Hypothesis P_init : forall vad_config whisper session_id callback self u,
  __init__ vad_config whisper session_id callback = inr self -> P self (mkWorld [] u).
Hypothesis P_language : forall self w value, P self w -> P (language_setter self value) w.
Hypothesis P_prompt : forall self w value, P self w -> P (prompt_setter self value) w.
Hypothesis P_chunk : forall self w cb, P self w -> P (set_chunk_buffer cb self) w.
Hypothesis P_audio : forall self w X,
  P self w ->
  P (set_audio_buffer (NumPyRingBuffer.put_bulk (_audio_buffer self) X) self) w.
Hypothesis P_frame : forall env self w f,
  P self w ->
  P (fst (_process_audio_chunk env self w f)) (snd (_process_audio_chunk env self w f)).

Lemma reachable_lift self w : Reachable self w -> P self w.
Proof.
  induction 1 as [cfg wh sid cb self u Hinit | self w v _ IH | self w v _ IH
                 | env self w p self1 w1 _ IH Hadd].
  - eapply P_init; eassumption.
  - now apply P_language.
  - now apply P_prompt.
  - change self1 with (fst (self1, w1)). change w1 with (snd (self1, w1)) at 2.
    eapply add_audio_chunk_lift with (env := env); eauto.
Qed.

End ReachableLifting.

(** ** What holds of every session state *)

Lemma init_fields vad_config whisper session_id callback self :
  __init__ vad_config whisper session_id callback = inr self ->
  _speech_id self = None /\ _prompt self = None
  /\ _speech_start_index self = (-1)%Z /\ _silence_counter self = 0%Z
  /\ _callback self = callback /\ _session_id self = session_id
  /\ _sample_rate self = 16000%Z
  /\ 0 < _chunk_size self
  /\ chunk_ready self
  /\ NumPyRingBuffer.wf (_audio_buffer self)
  /\ NumPyRingBuffer.count (_audio_buffer self) = 0.
Proof.
  unfold __init__.
  destruct (Z.eqb_spec (VADConfig.chunk_size vad_config * 1000) 0); [discriminate|].
  destruct (NumPyRingBuffer.init 0%Z (py_int _)) as [ab|] eqn:Hab; [|discriminate].
  destruct (NumPyRingBuffer.init 0%Z (VADConfig.chunk_size vad_config)) as [cb|] eqn:Hcb;
    [|discriminate].
  intros [= <-]. rsimpl.
  apply RingFacts.wf_init in Hab. apply RingFacts.wf_init in Hcb.
  destruct Hab as (Hab1 & Hab2 & _). destruct Hcb as (Hcb1 & Hcb2 & Hcb3).
  assert (0 < Z.to_nat (VADConfig.chunk_size vad_config)).
  { destruct Hcb1 as (Hpos & _). lia. }
  unfold chunk_ready. rsimpl. repeat split; auto; apply Hab1 || apply Hcb1.
Qed.

Lemma setters_chunk_inv self :
  (forall v, _chunk_buffer (language_setter self v) = _chunk_buffer self
             /\ _chunk_size (language_setter self v) = _chunk_size self)
  /\ (forall v, _chunk_buffer (prompt_setter self v) = _chunk_buffer self
                /\ _chunk_size (prompt_setter self v) = _chunk_size self).
Proof.
  split; intros v.
  - unfold language_setter. destruct (_whisper_processor self); auto.
  - unfold prompt_setter. destruct (is_empty_str v); auto.
    destruct (negb (isinstance_str v)); auto.
Qed.

Lemma add_audio_chunk_chunk_inv env self w audio_data r :
  add_audio_chunk env self w audio_data = inr r ->
  0 < _chunk_size self -> chunk_inv self ->
  chunk_inv (fst r) /\ _chunk_size (fst r) = _chunk_size self.
Proof.
  unfold add_audio_chunk. intros H Hcs Hinv.
  assert (Hgen : forall X,
             chunk_inv (fst (_process_audio env
                          (set_audio_buffer
                             (NumPyRingBuffer.put_bulk (_audio_buffer self) X) self) w X))
             /\ _chunk_size (fst (_process_audio env
                          (set_audio_buffer
                             (NumPyRingBuffer.put_bulk (_audio_buffer self) X) self) w X))
                = _chunk_size self).
  { intros X. destruct (_vad_model env) as [model|] eqn:Hm.
    - destruct (@process_audio_framing env model
                  (set_audio_buffer (NumPyRingBuffer.put_bulk (_audio_buffer self) X) self)
                  w X Hm Hcs Hinv) as (_ & _ & Hi & Hs).
      split; [exact Hi | apply Hs].
    - unfold _process_audio. rewrite Hm. cbn [fst]. split; [exact Hinv | reflexivity]. }
  destruct (decode_payload audio_data); try discriminate; injection H as <-; apply Hgen.
Qed.

Lemma reachable_chunk_inv self w :
  Reachable self w -> 0 < _chunk_size self /\ chunk_inv self.
Proof.
  induction 1 as [cfg wh sid cb self u Hinit | self w v _ IH | self w v _ IH
                 | env self w p self1 w1 _ IH Hadd].
  - apply init_fields in Hinit.
    destruct Hinit as (_ & _ & _ & _ & _ & _ & _ & Hcs & (Hwf & Hc & Hm) & _).
    split; [exact Hcs|]. unfold chunk_inv. rewrite Hc. auto.
  - destruct (setters_chunk_inv self) as [Hl _]. destruct (Hl v) as [E1 E2].
    unfold chunk_inv. rewrite E1, E2. exact IH.
  - destruct (setters_chunk_inv self) as [_ Hp]. destruct (Hp v) as [E1 E2].
    unfold chunk_inv. rewrite E1, E2. exact IH.
  - destruct IH as [Hcs Hinv].
    destruct (@add_audio_chunk_chunk_inv env self w p (self1, w1) Hadd Hcs Hinv) as [Hi Hs].
    cbn [fst] in *. rewrite Hs. auto.
Qed.



(** ** C1: framing *)



(** ** C3: no forced end of an utterance *)

(** C3, amended: while IN_SPEECH, a frame on which the scorer reports
    speech never ends the utterance, whatever the audio ring holds: the frame
    only resets the silence counter, with no SpeechEnd and no dispatch.  The
    end transition is taken on silence only. *)
Theorem speech_frame_keeps_utterance_open env model self w f p :
  _vad_model env = Some model ->
  model (vad_frames (trace w)) f = Prob p ->
  Qgt_bool p (vad_threshold env) = true ->
  (0 <= _speech_start_index self)%Z ->
  _process_audio_chunk env self w f
  = (set_silence_counter 0 self, emit (VadCall f (_sample_rate self)) w).
Proof.
  intros Hmodel Hout Hsp Hidx.
  unfold _process_audio_chunk. rewrite Hmodel. cbv zeta. rewrite Hout, Hsp.
  destruct (Z.ltb_spec (_speech_start_index self) 0); [lia | reflexivity].
Qed.

(** ** C4: silence while IDLE *)

Lemma idle_silent_frame env model self w f p :
  _vad_model env = Some model ->
  model (vad_frames (trace w)) f = Prob p ->
  Qgt_bool p (vad_threshold env) = false ->
  (_speech_start_index self < 0)%Z ->
  _process_audio_chunk env self w f = (self, emit (VadCall f (_sample_rate self)) w).
Proof.
  intros Hmodel Hout Hsp Hidx.
  unfold _process_audio_chunk. rewrite Hmodel. cbv zeta. rewrite Hout, Hsp.
  destruct (Z.leb_spec 0 (_speech_start_index self)); [lia | reflexivity].
Qed.

Lemma session_events_app tr1 tr2 :
  session_events (tr1 ++ tr2) = session_events tr1 ++ session_events tr2.
Proof. apply filter_app. Qed.

(** C4, amended: a frame processed while IDLE with a probability at or
    below the threshold leaves the session as it is; the audio ring is not
    trimmed.  For an input of pure silence no event and no recognition call
    occurs, the session stays IDLE, and the audio ring keeps every sample
    received up to its capacity: its size is
    [min(capacity, size before + samples received)]. *)
Theorem idle_silence_keeps_audio env model self w payloads r :
  _vad_model env = Some model ->
  (forall h f, exists p, model h f = Prob p /\ Qgt_bool p (vad_threshold env) = false) ->
  (_speech_start_index self < 0)%Z ->
  NumPyRingBuffer.size (_audio_buffer self) <= NumPyRingBuffer.capacity (_audio_buffer self) ->
  receive_loop env self w payloads = inr r ->
  (forall f, _process_audio_chunk env self w f
             = (self, emit (VadCall f (_sample_rate self)) w))
  /\ session_events (trace (snd r)) = session_events (trace w)
  /\ (_speech_start_index (fst r) < 0)%Z
  /\ NumPyRingBuffer.size (_audio_buffer (fst r))
     = Nat.min (NumPyRingBuffer.capacity (_audio_buffer self))
         (NumPyRingBuffer.size (_audio_buffer self)
          + length (concat (map samples_of payloads))).
Proof.
  intros Hmodel Hsilent Hidx Hsize Hrun.
  split.
  { intros f. destruct (Hsilent (vad_frames (trace w)) f) as (p & Hp & Hq).
    eapply idle_silent_frame; eassumption. }
  revert self w r Hidx Hsize Hrun.
  induction payloads as [|pl rest IH]; intros self w r Hidx Hsize Hrun.
  - injection Hrun as <-. simpl. rewrite Nat.add_0_r.
    unfold NumPyRingBuffer.size, NumPyRingBuffer.capacity in *.
    repeat split; auto; lia.
  - cbn [receive_loop] in Hrun.
    destruct (add_audio_chunk env self w pl) as [e|r1] eqn:Hadd; [discriminate|].
    set (ab1 := NumPyRingBuffer.put_bulk (_audio_buffer self) (samples_of pl)).
    assert (Hstep : (_speech_start_index (fst r1) < 0)%Z
                    /\ _audio_buffer (fst r1) = ab1
                    /\ session_events (trace (snd r1)) = session_events (trace w)).
    { assert (Hr1 : r1 = _process_audio env (set_audio_buffer ab1 self) w (samples_of pl)).
      { unfold add_audio_chunk, samples_of in *. unfold ab1, samples_of.
        destruct (decode_payload pl); try discriminate; congruence. }
      rewrite Hr1.
      apply (@process_audio_lift env
               (fun s w' => (_speech_start_index s < 0)%Z /\ _audio_buffer s = ab1
                            /\ session_events (trace w') = session_events (trace w))).
      - intros s w' cb H. exact H.
      - intros s w' f (H1 & H2 & H3).
        destruct (Hsilent (vad_frames (trace w')) f) as (p & Hp & Hq).
        erewrite idle_silent_frame by eassumption. cbn [fst snd emit trace].
        rewrite session_events_app, H3. simpl. rewrite app_nil_r. auto.
      - rsimpl. auto. }
    destruct Hstep as (S1 & S2 & S3).
    assert (Hcount : NumPyRingBuffer.size ab1
                     = Nat.min (NumPyRingBuffer.capacity (_audio_buffer self))
                         (NumPyRingBuffer.size (_audio_buffer self)
                          + length (samples_of pl))).
    { unfold ab1, NumPyRingBuffer.size, NumPyRingBuffer.capacity in *.
      now apply RingFacts.count_put_bulk. }
    assert (Hcap : NumPyRingBuffer.capacity ab1
                   = NumPyRingBuffer.capacity (_audio_buffer self)).
    { unfold ab1, NumPyRingBuffer.capacity. apply RingFacts.maxsize_put_bulk. }
    destruct (IH (fst r1) (snd r1) r S1) as (I1 & I2 & I3).
    + rewrite S2, Hcount, Hcap. lia.
    + exact Hrun.
    + rewrite I1, S3. split; [reflexivity|]. split; [exact I2|].
      rewrite I3, S2, Hcount, Hcap. cbn [map concat]. rewrite length_app. lia.
Qed.

(** ** C9: a scorer that raises *)

(** C9, amended: when scoring a frame raises, the error is caught and
    logged and never reaches the caller, and the frame is skipped: the
    session, silence counter included, is exactly as before the frame. *)
Theorem vad_error_skips_frame env model self w f :
  _vad_model env = Some model ->
  model (vad_frames (trace w)) f = VadRaises ->
  _process_audio_chunk env self w f
  = (self, emit (LogError VadException) (emit (VadCall f (_sample_rate self)) w)).
Proof.
  intros Hmodel Hout. unfold _process_audio_chunk. rewrite Hmodel. cbv zeta.
  rewrite Hout. reflexivity.
Qed.

(** ** C5: order of the events of a session *)






(** ** C10: a callback that is a plain function *)

Lemma trigger_notifications env self w U :
  notifications (trace (_trigger_recognition env self w U)) = notifications (trace w).
Proof.
  destruct (trigger_trace env self w U) as (effs & -> & [->|(U' & _ & [->| ->])]);
    rewrite notifications_app; simpl; apply app_nil_r.
Qed.

(** What holds between frames in a session with a plain callback: nothing
    was notified, and an open utterance has its speech id. *)
Lemma frame_plain env self w f :
  _callback self = PlainFunction ->
  notifications (trace w) = []
  /\ ((0 <= _speech_start_index self)%Z -> exists s, _speech_id self = Some s) ->
  notifications (trace (snd (_process_audio_chunk env self w f))) = []
  /\ ((0 <= _speech_start_index (fst (_process_audio_chunk env self w f)))%Z ->
      exists s, _speech_id (fst (_process_audio_chunk env self w f)) = Some s).
Proof.
  intros Hcb [Hn Hid].
  frame_cases; try congruence;
    rewrite ?notifications_app, ?trigger_notifications; cbn [trace emit];
    rewrite ?notifications_app, ?Hn; simpl; split; auto; try lia; eauto.
Qed.

Lemma reachable_plain self w :
  Reachable self w -> _callback self = PlainFunction ->
  notifications (trace w) = []
  /\ ((0 <= _speech_start_index self)%Z -> exists s, _speech_id self = Some s).
Proof.
  revert self w.
  apply (@reachable_lift
           (fun self w =>
              _callback self = PlainFunction ->
              notifications (trace w) = []
              /\ ((0 <= _speech_start_index self)%Z -> exists s, _speech_id self = Some s))).
  - intros cfg wh sid cb self u Hinit _. apply init_fields in Hinit.
    destruct Hinit as (_ & _ & H3 & _). rewrite H3. split; [reflexivity | lia].
  - intros self w v IH Hcb. unfold language_setter in *.
    destruct (_whisper_processor self); exact (IH Hcb).
  - intros self w v IH Hcb. unfold prompt_setter in *.
    destruct (is_empty_str v); [exact (IH Hcb)|].
    destruct (negb (isinstance_str v)); exact (IH Hcb).
  - intros self w cb IH Hcb. exact (IH Hcb).
  - intros self w X IH Hcb. exact (IH Hcb).
  - intros env self w f IH Hcb.
    assert (Hcb0 : _callback self = PlainFunction).
    { rewrite <- Hcb. symmetry. apply frame_same_settings. }
    apply frame_plain; auto.
Qed.

(** C10: when the callback is a plain function, every [_notify] call raises
    [AttributeError], so no SpeechStart and no SpeechEnd is ever delivered;
    on the speech-end path the exception is caught by the handler of
    [_process_audio_chunk] and logged, and the speech id stays set. *)
Theorem plain_callback_never_notified self w :
  Reachable self w ->
  _callback self = PlainFunction ->
  (forall w0 st, _notify self w0 st = inl AttributeError)
  /\ notifications (trace w) = []
  /\ (forall env f,
        (0 <= _speech_start_index self)%Z ->
        (_speech_start_index (fst (_process_audio_chunk env self w f)) < 0)%Z ->
        exists s tr,
          _speech_id self = Some s
          /\ _speech_id (fst (_process_audio_chunk env self w f)) = Some s
          /\ trace (snd (_process_audio_chunk env self w f))
             = tr ++ [LogError AttributeError]).
Proof.
  intros Hreach Hcb.
  destruct (reachable_plain Hreach Hcb) as [Hn Hid].
  split; [intros w0 st; unfold _notify; now rewrite Hcb|].
  split; [exact Hn|].
  intros env f Hidx. destruct (Hid Hidx) as [s Hs].
  frame_cases; try congruence; try lia; intros _.
  exists s. eexists. rewrite Hs. repeat split; reflexivity.
Qed.

(** ** C8: the prompt setter *)

(** [prompt.setter] called with a string, empty or not, assigns nothing:
    the session is unchanged. *)
Lemma prompt_setter_ignores_strings self s :
  prompt_setter self (PyStr s) = self.
Proof.
  unfold prompt_setter. destruct (is_empty_str (PyStr s)); reflexivity.
Qed.

Lemma trigger_prompt env self w U :
  _prompt self = None ->
  Forall prompt_absent (trace w) ->
  Forall prompt_absent (trace (_trigger_recognition env self w U)).
Proof.
  intros Hp Hw.
  destruct (trigger_trace env self w U) as (effs & -> & [->|(U' & _ & [->| ->])]);
    apply Forall_app; split; auto; repeat constructor; exact Hp.
Qed.

(** In every session the stored prompt is absent, and so is the prompt of
    every recognition call. *)
Lemma reachable_prompt_absent self w :
  Reachable self w -> _prompt self = None /\ Forall prompt_absent (trace w).
Proof.
  revert self w.
  apply (@reachable_lift
           (fun self w => _prompt self = None /\ Forall prompt_absent (trace w))).
  - intros cfg wh sid cb self u Hinit. apply init_fields in Hinit.
    destruct Hinit as (_ & H2 & _). split; [exact H2 | constructor].
  - intros self w v IH. unfold language_setter.
    destruct (_whisper_processor self); exact IH.
  - intros self w v IH. unfold prompt_setter.
    destruct (is_empty_str v); [exact IH|].
    destruct (negb (isinstance_str v)); [|exact IH].
    split; [reflexivity | apply IH].
  - intros self w cb IH. exact IH.
  - intros self w X IH. exact IH.
  - intros env self w f [Hp Hw]. split.
    + rewrite <- Hp. apply frame_same_settings.
    + frame_cases;
        repeat first
          [ apply Forall_app; split; [|repeat constructor]
          | apply trigger_prompt; [exact Hp|]; cbn [trace emit] ];
        auto.
Qed.

(** ** C6: short utterances and the length of dispatched ones *)

Lemma py_int_le q :
  ((0 <= q)%Q -> (inject_Z (py_int q) <= q)%Q /\ (0 <= py_int q)%Z)
  /\ ((q < 0)%Q -> (py_int q <= 0)%Z).
Proof.
  destruct q as [n d]. unfold py_int, Qle, Qlt. simpl. split; intros H.
  - assert (0 <= n)%Z by lia. split.
    + pose proof (Z.mul_quot_le n (Z.pos d)). lia.
    + apply Z.quot_pos; lia.
  - assert (Hn : (n = - (- n))%Z) by lia. rewrite Hn.
    rewrite Z.quot_opp_l by lia.
    pose proof (Z.quot_pos (- n) (Z.pos d)). lia.
Qed.



Lemma Qgt_bool_true a b : Qgt_bool a b = true -> (b < a)%Q.
Proof.
  unfold Qgt_bool. intros H. apply negb_true_iff in H.
  apply Qnot_le_lt. intros Hle. apply Qle_bool_iff in Hle. congruence.
Qed.










(** ** C7: decoding a payload *)

Lemma list_ind2 (A : Type) (P : list A -> Prop) :
  P [] -> (forall a, P [a]) -> (forall a b l, P l -> P (a :: b :: l)) ->
  forall l, P l.
Proof.
  intros H0 H1 H2. fix IH 1.
  intros [|a [|b l]]; [exact H0 | exact (H1 a) | exact (H2 a b l (IH l))].
Qed.

Lemma list_ind4 (A : Type) (P : list A -> Prop) :
  P [] -> (forall a, P [a]) -> (forall a b, P [a; b]) -> (forall a b c, P [a; b; c]) ->
  (forall a b c d l, P l -> P (a :: b :: c :: d :: l)) ->
  forall l, P l.
Proof.
  intros H0 H1 H2 H3 H4. fix IH 1.
  intros [|a [|b [|c [|d l]]]];
    [exact H0 | exact (H1 a) | exact (H2 a b) | exact (H3 a b c)
    | exact (H4 a b c d l (IH l))].
Qed.

Lemma frombuffer_float32_defined data :
  (length data mod 4 = 0 -> exists xs, frombuffer_float32 data = Some xs)
  /\ (length data mod 4 <> 0 -> frombuffer_float32 data = None).
Proof.
  induction data as [|a|a b|a b c|a b c d l IH] using list_ind4;
    try (split; [intros H; discriminate H | reflexivity]).
  - split; [eexists; reflexivity | intros H; now elim H].
  - assert (E : length (a :: b :: c :: d :: l) mod 4 = length l mod 4).
    { change (length (a :: b :: c :: d :: l)) with (4 + length l).
      replace (4 + length l) with (length l + 1 * 4) by lia.
      apply Nat.Div0.mod_add. }
    rewrite E. cbn [frombuffer_float32]. destruct IH as [I1 I2]. split; intros H.
    + destruct (I1 H) as [xs ->]. eexists. reflexivity.
    + now rewrite (I2 H).
Qed.

Lemma Z_of_byte_range b : (0 <= Z_of_byte b <= 255)%Z.
Proof.
  unfold Z_of_byte. pose proof (Byte.to_N_bounded b). lia.
Qed.

Lemma frombuffer_int16_defined data :
  (length data mod 2 = 0 ->
   exists ints, frombuffer_int16 data = Some ints
                /\ Forall (fun i => (-32768 <= i <= 32767)%Z) ints)
  /\ (length data mod 2 <> 0 -> frombuffer_int16 data = None).
Proof.
  induction data as [|a|a b l IH] using list_ind2.
  - split; [exists []; split; [reflexivity | constructor] | intros H; now elim H].
  - split; [intros H; discriminate H | reflexivity].
  - assert (E : length (a :: b :: l) mod 2 = length l mod 2).
    { change (length (a :: b :: l)) with (2 + length l).
      replace (2 + length l) with (length l + 1 * 2) by lia.
      apply Nat.Div0.mod_add. }
    rewrite E. cbn [frombuffer_int16]. destruct IH as [I1 I2]. split; intros H.
    + destruct (I1 H) as (ints & -> & Hr). eexists. split; [reflexivity|].
      constructor; [|exact Hr].
      pose proof (Z_of_byte_range a). pose proof (Z_of_byte_range b).
      cbv zeta. change (2 ^ 8)%Z with 256%Z. change (2 ^ 15)%Z with 32768%Z.
      change (2 ^ 16)%Z with 65536%Z.
      destruct (Z.ltb_spec (Z_of_byte a + 256 * Z_of_byte b) 32768); lia.
    + now rewrite (I2 H).
Qed.

Lemma int16_samples_ok_from_spec n :
  forall i j,
    int16_samples_ok_from n i = true ->
    (i <= j < i + Z.of_nat n)%Z -> int16_sample_ok j = true.
Proof.
  induction n as [|n IH]; intros i j H Hj; [lia|].
  cbn [int16_samples_ok_from] in H.
  destruct (int16_sample_ok i) eqn:Hi; [|discriminate].
  destruct (Z.eq_dec i j) as [<-|Hne]; [exact Hi|].
  apply (IH (i + 1)%Z); [exact H | lia].
Qed.

Lemma int16_samples_checked :
  int16_samples_ok_from (Z.to_nat 65536) (-32768)%Z = true.
Proof. vm_cast_no_check (eq_refl true). Qed.

Lemma int16_sample_exact i :
  (-32768 <= i <= 32767)%Z ->
  exists q, f32_decode (div_32768 (astype_float32 i)) = F32_finite q
            /\ (q == i # 32768)%Q /\ (-1 <= q)%Q /\ (q <= 1)%Q.
Proof.
  intros H.
  assert (Hall : int16_sample_ok i = true).
  { eapply int16_samples_ok_from_spec; [exact int16_samples_checked | lia]. }
  unfold int16_sample_ok in Hall.
  destruct (f32_decode (div_32768 (astype_float32 i))) as [| |q]; try discriminate.
  apply andb_true_iff in Hall. destruct Hall as [Hall H3].
  apply andb_true_iff in Hall. destruct Hall as [H1 H2].
  exists q. split; [reflexivity|].
  split; [now apply Qeq_bool_iff|]. split; now apply Qle_bool_iff.
Qed.

Lemma f32_abs_fields x :
  f32_sign (f32_abs x) = false
  /\ f32_exponent (f32_abs x) = f32_exponent x
  /\ f32_mantissa (f32_abs x) = f32_mantissa x.
Proof.
  unfold f32_sign, f32_exponent, f32_mantissa, f32_abs. repeat split.
  - rewrite Z.land_spec. change (Z.testbit (2 ^ 31 - 1) 31) with false.
    apply andb_false_r.
  - rewrite Z.shiftr_land, <- Z.land_assoc. reflexivity.
  - rewrite <- Z.land_assoc. reflexivity.
Qed.

Lemma f32_magnitude_nonneg m k : (0 <= m)%Z -> (0 <= inject_Z m * Qpower 2 k)%Q.
Proof.
  intros H. apply Qmult_le_0_compat.
  - unfold Qle. simpl. lia.
  - apply Qpower_0_le. unfold Qle. simpl. lia.
Qed.

(** The test of the source, on bit patterns, against the value each pattern
    denotes: [np.abs(x) <= c] holds exactly when [x] is finite with
    [|x| <= c]. *)
Lemma f32_abs_le_const_iff x c :
  f32_le_const (f32_abs x) c = true
  <-> exists q, f32_decode x = F32_finite q /\ (Qabs q <= c)%Q.
Proof.
  destruct (f32_abs_fields x) as (Hs & He & Hm).
  unfold f32_le_const, f32_decode. rewrite Hs, He, Hm.
  destruct (f32_exponent x =? 255)%Z.
  - destruct (f32_mantissa x =? 0)%Z;
      (split; [discriminate | intros (q & Hq & _); discriminate]).
  - assert (Hm0 : (0 <= f32_mantissa x)%Z).
    { unfold f32_mantissa. apply Z.land_nonneg. right. vm_compute. discriminate. }
    set (mag := if (f32_exponent x =? 0)%Z
                then (inject_Z (f32_mantissa x) * Qpower 2 (-149))%Q
                else (inject_Z (2 ^ 23 + f32_mantissa x) * Qpower 2 (f32_exponent x - 150))%Q).
    assert (Hmag : (0 <= mag)%Q).
    { unfold mag. destruct (f32_exponent x =? 0)%Z; apply f32_magnitude_nonneg; lia. }
    rewrite Qle_bool_iff. split.
    + intros H. eexists. split; [reflexivity|].
      destruct (f32_sign x).
      * rewrite Qabs_opp, Qabs_pos; assumption.
      * rewrite Qabs_pos; assumption.
    + intros (q & [= <-] & H).
      destruct (f32_sign x).
      * rewrite Qabs_opp, Qabs_pos in H; assumption.
      * rewrite Qabs_pos in H; assumption.
Qed.

(** C7, amended: a payload is decoded as float32 little-endian exactly
    when its length is a multiple of 4 and every value is finite with
    magnitude at most 1.5; any other payload of even length is decoded as
    signed 16-bit little-endian, each sample [i] becoming exactly [i / 32768],
    in [-1, 1]; a payload of odd length is not decoded: [add_audio_chunk]
    raises [ValueError] and the session is untouched.  The decoded samples are
    appended to the audio ring and handed to the framing of
    [_process_audio]. *)
Theorem payload_decoding audio_data :
  (forall xs,
      decode_payload audio_data = AsFloat32 xs
      <-> length audio_data mod 4 = 0
          /\ frombuffer_float32 audio_data = Some xs
          /\ Forall (fun x => exists q, f32_decode x = F32_finite q
                                        /\ (Qabs q <= 3 # 2)%Q) xs)
  /\ (length audio_data mod 4 = 0 -> exists xs, frombuffer_float32 audio_data = Some xs)
  /\ (forall xs,
        decode_payload audio_data = AsInt16 xs ->
        length audio_data mod 2 = 0
        /\ exists ints,
             frombuffer_int16 audio_data = Some ints
             /\ xs = map (fun i => div_32768 (astype_float32 i)) ints
             /\ Forall (fun i =>
                          (-32768 <= i <= 32767)%Z
                          /\ exists q,
                               f32_decode (div_32768 (astype_float32 i)) = F32_finite q
                               /\ (q == i # 32768)%Q /\ (-1 <= q)%Q /\ (q <= 1)%Q) ints)
  /\ (length audio_data mod 2 = 0 -> decode_payload audio_data <> Undecodable)
  /\ (length audio_data mod 2 <> 0 ->
      decode_payload audio_data = Undecodable
      /\ forall env self w, add_audio_chunk env self w audio_data = inl ValueError)
  /\ (forall env self w xs,
        decode_payload audio_data = AsFloat32 xs \/ decode_payload audio_data = AsInt16 xs ->
        add_audio_chunk env self w audio_data
        = inr (_process_audio env
                 (set_audio_buffer (NumPyRingBuffer.put_bulk (_audio_buffer self) xs) self)
                 w xs)).
Proof.
  destruct (frombuffer_float32_defined audio_data) as [F1 F2].
  destruct (frombuffer_int16_defined audio_data) as [I1 I2].
  assert (Hall : forall xs,
             forallb (fun x => f32_le_const (f32_abs x) (3 # 2)) xs = true
             <-> Forall (fun x => exists q, f32_decode x = F32_finite q
                                            /\ (Qabs q <= 3 # 2)%Q) xs).
  { intros xs. rewrite forallb_forall, Forall_forall.
    split; intros H x Hx; apply f32_abs_le_const_iff; auto. }
  assert (Hpar : length audio_data mod 4 = 0 -> length audio_data mod 2 = 0).
  { intros H. pose proof (Nat.div_mod_eq (length audio_data) 4).
    pose proof (Nat.div_mod_eq (length audio_data) 2).
    pose proof (Nat.mod_upper_bound (length audio_data) 2). lia. }
  refine (conj _ (conj F1 (conj _ (conj _ (conj _ _))))).
  - intros xs. unfold decode_payload.
    destruct (Nat.eqb_spec (length audio_data mod 4) 0) as [E|E].
    + destruct (F1 E) as [ys Hys]. rewrite Hys.
      destruct (forallb _ ys) eqn:Hb.
      * split.
        -- intros [= <-]. repeat split; auto. now apply Hall.
        -- intros (_ & [= <-] & _). reflexivity.
      * split.
        -- destruct (frombuffer_int16 audio_data); discriminate.
        -- intros (_ & [= <-] & Hf). apply Hall in Hf. congruence.
    + split.
      * destruct (frombuffer_int16 audio_data); discriminate.
      * intros (H & _). contradiction.
  - intros xs H.
    destruct (Nat.eq_dec (length audio_data mod 2) 0) as [E|E].
    + split; [exact E|]. destruct (I1 E) as (ints & Hi & Hr).
      exists ints. split; [exact Hi|].
      unfold decode_payload in H. rewrite Hi in H.
      split.
      * destruct (if length audio_data mod 4 =? 0 then _ else _); congruence.
      * eapply Forall_impl; [|exact Hr]. intros i Hrange.
        split; [exact Hrange | now apply int16_sample_exact].
    + exfalso. unfold decode_payload in H. rewrite (I2 E) in H.
      destruct (if length audio_data mod 4 =? 0 then _ else _); discriminate.
  - intros E. destruct (I1 E) as (ints & Hi & _). unfold decode_payload. rewrite Hi.
    destruct (if length audio_data mod 4 =? 0 then _ else _); discriminate.
  - intros E.
    assert (Hd : decode_payload audio_data = Undecodable).
    { unfold decode_payload. rewrite (I2 E).
      destruct (Nat.eqb_spec (length audio_data mod 4) 0) as [E4|E4]; [|reflexivity].
      elim E. now apply Hpar. }
    split; [exact Hd|]. intros env self w. unfold add_audio_chunk. now rewrite Hd.
  - intros env self w xs [H|H]; unfold add_audio_chunk; rewrite H; reflexivity.
Qed.

(** ** The example sessions *)

Lemma receive_loop_reachable env payloads :
  forall self w r,
    Reachable self w -> receive_loop env self w payloads = inr r ->
    Reachable (fst r) (snd r).
Proof.
  induction payloads as [|p rest IH]; intros self w r Hreach H.
  - injection H as <-. exact Hreach.
  - cbn [receive_loop] in H.
    destruct (add_audio_chunk env self w p) as [e|[self1 w1]] eqn:Hadd; [discriminate|].
    eapply IH; [|exact H]. cbn [fst snd]. eapply Reach_audio; eassumption.
Qed.

Lemma coroutine_session_reachable : Reachable coroutine_session world0.
Proof.
  apply Reach_init with (vad_config := short_max_config)
                        (whisper := Some (mkWhisper None))
                        (session_id := 7%Z) (callback := CoroutineFunction).
  vm_compute. reflexivity.
Qed.

Lemma plain_session_reachable : Reachable plain_session world0.
Proof.
  apply Reach_init with (vad_config := short_max_config)
                        (whisper := Some (mkWhisper None))
                        (session_id := 7%Z) (callback := PlainFunction).
  vm_compute. reflexivity.
Qed.

Lemma after_one_utterance_reachable :
  Reachable (fst after_one_utterance) (snd after_one_utterance).
Proof.
  apply receive_loop_reachable
    with (env := env_of (speech_on 0 1)) (payloads := [zeros (16 * 512)])
         (self := coroutine_session) (w := world0).
  - exact coroutine_session_reachable.
  - vm_compute. reflexivity.
Qed.

Lemma plain_before_last_silent_frame_reachable :
  Reachable (fst plain_before_last_silent_frame) (snd plain_before_last_silent_frame).
Proof.
  apply receive_loop_reachable
    with (env := env_of (speech_on 0 1)) (payloads := repeat (zeros 512) 15)
         (self := plain_session) (w := world0).
  - exact plain_session_reachable.
  - vm_compute. reflexivity.
Qed.

(** ** Witnesses and counterexamples *)


(** C3 amended, at the session after eight frames of speech. *)
Lemma speech_frame_keeps_utterance_open_witness :
  _process_audio_chunk (env_of (speech_on 0 9))
    (fst after_continuous_speech) (snd after_continuous_speech) zero_frame
  = (set_silence_counter 0 (fst after_continuous_speech),
     emit (VadCall zero_frame (_sample_rate (fst after_continuous_speech)))
       (snd after_continuous_speech)).
Proof.
  apply (@speech_frame_keeps_utterance_open (env_of (speech_on 0 9)) (speech_on 0 9)
           (fst after_continuous_speech) (snd after_continuous_speech) zero_frame (9 # 10)).
  - reflexivity.
  - vm_compute. reflexivity.
  - reflexivity.
  - vm_compute. discriminate.
Defined.

(** C3 as stated fails: after eight frames of continuous speech the session
    is IN_SPEECH and the audio ring holds 4096 samples, more than the 1600 of
    [max_speech_s * sample_rate], yet no SpeechEnd was notified and nothing
    dispatched, and one more frame of speech changes none of this. *)
Lemma continuous_speech_past_max_not_ended :
  _speech_start_index (fst after_continuous_speech) = 0%Z
  /\ (max_length (fst after_continuous_speech) == 1600)%Q
  /\ NumPyRingBuffer.size (_audio_buffer (fst after_continuous_speech)) = 4096
  /\ session_events (trace (snd after_continuous_speech))
     = [CallbackTask SPEECH_START 7 (Some 0) 512]
  /\ session_events
       (trace (snd (_process_audio_chunk (env_of (speech_on 0 9))
                      (fst after_continuous_speech) (snd after_continuous_speech)
                      zero_frame)))
     = [CallbackTask SPEECH_START 7 (Some 0) 512]
  /\ _speech_start_index
       (fst (_process_audio_chunk (env_of (speech_on 0 9))
               (fst after_continuous_speech) (snd after_continuous_speech) zero_frame))
     = 0%Z.
Proof.
  repeat split; vm_compute; reflexivity.
Qed.

(** C4 amended, at twelve payloads of silence. *)
Lemma idle_silence_keeps_audio_witness :
  session_events (trace (snd after_silence)) = session_events (trace world0)
  /\ (_speech_start_index (fst after_silence) < 0)%Z
  /\ NumPyRingBuffer.size (_audio_buffer (fst after_silence))
     = Nat.min (NumPyRingBuffer.capacity (_audio_buffer coroutine_session))
         (NumPyRingBuffer.size (_audio_buffer coroutine_session)
          + length (concat (map samples_of (repeat (zeros 512) 12)))).
Proof.
  apply (@idle_silence_keeps_audio (env_of (speech_on 0 0)) (speech_on 0 0)
           coroutine_session world0 (repeat (zeros 512) 12) after_silence).
  - reflexivity.
  - intros h f. exists 0%Q. split; [|reflexivity].
    unfold speech_on. simpl. reflexivity.
  - vm_compute. reflexivity.
  - vm_compute. lia.
  - vm_compute. reflexivity.
Defined.

(** C4 as stated fails: after twelve frames of pure silence the session is
    IDLE with no event and no dispatch, and the audio ring holds all 6144
    samples, more than [prefix_pad_samples + chunk_size = 4800 + 512]. *)
Lemma silence_fills_ring_beyond_prefix_pad :
  _speech_start_index (fst after_silence) = (-1)%Z
  /\ session_events (trace (snd after_silence)) = []
  /\ NumPyRingBuffer.size (_audio_buffer (fst after_silence)) = 12 * 512
  /\ py_int (inject_Z (_sample_rate (fst after_silence))
             * _prefix_speech_pad_s (fst after_silence))%Q = 4800%Z
  /\ _chunk_size (fst after_silence) = 512
  /\ 4800 + 512 < NumPyRingBuffer.size (_audio_buffer (fst after_silence)).
Proof.
  repeat split; vm_compute; try reflexivity. lia.
Qed.




(** C7 as stated fails: a payload of three bytes is decoded neither way;
    [np.frombuffer(..., dtype=np.int16)] raises [ValueError]. *)
Lemma odd_length_payload_raises :
  decode_payload [x00; x01; x02] = Undecodable
  /\ add_audio_chunk (env_of (speech_on 0 1)) coroutine_session world0 [x00; x01; x02]
     = inl ValueError.
Proof.
  split; vm_compute; reflexivity.
Qed.

(** C8 on the code: after the handshake hands the prompt "hello" to
    [prompt.setter], the stored prompt is still absent, and the recognition
    call of the next utterance receives no prompt. *)
Theorem prompt_hello_is_dropped :
  _prompt (prompt_setter coroutine_session (PyStr "hello")) = None
  /\ prompts_of (trace (snd after_one_utterance_with_prompt)) = [None].
Proof.
  split; vm_compute; reflexivity.
Qed.

(** C9 amended, at the session one silent frame short of the end of its
    utterance. *)
Lemma vad_error_skips_frame_witness :
  _process_audio_chunk (env_of always_raises)
    (fst before_last_silent_frame) (snd before_last_silent_frame) zero_frame
  = (fst before_last_silent_frame,
     emit (LogError VadException)
       (emit (VadCall zero_frame (_sample_rate (fst before_last_silent_frame)))
          (snd before_last_silent_frame))).
Proof.
  apply (@vad_error_skips_frame (env_of always_raises) always_raises).
  - reflexivity.
  - reflexivity.
Defined.

(** C9 as stated fails: with 14 of the 15 silent frames counted, a frame at
    or below the threshold ends the utterance and notifies SpeechEnd, while a
    frame whose scoring raises leaves the session IN_SPEECH with the counter
    still at 14 and notifies nothing. *)
Lemma failing_frame_is_not_counted_as_silence :
  _speech_start_index (fst before_last_silent_frame) = 0%Z
  /\ _silence_counter (fst before_last_silent_frame) = 14%Z
  /\ _silence_duration_frames (fst before_last_silent_frame) = 15%Z
  /\ _speech_start_index
       (fst (_process_audio_chunk (env_of (speech_on 0 1))
               (fst before_last_silent_frame) (snd before_last_silent_frame) zero_frame))
     = (-1)%Z
  /\ notifications
       (trace (snd (_process_audio_chunk (env_of (speech_on 0 1))
                      (fst before_last_silent_frame) (snd before_last_silent_frame)
                      zero_frame)))
     = [(SPEECH_START, Some 0); (SPEECH_END, Some 0)]
  /\ _speech_start_index
       (fst (_process_audio_chunk (env_of always_raises)
               (fst before_last_silent_frame) (snd before_last_silent_frame) zero_frame))
     = 0%Z
  /\ _silence_counter
       (fst (_process_audio_chunk (env_of always_raises)
               (fst before_last_silent_frame) (snd before_last_silent_frame) zero_frame))
     = 14%Z
  /\ notifications
       (trace (snd (_process_audio_chunk (env_of always_raises)
                      (fst before_last_silent_frame) (snd before_last_silent_frame)
                      zero_frame)))
     = [(SPEECH_START, Some 0)].
Proof.
  repeat split; vm_compute; reflexivity.
Qed.

(** C10 at the session with a plain callback, one silent frame short of the
    end of its utterance: nothing was notified, and the frame that ends the
    utterance leaves the speech id set after the logged [AttributeError]. *)
Lemma plain_callback_never_notified_witness :
  notifications (trace (snd plain_before_last_silent_frame)) = []
  /\ exists s tr,
       _speech_id (fst plain_before_last_silent_frame) = Some s
       /\ _speech_id
            (fst (_process_audio_chunk (env_of (speech_on 0 1))
                    (fst plain_before_last_silent_frame)
                    (snd plain_before_last_silent_frame) zero_frame))
          = Some s
       /\ trace (snd (_process_audio_chunk (env_of (speech_on 0 1))
                        (fst plain_before_last_silent_frame)
                        (snd plain_before_last_silent_frame) zero_frame))
          = tr ++ [LogError AttributeError].
Proof.
  assert (Hcb : _callback (fst plain_before_last_silent_frame) = PlainFunction).
  { vm_compute. reflexivity. }
  destruct (plain_callback_never_notified plain_before_last_silent_frame_reachable Hcb)
    as (_ & Hn & Hend).
  split; [exact Hn|].
  apply Hend.
  - vm_compute. discriminate.
  - vm_compute. reflexivity.
Defined.

(** * Part III: further properties of the code *)

(** ** The ring buffer, operation by operation *)

Section RingOperations.
Import NumPyRingBuffer.
Variable A : Type.
Variable zero : A.
Implicit Types (rb : t A) (X : list A).

Lemma last_n_app_last_n m (a b : list A) :
  last_n m (last_n m a ++ b) = last_n m (a ++ b).
Proof.
  destruct (Nat.le_gt_cases (length a) m) as [H|H].
  - now rewrite (@last_n_all A m a H).
  - unfold last_n at 1 3. rewrite !length_app, length_last_n, Nat.min_l by lia.
    unfold last_n.
    replace (length a + length b - m) with (length b + (length a - m)) by lia.
    rewrite <- skipn_skipn. f_equal; [lia|].
    rewrite skipn_app. replace (length a - m - length a) with 0 by lia.
    reflexivity.
Qed.

Lemma put_is_put_bulk rb x : wf rb -> put rb x = put_bulk rb [x].
Proof.
  intros (Hm & Hl & Hh & Ht & Hc & Hhd). unfold put, put_bulk.
  cbn [length Nat.eqb].
  destruct (Nat.leb_spec (maxsize rb) 1) as [H1|H1].
  - assert (E : maxsize rb = 1) by lia.
    assert (E1 : head rb = 0) by lia. assert (E2 : tail rb = 0) by lia.
    destruct (buffer rb) as [|b0 [|b1 bs]] eqn:Eb; simpl in Hl; try lia.
    rewrite E, E1, E2 in *.
    destruct (Nat.ltb_spec (count rb) 1); unfold slice_assign, last_n; simpl.
    + f_equal. lia.
    + f_equal. lia.
  - destruct (Nat.leb_spec (head rb + 1) (maxsize rb)); [|lia].
    destruct (Nat.ltb_spec (count rb) (maxsize rb));
      destruct (Nat.leb_spec (count rb + 1) (maxsize rb)); try lia.
    + reflexivity.
    + f_equal; [|lia]. f_equal. lia.
Qed.

Lemma get_is_get_bulk_one rb :
  wf rb -> 0 < count rb ->
  fst (get zero rb) = Some (nth 0 (fst (get_bulk rb 1)) zero)
  /\ snd (get zero rb) = snd (get_bulk rb 1).
Proof.
  intros (Hm & Hl & Hh & Ht & Hc & Hhd) Hpos. unfold get, get_bulk.
  destruct (Nat.eqb_spec (count rb) 0); [lia|]. cbn [fst snd].
  rewrite Nat.min_l by lia. split; [|reflexivity].
  unfold read. destruct (Nat.leb_spec (tail rb + 1) (maxsize rb)); [|lia].
  rewrite nth_slice by lia. now rewrite Nat.add_0_r.
Qed.

Lemma get_all_get_bulk rb n :
  wf rb -> get_all (snd (get_bulk rb n)) = skipn n (get_all rb).
Proof.
  intros H. pose proof H as (Hm & Hl & Hh & Ht & Hc & Hhd).
  pose proof (RingFacts.wf_get_bulk n H) as H'.
  pose proof (RingFacts.count_get_bulk rb n) as Hcnt.
  destruct (Nat.le_gt_cases (count rb) n) as [Hall|Hsome].
  - rewrite RingFacts.get_all_empty by lia.
    symmetry. apply skipn_all2. rewrite RingFacts.length_get_all; assumption.
  - destruct (get_all rb) as [|a0 l0] eqn:Eg.
    { pose proof (RingFacts.length_get_all H) as Hl0. rewrite Eg in Hl0. simpl in Hl0. lia. }
    rewrite <- Eg.
    apply nth_ext with (d := a0) (d' := a0).
    + rewrite length_skipn, !RingFacts.length_get_all by assumption. exact Hcnt.
    + intros i Hi. rewrite RingFacts.length_get_all, Hcnt in Hi by assumption.
      rewrite RingFacts.nth_get_all by (assumption || lia).
      rewrite nth_skipn, RingFacts.nth_get_all by (assumption || lia).
      unfold get_bulk. destruct (Nat.eqb_spec (count rb) 0); [lia|]. cbn [snd tail maxsize buffer].
      rewrite Nat.min_l by lia.
      rewrite Nat.Div0.add_mod_idemp_l. f_equal. f_equal. lia.
Qed.

Lemma wf_put rb x : wf rb -> wf (put rb x).
Proof.
  intros H. rewrite put_is_put_bulk by assumption. now apply RingFacts.wf_put_bulk.
Qed.

Lemma wf_get rb : wf rb -> wf (snd (get zero rb)).
Proof.
  intros H. destruct (Nat.eq_dec (count rb) 0) as [E|E].
  - unfold get. rewrite E. exact H.
  - destruct (@get_is_get_bulk_one rb H) as [_ ->]; [lia|].
    now apply RingFacts.wf_get_bulk.
Qed.

Lemma get_all_puts X :
  forall rb, wf rb ->
    wf (fold_left (@put A) X rb)
    /\ get_all (fold_left (@put A) X rb) = last_n (maxsize rb) (get_all rb ++ X)
    /\ maxsize (fold_left (@put A) X rb) = maxsize rb.
Proof.
  induction X as [|x X IH]; intros rb H.
  - simpl. rewrite app_nil_r. split; [exact H|]. split; [|reflexivity].
    symmetry. apply last_n_all. rewrite RingFacts.length_get_all by assumption. apply H.
  - cbn [fold_left]. destruct (IH (put rb x) (wf_put x H)) as (I1 & I2 & I3).
    split; [exact I1|]. rewrite I2, I3.
    rewrite (put_is_put_bulk x H), RingFacts.maxsize_put_bulk.
    rewrite RingFacts.get_all_put_bulk by assumption.
    rewrite last_n_app_last_n, <- app_assoc. auto.
Qed.

Lemma last_n_last_n k m (l : list A) :
  k <= m -> last_n k (last_n m l) = last_n k l.
Proof.
  intros H. unfold last_n. rewrite length_skipn, skipn_skipn. f_equal. lia.
Qed.

Lemma last_n_app_r (a b : list A) : last_n (length b) (a ++ b) = b.
Proof.
  unfold last_n. rewrite length_app, Nat.add_sub, skipn_app, Nat.sub_diag.
  rewrite skipn_all. reflexivity.
Qed.

(** X1: a buffer built by the constructor satisfies the representation
    invariant (positive capacity, an array of that length, cursors inside it,
    [count <= maxsize], [head = (tail + count) mod maxsize]) and is empty, and
    every operation keeps the invariant. *)
Theorem ring_invariant_kept :
  (forall n rb, init zero n = Some rb -> wf rb /\ get_all rb = [])
  /\ (forall rb, wf rb ->
        forall x X n,
          wf (put rb x) /\ wf (put_bulk rb X) /\ wf (snd (get zero rb))
          /\ wf (snd (get_bulk rb n)) /\ wf (clear rb)).
Proof.
  split.
  - intros n rb H. apply RingFacts.wf_init in H. destruct H as (H & Hc & _).
    split; [exact H | now apply RingFacts.get_all_empty].
  - intros rb H x X n.
    split; [now apply wf_put|]. split; [now apply RingFacts.wf_put_bulk|].
    split; [now apply wf_get|]. split; [now apply RingFacts.wf_get_bulk|].
    now apply RingFacts.wf_clear.
Qed.

(** X2: [get_bulk(n)] is a FIFO read: it returns the [min(n, count)] oldest
    elements in order, and what stays in the buffer is the rest. *)
Theorem get_bulk_takes_oldest rb n :
  wf rb ->
  fst (get_bulk rb n) = firstn n (get_all rb)
  /\ get_all (snd (get_bulk rb n)) = skipn n (get_all rb)
  /\ length (fst (get_bulk rb n)) = Nat.min n (size rb)
  /\ size (snd (get_bulk rb n)) = size rb - n.
Proof.
  intros H. split; [now apply RingFacts.get_bulk_fst|].
  split; [now apply get_all_get_bulk|]. split.
  - rewrite RingFacts.get_bulk_fst, length_firstn, RingFacts.length_get_all by assumption.
    reflexivity.
  - apply RingFacts.count_get_bulk.
Qed.

(** X3: [peek(n)] returns what [get_bulk(n)] would return, the
    [min(n, count)] oldest elements, and asking for at least [count] elements
    gives the whole contents, as [get_all] does. *)
Theorem peek_reads_like_get_bulk rb n :
  wf rb ->
  peek rb n = fst (get_bulk rb n)
  /\ peek rb n = firstn n (get_all rb)
  /\ (size rb <= n -> peek rb n = get_all rb).
Proof.
  intros H.
  assert (E : peek rb n = fst (get_bulk rb n)).
  { unfold peek, get_bulk. destruct (count rb =? 0); reflexivity. }
  split; [exact E|]. rewrite E, RingFacts.get_bulk_fst by assumption.
  split; [reflexivity|]. intros Hn. apply firstn_all2.
  rewrite RingFacts.length_get_all by assumption. exact Hn.
Qed.

(** X4: [put(item)] appends the item; on a full buffer the oldest element
    is dropped to make room.  It leaves the buffer in the state
    [put_bulk([item])] leaves it in. *)
Theorem put_appends_dropping_oldest rb x :
  wf rb ->
  put rb x = put_bulk rb [x]
  /\ (is_full rb = false -> get_all (put rb x) = get_all rb ++ [x])
  /\ (is_full rb = true -> get_all (put rb x) = tl (get_all rb) ++ [x]).
Proof.
  intros H. pose proof H as (Hm & Hl & Hh & Ht & Hc & Hhd).
  pose proof (RingFacts.length_get_all H) as Hlen.
  split; [now apply put_is_put_bulk|].
  rewrite put_is_put_bulk, RingFacts.get_all_put_bulk by assumption.
  unfold is_full. split; intros Hf.
  - apply Nat.eqb_neq in Hf. apply last_n_all. rewrite length_app, Hlen. simpl. lia.
  - apply Nat.eqb_eq in Hf. unfold last_n. rewrite length_app, Hlen, Hf. simpl.
    replace (maxsize rb + 1 - maxsize rb) with 1 by lia.
    destruct (get_all rb) as [|a l]; [simpl in Hlen; lia | reflexivity].
Qed.

(** X5: [get()] returns [None] on an empty buffer and leaves it as it is;
    otherwise it returns the oldest element and removes it. *)
Theorem get_pops_oldest rb :
  wf rb ->
  (is_empty rb = true -> get zero rb = (None, rb))
  /\ (forall x rest,
        get_all rb = x :: rest ->
        fst (get zero rb) = Some x /\ get_all (snd (get zero rb)) = rest).
Proof.
  intros H. split.
  - unfold is_empty, get. intros ->. reflexivity.
  - intros x rest Hc.
    assert (Hpos : 0 < count rb).
    { rewrite <- (RingFacts.length_get_all H), Hc. simpl. lia. }
    destruct (get_is_get_bulk_one H Hpos) as [E1 E2].
    rewrite E1, E2, RingFacts.get_bulk_fst, get_all_get_bulk, Hc by assumption.
    split; reflexivity.
Qed.

(** X6: adding the elements of [X] one by one with [put] leaves the same
    contents as one [put_bulk(X)], whatever the length of [X]. *)
Theorem puts_agree_with_put_bulk rb X :
  wf rb ->
  get_all (fold_left (@put A) X rb) = get_all (put_bulk rb X)
  /\ size (fold_left (@put A) X rb) = size (put_bulk rb X).
Proof.
  intros H. destruct (get_all_puts X H) as (H1 & H2 & H3).
  assert (E : get_all (fold_left (@put A) X rb) = get_all (put_bulk rb X)).
  { rewrite H2. symmetry. now apply RingFacts.get_all_put_bulk. }
  split; [exact E|].
  unfold size. rewrite <- (RingFacts.length_get_all H1).
  rewrite <- (RingFacts.length_get_all (RingFacts.wf_put_bulk X H)).
  now rewrite E.
Qed.

(** X7: data no longer than the capacity is kept whole by [put_bulk]: it is
    the newest part of the contents; written to an empty buffer, it is read
    back unchanged by [get_bulk], which leaves the buffer empty. *)
Theorem put_bulk_round_trip rb X :
  wf rb -> length X <= capacity rb ->
  last_n (length X) (get_all (put_bulk rb X)) = X
  /\ (is_empty rb = true ->
      fst (get_bulk (put_bulk rb X) (length X)) = X
      /\ is_empty (snd (get_bulk (put_bulk rb X) (length X))) = true).
Proof.
  intros H Hcap. pose proof (RingFacts.wf_put_bulk X H) as H'.
  unfold capacity in Hcap. split.
  - rewrite RingFacts.get_all_put_bulk by assumption.
    rewrite last_n_last_n by assumption. apply last_n_app_r.
  - unfold is_empty. intros He. apply Nat.eqb_eq in He. split.
    + rewrite RingFacts.get_bulk_fst, RingFacts.get_all_put_bulk by assumption.
      rewrite RingFacts.get_all_empty by assumption. simpl.
      rewrite last_n_all by assumption. apply firstn_all.
    + apply Nat.eqb_eq. rewrite RingFacts.count_get_bulk.
      rewrite RingFacts.count_put_bulk by lia. lia.
Qed.

End RingOperations.

Lemma get_bulk_takes_oldest_witness :
  NumPyRingBuffer.wf ring_1_2
  /\ fst (NumPyRingBuffer.get_bulk ring_1_2 1) = firstn 1 (NumPyRingBuffer.get_all ring_1_2).
Proof.
  split; [exact wf_ring_1_2|].
  exact (proj1 (get_bulk_takes_oldest 1 wf_ring_1_2)).
Defined.

Lemma peek_reads_like_get_bulk_witness :
  NumPyRingBuffer.peek ring_1_2 1 = fst (NumPyRingBuffer.get_bulk ring_1_2 1).
Proof.
  exact (proj1 (peek_reads_like_get_bulk 1 wf_ring_1_2)).
Defined.

Lemma put_appends_dropping_oldest_witness :
  NumPyRingBuffer.put ring_1_2 3%Z = NumPyRingBuffer.put_bulk ring_1_2 [3%Z].
Proof.
  exact (proj1 (put_appends_dropping_oldest 3%Z wf_ring_1_2)).
Defined.

Lemma get_pops_oldest_witness :
  fst (NumPyRingBuffer.get 0%Z ring_1_2) = Some 1%Z
  /\ NumPyRingBuffer.get_all (snd (NumPyRingBuffer.get 0%Z ring_1_2)) = [2%Z].
Proof.
  apply (proj2 (get_pops_oldest 0%Z wf_ring_1_2)). reflexivity.
Defined.

Lemma puts_agree_with_put_bulk_witness :
  NumPyRingBuffer.get_all (fold_left (@NumPyRingBuffer.put Z) [3; 4; 5]%Z ring_1_2)
  = NumPyRingBuffer.get_all (NumPyRingBuffer.put_bulk ring_1_2 [3; 4; 5]%Z).
Proof.
  exact (proj1 (puts_agree_with_put_bulk [3; 4; 5]%Z wf_ring_1_2)).
Defined.

Lemma put_bulk_round_trip_witness :
  last_n 3 (NumPyRingBuffer.get_all (NumPyRingBuffer.put_bulk ring_1_2 [3; 4; 5]%Z))
  = [3; 4; 5]%Z.
Proof.
  refine (proj1 (@put_bulk_round_trip Z ring_1_2 [3; 4; 5]%Z wf_ring_1_2 _)).
  vm_compute. lia.
Defined.

(** ** The state of a session *)

Lemma setters_keep_state self v :
  (_audio_buffer (language_setter self v) = _audio_buffer self
   /\ _speech_start_index (language_setter self v) = _speech_start_index self
   /\ _silence_counter (language_setter self v) = _silence_counter self
   /\ _silence_duration_frames (language_setter self v) = _silence_duration_frames self)
  /\ (_audio_buffer (prompt_setter self v) = _audio_buffer self
      /\ _speech_start_index (prompt_setter self v) = _speech_start_index self
      /\ _silence_counter (prompt_setter self v) = _silence_counter self
      /\ _silence_duration_frames (prompt_setter self v) = _silence_duration_frames self).
Proof.
  split.
  - unfold language_setter. destruct (_whisper_processor self); auto.
  - unfold prompt_setter. destruct (is_empty_str v); auto.
    destruct (negb (isinstance_str v)); auto.
Qed.

Lemma session_inv_put_bulk self X :
  session_inv self ->
  session_inv (set_audio_buffer (NumPyRingBuffer.put_bulk (_audio_buffer self) X) self).
Proof.
  intros (Hwf & H). unfold session_inv. rsimpl.
  split; [now apply RingFacts.wf_put_bulk|].
  destruct H as [H|(Hidx & Hc)]; [left; exact H | right].
  split; [|exact Hc].
  unfold NumPyRingBuffer.size in *.
  rewrite RingFacts.count_put_bulk by apply Hwf.
  destruct Hwf as (_ & _ & _ & _ & Hle & _). lia.
Qed.

Lemma session_inv_frame env self w f :
  (0 <= py_int (inject_Z (_sample_rate self) * _prefix_speech_pad_s self)%Q)%Z ->
  session_inv self -> session_inv (fst (_process_audio_chunk env self w f)).
Proof.
  intros Hpad (Hwf & H). unfold session_inv.
  pose proof (RingFacts.wf_clear Hwf) as Hclear.
  frame_cases; rsimpl;
    try (split; [assumption|]);
    try (split; [apply RingFacts.wf_clear; repeat apply RingFacts.wf_get_bulk; assumption|]);
    try solve [left; split; reflexivity];
    try solve [destruct H as [[? ?]|(? & ? & ?)]; [left; split; assumption | right; lia]];
    try solve [destruct H as [[? ?]|(? & ? & ?)]; right; unfold NumPyRingBuffer.size in *; lia].
Qed.

Lemma pad_samples_nonneg self :
  _sample_rate self = 16000%Z -> (0 <= _prefix_speech_pad_s self)%Q ->
  (0 <= py_int (inject_Z (_sample_rate self) * _prefix_speech_pad_s self)%Q)%Z.
Proof.
  intros Hsr Hpad. apply py_int_le. rewrite Hsr.
  apply Qmult_le_0_compat; [discriminate | exact Hpad].
Qed.

(** X8: in every state a session passes through, provided the prefix pad
    of its configuration is not negative, the audio ring is well formed and
    the session is either IDLE (start index -1, silence counter 0) or
    IN_SPEECH with a start index that lies inside the ring and a silence
    counter that is 0 or below the number of silent frames that ends an
    utterance. *)
Theorem reachable_session_inv self w :
  Reachable self w -> (0 <= _prefix_speech_pad_s self)%Q -> session_inv self.
Proof.
  revert self w.
  apply (@reachable_lift
           (fun self _ => _sample_rate self = 16000%Z
                          /\ ((0 <= _prefix_speech_pad_s self)%Q -> session_inv self))).
  - intros cfg wh sid cb self u Hinit. apply init_fields in Hinit.
    destruct Hinit as (_ & _ & Hidx & Hc & _ & _ & Hsr & _ & _ & Hwf & _).
    split; [exact Hsr|]. intros _. split; [exact Hwf | left; split; assumption].
  - intros self w v (Hsr & H).
    destruct (setters_keep_state self v) as [(E1 & E2 & E3 & E4) _].
    assert (E5 : _sample_rate (language_setter self v) = _sample_rate self
                 /\ _prefix_speech_pad_s (language_setter self v) = _prefix_speech_pad_s self).
    { unfold language_setter. destruct (_whisper_processor self); auto. }
    destruct E5 as [E5 E6]. rewrite E5, E6. split; [exact Hsr|].
    intros Hp. unfold session_inv. rewrite E1, E2, E3, E4. now apply H.
  - intros self w v (Hsr & H).
    destruct (setters_keep_state self v) as [_ (E1 & E2 & E3 & E4)].
    assert (E5 : _sample_rate (prompt_setter self v) = _sample_rate self
                 /\ _prefix_speech_pad_s (prompt_setter self v) = _prefix_speech_pad_s self).
    { unfold prompt_setter. destruct (is_empty_str v); auto.
      destruct (negb (isinstance_str v)); auto. }
    destruct E5 as [E5 E6]. rewrite E5, E6. split; [exact Hsr|].
    intros Hp. unfold session_inv. rewrite E1, E2, E3, E4. now apply H.
  - intros self w cb H. exact H.
  - intros self w X (Hsr & H). split; [exact Hsr|].
    intros Hp. apply session_inv_put_bulk. now apply H.
  - intros env self w f (Hsr & H).
    destruct (frame_same_settings env self w f) as (_ & E1 & _ & _ & _ & _ & _ & E2 & _).
    rewrite E1, E2. split; [exact Hsr|].
    intros Hp. apply session_inv_frame; [now apply pad_samples_nonneg | now apply H].
Qed.

Lemma reachable_session_inv_witness : session_inv (fst after_one_utterance).
Proof.
  apply (reachable_session_inv after_one_utterance_reachable).
  vm_compute. discriminate.
Defined.

Lemma reachable_audio_wf self w :
  Reachable self w -> NumPyRingBuffer.wf (_audio_buffer self).
Proof.
  revert self w.
  apply (@reachable_lift (fun self _ => NumPyRingBuffer.wf (_audio_buffer self))).
  - intros cfg wh sid cb self u Hinit. apply init_fields in Hinit. apply Hinit.
  - intros self w v H. destruct (setters_keep_state self v) as [(E1 & _) _]. now rewrite E1.
  - intros self w v H. destruct (setters_keep_state self v) as [_ (E1 & _)]. now rewrite E1.
  - intros self w cb H. exact H.
  - intros self w X H. rsimpl. now apply RingFacts.wf_put_bulk.
  - intros env self w f H. pose proof (RingFacts.wf_clear H).
    frame_cases; rsimpl; try assumption;
      apply RingFacts.wf_clear; repeat apply RingFacts.wf_get_bulk; assumption.
Qed.


(** ** The frame that ends an utterance *)

Lemma extracted_utterance_suffix self :
  NumPyRingBuffer.wf (_audio_buffer self) ->
  extracted_utterance self
  = skipn (Z.to_nat (_speech_start_index self))
      (NumPyRingBuffer.get_all (_audio_buffer self)).
Proof.
  intros Hwf. unfold extracted_utterance. cbv zeta.
  rewrite RingFacts.get_bulk_size. now apply get_all_get_bulk.
Qed.



(** ** A server without the scorer *)

Lemma set_audio_buffer_twice a b self :
  set_audio_buffer a (set_audio_buffer b self) = set_audio_buffer a self.
Proof. reflexivity. Qed.

Lemma set_audio_buffer_same self : set_audio_buffer (_audio_buffer self) self = self.
Proof. destruct self; reflexivity. Qed.

(** X10: when the VAD model failed to load, decodable payloads are only
    written to the audio ring: no frame is scored, nothing is notified or
    dispatched, logged or framed, no other field of the session changes, and
    the ring holds the newest samples received, up to its capacity. *)
Theorem without_vad_model_audio_is_only_buffered env payloads :
  _vad_model env = None ->
  Forall (fun p => decode_payload p <> Undecodable) payloads ->
  forall self w,
    NumPyRingBuffer.wf (_audio_buffer self) ->
    exists ab,
      receive_loop env self w payloads = inr (set_audio_buffer ab self, w)
      /\ NumPyRingBuffer.wf ab
      /\ NumPyRingBuffer.capacity ab = NumPyRingBuffer.capacity (_audio_buffer self)
      /\ NumPyRingBuffer.get_all ab
         = last_n (NumPyRingBuffer.capacity (_audio_buffer self))
             (NumPyRingBuffer.get_all (_audio_buffer self)
              ++ concat (map samples_of payloads)).
Proof.
  intros Hmodel Hdec. induction Hdec as [|p rest Hp _ IH]; intros self w Hwf.
  - exists (_audio_buffer self). cbn [receive_loop map concat].
    rewrite set_audio_buffer_same, app_nil_r.
    split; [reflexivity|]. split; [exact Hwf|]. split; [reflexivity|].
    symmetry. apply last_n_all. rewrite (RingFacts.length_get_all Hwf).
    apply Hwf.
  - set (ab1 := NumPyRingBuffer.put_bulk (_audio_buffer self) (samples_of p)).
    assert (Hadd : add_audio_chunk env self w p = inr (set_audio_buffer ab1 self, w)).
    { unfold add_audio_chunk, ab1, samples_of, _process_audio. rewrite Hmodel.
      destruct (decode_payload p); [reflexivity | reflexivity | contradiction]. }
    assert (Hwf1 : NumPyRingBuffer.wf ab1) by now apply RingFacts.wf_put_bulk.
    destruct (IH (set_audio_buffer ab1 self) w Hwf1) as (ab & Hrun & Hwfab & Hcap & Hall).
    rsimpl. exists ab. cbn [receive_loop]. rewrite Hadd. cbn [fst snd].
    rewrite Hrun, set_audio_buffer_twice.
    split; [reflexivity|]. split; [exact Hwfab|].
    assert (Hcap1 : NumPyRingBuffer.capacity ab1
                    = NumPyRingBuffer.capacity (_audio_buffer self)).
    { apply RingFacts.maxsize_put_bulk. }
    split; [congruence|].
    rewrite Hall, Hcap1. unfold ab1.
    rewrite RingFacts.get_all_put_bulk by exact Hwf.
    cbn [map concat]. rewrite app_assoc. apply last_n_app_last_n.
Qed.

Lemma without_vad_model_audio_is_only_buffered_witness :
  exists ab,
    receive_loop (mkEnv None (1 # 2) false) coroutine_session world0 [zeros 700; zeros 400]
    = inr (set_audio_buffer ab coroutine_session, world0).
Proof.
  assert (Hdec : Forall (fun p => decode_payload p <> Undecodable) [zeros 700; zeros 400]).
  { repeat constructor; intros H; vm_compute in H; discriminate H. }
  destruct (@without_vad_model_audio_is_only_buffered (mkEnv None (1 # 2) false)
              [zeros 700; zeros 400] eq_refl Hdec coroutine_session world0
              (reachable_audio_wf coroutine_session_reachable))
    as (ab & H & _).
  exists ab. exact H.
Defined.

(** ** Sessions built from a valid configuration *)





(** ** Silence inside an utterance *)

Lemma silent_frame_in_speech env model self w f p :
  _vad_model env = Some model ->
  model (vad_frames (trace w)) f = Prob p ->
  Qgt_bool p (vad_threshold env) = false ->
  (0 <= _speech_start_index self)%Z ->
  (_silence_counter self + 1 < _silence_duration_frames self)%Z ->
  _process_audio_chunk env self w f
  = (set_silence_counter (_silence_counter self + 1) self,
     emit (VadCall f (_sample_rate self)) w).
Proof.
  intros Hmodel Hout Hsil Hidx Hlim.
  unfold _process_audio_chunk. rewrite Hmodel. cbv zeta. rewrite Hout, Hsil.
  destruct (Z.leb_spec 0 (_speech_start_index self)); [|lia]. rsimpl.
  destruct (Z.leb_spec (_silence_duration_frames self) (_silence_counter self + 1));
    [lia | reflexivity].
Qed.

Lemma after_continuous_speech_reachable :
  Reachable (fst after_continuous_speech) (snd after_continuous_speech).
Proof.
  apply receive_loop_reachable
    with (env := env_of (speech_on 0 8)) (payloads := repeat (zeros 512) 8)
         (self := coroutine_session) (w := world0).
  - exact coroutine_session_reachable.
  - vm_compute. reflexivity.
Qed.

(** X12: while IN_SPEECH, audio whose frames are all scored at or below the
    threshold only advances the silence counter, by the number of frames
    scored, as long as the counter stays below its limit: the utterance stays
    open with the same start index and speech id, the audio ring is not read,
    and nothing is notified or dispatched. *)
Theorem silent_frames_below_limit_keep_utterance_open env model self w X :
  _vad_model env = Some model ->
  (forall h f, exists p, model h f = Prob p /\ Qgt_bool p (vad_threshold env) = false) ->
  0 < _chunk_size self -> chunk_inv self ->
  (0 <= _speech_start_index self)%Z ->
  let frames :=
    Z.of_nat (length (NumPyRingBuffer.get_all (_chunk_buffer self) ++ X) / _chunk_size self) in
  (_silence_counter self + frames < _silence_duration_frames self)%Z ->
  let r := _process_audio env self w X in
  _silence_counter (fst r) = (_silence_counter self + frames)%Z
  /\ _speech_start_index (fst r) = _speech_start_index self
  /\ _speech_id (fst r) = _speech_id self
  /\ _audio_buffer (fst r) = _audio_buffer self
  /\ session_events (trace (snd r)) = session_events (trace w).
Proof.
  intros Hmodel Hsilent Hcs Hinv Hidx frames Hlim r.
  set (n0 := length (vad_frames (trace w))).
  set (P := fun (s : SpeechRecognizer) (w' : World) =>
              n0 <= length (vad_frames (trace w'))
              /\ _silence_duration_frames s = _silence_duration_frames self
              /\ ((_silence_counter self + Z.of_nat (length (vad_frames (trace w')) - n0)
                   < _silence_duration_frames self)%Z ->
                  _silence_counter s
                  = (_silence_counter self
                     + Z.of_nat (length (vad_frames (trace w')) - n0))%Z
                  /\ _speech_start_index s = _speech_start_index self
                  /\ _speech_id s = _speech_id self
                  /\ _audio_buffer s = _audio_buffer self
                  /\ session_events (trace w') = session_events (trace w))).
  assert (HP : P (fst r) (snd r)).
  { apply (@process_audio_lift env P).
    - intros s w' cb H. exact H.
    - intros s w' f (Hn & Hl & H).
      pose proof (@frame_vad_frames env model s w' f Hmodel) as Hvf.
      destruct (frame_same_settings env s w' f)
        as (_ & _ & _ & _ & _ & _ & _ & _ & Hsame & _).
      unfold P. rewrite Hvf, length_app. cbn [length].
      split; [lia|]. split; [congruence|]. intros Hlt.
      destruct H as (Hc & Hi & Hs & Ha & He); [lia|].
      destruct (Hsilent (vad_frames (trace w')) f) as (p & Hp & Hq).
      rewrite (@silent_frame_in_speech env model s w' f p Hmodel Hp Hq) by lia.
      rsimpl. rewrite session_events_app. simpl. rewrite app_nil_r.
      repeat split; try assumption; lia.
    - unfold P, n0. split; [lia|]. split; [reflexivity|].
      rewrite Nat.sub_diag. intros _. repeat split; lia. }
  destruct (@process_audio_framing env model self w X Hmodel Hcs Hinv) as (Hvf & _).
  fold r in Hvf. destruct HP as (_ & _ & HP).
  assert (Hlen : Z.of_nat (length (vad_frames (trace (snd r))) - n0) = frames).
  { rewrite Hvf, length_app, length_frames_of. unfold frames, n0. f_equal. lia. }
  rewrite Hlen in HP. apply HP. exact Hlim.
Qed.

Lemma silent_frames_below_limit_keep_utterance_open_witness :
  _silence_counter
    (fst (_process_audio (env_of (speech_on 0 0)) (fst after_continuous_speech)
            (snd after_continuous_speech) (repeat 0%Z 1024)))
  = (_silence_counter (fst after_continuous_speech)
     + Z.of_nat (length (NumPyRingBuffer.get_all
                           (_chunk_buffer (fst after_continuous_speech))
                         ++ repeat 0%Z 1024)
                 / _chunk_size (fst after_continuous_speech)))%Z.
Proof.
  destruct (reachable_chunk_inv after_continuous_speech_reachable) as [Hcs Hinv].
  refine (proj1 (@silent_frames_below_limit_keep_utterance_open
                   (env_of (speech_on 0 0)) (speech_on 0 0)
                   (fst after_continuous_speech) (snd after_continuous_speech)
                   (repeat 0%Z 1024) eq_refl _ Hcs Hinv _ _)).
  - intros h f. exists 0%Q. split; reflexivity.
  - vm_compute. discriminate.
  - vm_compute. reflexivity.
Defined.

(** ** The shared [VADConfig] instance *)

Section VADConfigFacts.
Import VADConfigObject.
Local Open Scope string_scope.

Lemma getattr_setattr_same self name v : getattr (setattr self name v) name = Some v.
Proof.
  induction self as [|[k x] rest IH]; simpl.
  - now rewrite String.eqb_refl.
  - destruct (String.eqb k name) eqn:E; simpl; rewrite E; [reflexivity | exact IH].
Qed.

Lemma getattr_setattr_other self name v name' :
  name <> name' -> getattr (setattr self name v) name' = getattr self name'.
Proof.
  intros Hne. induction self as [|[k x] rest IH]; simpl.
  - destruct (String.eqb_spec name name'); [contradiction | reflexivity].
  - destruct (String.eqb_spec k name) as [->|Hk]; simpl.
    + destruct (String.eqb_spec name name'); [contradiction | reflexivity].
    + destruct (String.eqb k name'); [reflexivity | exact IH].
Qed.

Lemma getattr_names self name : getattr self name <> None <-> In name (map fst self).
Proof.
  induction self as [|[k x] rest IH]; simpl.
  - split; [congruence | contradiction].
  - destruct (String.eqb_spec k name) as [->|Hk].
    + split; [auto | discriminate].
    + rewrite IH. split; [auto | intros [H|H]; [contradiction | exact H]].
Qed.

Lemma names_setattr self name v :
  In name (map fst self) -> map fst (setattr self name v) = map fst self.
Proof.
  induction self as [|[k x] rest IH]; simpl; [contradiction|].
  intros H. destruct (String.eqb_spec k name) as [->|Hk]; simpl; [reflexivity|].
  f_equal. apply IH. destruct H; [contradiction | assumption].
Qed.

Lemma setattr_same_value self name v :
  getattr self name = Some v -> setattr self name v = self.
Proof.
  induction self as [|[k x] rest IH]; simpl; [discriminate|].
  destruct (String.eqb_spec k name) as [->|Hk].
  - now intros [= ->].
  - intros H. now rewrite IH.
Qed.

Lemma in_names_iff key names : in_names key names = true <-> In key names.
Proof.
  unfold in_names. rewrite existsb_exists. split.
  - intros (x & Hin & E). apply String.eqb_eq in E. now subst.
  - intros H. exists key. split; [exact H | apply String.eqb_refl].
Qed.

Ltac name_in := simpl; repeat (first [left; reflexivity | right]).

Lemma names_init self :
  map fst self = names_of_new -> map fst (init self) = names_of_new.
Proof.
  intros H. unfold init. cbv zeta.
  assert (Hs : forall s n v, map fst s = names_of_new -> In n names_of_new ->
                             map fst (setattr s n v) = names_of_new).
  { intros s n v Hs Hin. rewrite names_setattr; [exact Hs | now rewrite Hs]. }
  repeat (apply Hs; [|name_in]). exact H.
Qed.

Lemma names_new : map fst new = names_of_new.
Proof. reflexivity. Qed.

Section Updates.
Variable float_of_str : string -> option PyFloat.
Variable int_of_str : string -> option Z.

Lemma update_item_written self key value :
  map fst self = names_of_new ->
  update_item float_of_str int_of_str self key value
  = match written_by float_of_str int_of_str key value with
    | None => None
    | Some None => Some self
    | Some (Some v) => Some (setattr self key v)
    end
  /\ (forall v, written_by float_of_str int_of_str key value = Some (Some v) ->
                In key ["threshold"; "min_speech_duration_ms"; "max_speech_duration_s";
                        "prefix_speech_pad_ms"; "silence_duration_ms"; "chunk_size"]).
Proof.
  intros Hn. unfold update_item, written_by.
  assert (Hhas : forall k, In k names_of_new -> hasattr self k = true).
  { intros k Hk. unfold hasattr. rewrite <- Hn in Hk. apply getattr_names in Hk.
    destruct (getattr self k); [reflexivity | congruence]. }
  destruct (String.eqb_spec key "threshold") as [->|H1].
  { rewrite Hhas by name_in. split.
    - destruct (float_of float_of_str value); reflexivity.
    - intros _ _. name_in. }
  destruct (in_names key ["min_speech_duration_ms"; "prefix_speech_pad_ms";
                          "silence_duration_ms"]) eqn:H2.
  { apply in_names_iff in H2. rewrite Hhas.
    - split; [destruct (int_of int_of_str value); reflexivity|].
      intros _ _. simpl in H2. simpl. tauto.
    - simpl in H2. simpl. tauto. }
  destruct (String.eqb_spec key "max_speech_duration_s") as [->|H3].
  { rewrite Hhas by name_in. split.
    - destruct (float_of float_of_str value); reflexivity.
    - intros _ _. name_in. }
  destruct (in_names key ["chunk_size"]) eqn:H4.
  { apply in_names_iff in H4. destruct H4 as [<-|[]]. rewrite Hhas by name_in. split.
    - destruct (int_of int_of_str value); reflexivity.
    - intros _ _. name_in. }
  split; [|discriminate].
  destruct (hasattr self key) eqn:Hh; [|reflexivity].
  destruct (in_names key ["activation_threshold"]) eqn:H5; [|reflexivity].
  apply in_names_iff in H5. destruct H5 as [<-|[]].
  unfold hasattr in Hh.
  assert (Hg : getattr self "activation_threshold" = None).
  { destruct (getattr self "activation_threshold") eqn:E; [|reflexivity].
    assert (Hin : In "activation_threshold" (map fst self)).
    { apply getattr_names. congruence. }
    rewrite Hn in Hin. simpl in Hin. intuition discriminate. }
  rewrite Hg in Hh. discriminate Hh.
Qed.

Lemma names_update_item self key value self1 :
  map fst self = names_of_new -> update_item float_of_str int_of_str self key value = Some self1 ->
  map fst self1 = names_of_new.
Proof.
  intros Hn. destruct (update_item_written self key value Hn) as [-> Hin].
  destruct (written_by float_of_str int_of_str key value) as [[v|]|]; intros [= <-]; [|exact Hn].
  rewrite names_setattr; [exact Hn|]. rewrite Hn.
  specialize (Hin v eq_refl). simpl in Hin. simpl. tauto.
Qed.

Lemma names_update_from_dict config_dict :
  forall self, map fst self = names_of_new ->
               map fst (snd (update_from_dict float_of_str int_of_str self config_dict)) = names_of_new.
Proof.
  induction config_dict as [|[key value] rest IH]; intros self Hn; [exact Hn|].
  cbn [update_from_dict].
  destruct (update_item float_of_str int_of_str self key value) as [self1|] eqn:E; [|exact Hn].
  apply IH. eapply names_update_item; eassumption.
Qed.

Lemma names_load_config self file now dump_ok :
  map fst self = names_of_new ->
  map fst (snd (fst (load_config self file now dump_ok))) = names_of_new.
Proof.
  intros Hn. destruct file as [| |config_data]; [exact Hn | exact Hn |].
  unfold load_config. cbn [fst snd].
  set (assign := fun (r : bool * t) (name : string) =>
                   if fst r then
                     match get_or_attr config_data (snd r) name with
                     | Some v => (true, setattr (snd r) name v)
                     | None => (false, snd r)
                     end
                   else r).
  assert (Hstep : forall names r,
             (forall n, In n names -> In n names_of_new) ->
             map fst (snd r) = names_of_new ->
             map fst (snd (fold_left assign names r)) = names_of_new).
  { induction names as [|n names IH]; intros [b s] Hsub Hr; [exact Hr|].
    cbn [fold_left]. apply IH; [intros m Hm; apply Hsub; now right|].
    unfold assign. cbn [fst snd] in *. destruct b; [|exact Hr].
    destruct (get_or_attr config_data s n); [|exact Hr].
    cbn [snd]. rewrite names_setattr; [exact Hr|]. rewrite Hr. apply Hsub. now left. }
  apply Hstep; [|exact Hn]. intros n Hin. simpl in Hin. simpl. tauto.
Qed.

Lemma configured_names self : Configured float_of_str int_of_str self -> map fst self = names_of_new.
Proof.
  induction 1 as [|self file now dump_ok _ IH|self config_dict _ IH|self _ IH].
  - exact names_new.
  - now apply names_load_config.
  - now apply names_update_from_dict.
  - now apply names_init.
Qed.

Lemma names_getattr self name :
  map fst self = names_of_new -> In name names_of_new -> exists v, getattr self name = Some v.
Proof.
  intros Hn Hin. rewrite <- Hn in Hin. apply getattr_names in Hin.
  destruct (getattr self name) as [v|]; [now exists v | congruence].
Qed.

Lemma names_no_attr self name :
  map fst self = names_of_new -> ~ In name names_of_new -> getattr self name = None.
Proof.
  intros Hn Hin. destruct (getattr self name) eqn:E; [|reflexivity].
  exfalso. apply Hin. rewrite <- Hn. apply getattr_names. congruence.
Qed.

Lemma save_config_fails self now dump_ok :
  map fst self = names_of_new -> save_config self now dump_ok = (false, None).
Proof.
  intros Hn. unfold save_config.
  rewrite (@names_no_attr self "speech_pad_ms" Hn)
    by (simpl; intuition discriminate).
  destruct (getattr self "threshold"); [|reflexivity].
  destruct (getattr self "min_speech_duration_ms"); [|reflexivity].
  destruct (getattr self "max_speech_duration_s"); reflexivity.
Qed.

Lemma to_dict_defined self :
  map fst self = names_of_new -> exists d, to_dict self = Some d.
Proof.
  intros Hn. unfold to_dict.
  destruct (@names_getattr self "threshold" Hn) as (a & ->); [name_in|].
  destruct (@names_getattr self "min_speech_duration_ms" Hn) as (b & ->); [name_in|].
  destruct (@names_getattr self "max_speech_duration_s" Hn) as (c & ->); [name_in|].
  destruct (@names_getattr self "prefix_speech_pad_ms" Hn) as (d & ->); [name_in|].
  destruct (@names_getattr self "silence_duration_ms" Hn) as (e & ->); [name_in|].
  destruct (@names_getattr self "chunk_size" Hn) as (f & ->); [name_in|].
  eexists. reflexivity.
Qed.

Lemma clamp_threshold x :
  exists q, float_max (Finite 0) (float_min (Finite 1) x) = Finite q /\ (0 <= q <= 1)%Q.
Proof.
  unfold float_max, float_min.
  destruct x as [y| | |]; cbn [float_lt].
  - destruct (Qlt_bool y 1) eqn:E1; cbn [float_lt].
    + destruct (Qlt_bool 0 y) eqn:E0.
      * exists y. split; [reflexivity|].
        apply Qgt_bool_true in E1. apply Qgt_bool_true in E0.
        split; apply Qlt_le_weak; assumption.
      * exists 0%Q. split; [reflexivity | split; discriminate].
    + exists 1%Q. split; [reflexivity | split; discriminate].
  - exists 1%Q. split; [reflexivity | split; discriminate].
  - exists 0%Q. split; [reflexivity | split; discriminate].
  - exists 1%Q. split; [reflexivity | split; discriminate].
Qed.

Lemma clamp_max_speech x :
  float_max (Finite (1 # 10)) x = PosInf
  \/ exists q, float_max (Finite (1 # 10)) x = Finite q /\ (1 # 10 <= q)%Q.
Proof.
  unfold float_max. destruct x as [y| | |]; cbn [float_lt].
  - right. destruct (Qlt_bool (1 # 10) y) eqn:E.
    + exists y. split; [reflexivity|]. apply Qlt_le_weak. now apply Qgt_bool_true in E.
    + exists (1 # 10)%Q. split; [reflexivity | apply Qle_refl].
  - now left.
  - right. exists (1 # 10)%Q. split; [reflexivity | apply Qle_refl].
  - right. exists (1 # 10)%Q. split; [reflexivity | apply Qle_refl].
Qed.

Ltac attr_simpl :=
  repeat first [ rewrite getattr_setattr_same
               | rewrite getattr_setattr_other by discriminate ].

Lemma in_range_init self : in_range (init self).
Proof.
  unfold in_range, init. cbv zeta. attr_simpl.
  split; [exists (1 # 2)%Q; split; [reflexivity | split; discriminate]|].
  split; [exists 250%Z; split; [reflexivity | lia]|].
  split; [exists (Finite (30 # 1)); split; [reflexivity|];
          right; exists (30 # 1)%Q; split; [reflexivity | discriminate]|].
  split; [exists 300%Z; split; [reflexivity | lia]|].
  split; [exists 500%Z; split; [reflexivity | lia]|].
  exists 512%Z; split; [reflexivity | lia].
Qed.

Lemma in_range_update_item self key value self1 :
  in_range self -> update_item float_of_str int_of_str self key value = Some self1 ->
  in_range self1.
Proof.
  intros Hr. pose proof Hr as (H1 & H2 & H3 & H4 & H5 & H6).
  unfold update_item. destruct (hasattr self key); [|now intros [= <-]].
  destruct (String.eqb_spec key "threshold") as [->|N1].
  { destruct (float_of float_of_str value) as [x|]; [|discriminate]. intros [= <-].
    unfold in_range. attr_simpl.
    destruct (clamp_threshold x) as (q & -> & Hq).
    split; [exists q; split; [reflexivity | exact Hq]|]. repeat split; assumption. }
  destruct (in_names key ["min_speech_duration_ms"; "prefix_speech_pad_ms";
                          "silence_duration_ms"]) eqn:N2.
  { apply in_names_iff in N2.
    destruct (int_of int_of_str value) as [z|]; [|discriminate]. intros [= <-].
    destruct N2 as [<-|[<-|[<-|[]]]]; unfold in_range; attr_simpl;
      repeat split; try assumption; eexists; (split; [reflexivity | lia]). }
  destruct (String.eqb_spec key "max_speech_duration_s") as [->|N3].
  { destruct (float_of float_of_str value) as [x|]; [|discriminate]. intros [= <-].
    unfold in_range. attr_simpl.
    repeat split; try assumption.
    eexists. split; [reflexivity | apply clamp_max_speech]. }
  destruct (in_names key ["chunk_size"]) eqn:N4.
  { apply in_names_iff in N4. destruct N4 as [<-|[]].
    destruct (int_of int_of_str value) as [z|]; [|discriminate]. intros [= <-].
    unfold in_range. attr_simpl. repeat split; try assumption.
    eexists. split; [reflexivity | lia]. }
  destruct (in_names key ["activation_threshold"]) eqn:N5; [|now intros [= <-]].
  apply in_names_iff in N5. destruct N5 as [<-|[]]. intros [= <-].
  unfold in_range. attr_simpl. exact Hr.
Qed.

Lemma in_range_update_from_dict config_dict :
  forall self, in_range self ->
               in_range (snd (update_from_dict float_of_str int_of_str self config_dict)).
Proof.
  induction config_dict as [|[key value] rest IH]; intros self Hr; [exact Hr|].
  cbn [update_from_dict].
  destruct (update_item float_of_str int_of_str self key value) as [self1|] eqn:E;
    [|exact Hr].
  apply IH. eapply in_range_update_item; eassumption.
Qed.

Lemma in_range_settings self :
  in_range self ->
  getattr self "max_speech_duration_s" = Some (VFloat PosInf)
  \/ exists c, settings self = Some c /\ valid_config c.
Proof.
  intros ((q1 & E1 & R1) & (z2 & E2 & R2) & (x3 & E3 & R3) & (z4 & E4 & R4)
          & (z5 & E5 & R5) & (z6 & E6 & R6)).
  destruct R3 as [->|(q3 & -> & R3)]; [now left | right].
  unfold settings. rewrite E1, E2, E3, E4, E5, E6.
  eexists. split; [reflexivity|].
  unfold valid_config. cbn. repeat split; try assumption; apply R1.
Qed.

(** X13: the settings of the shared configuration stay in range whatever
    the admin endpoint is sent.  A new instance and a reset one hold the
    defaults, which are in range; [update_from_dict] keeps the settings in
    range for every dict, also when a conversion raises half way: the
    threshold is a number in [0, 1] (NaN and +inf are stored as 1.0), the
    three durations in ms are integers >= 0, the chunk size is >= 1 and the
    maximal duration is at least 0.1 s.  The maximal duration can become
    +inf, the one value the clamp lets through that is not a finite setting;
    in every other case a session can read valid settings. *)
Theorem update_from_dict_keeps_settings_in_range :
  in_range new
  /\ (forall self, in_range (reset self))
  /\ (forall self config_dict,
        in_range self ->
        in_range (snd (update_from_dict float_of_str int_of_str self config_dict))
        /\ (getattr (snd (update_from_dict float_of_str int_of_str self config_dict))
              "max_speech_duration_s" = Some (VFloat PosInf)
            \/ exists c,
                 settings (snd (update_from_dict float_of_str int_of_str self config_dict))
                 = Some c
                 /\ valid_config c)).
Proof.
  split; [apply in_range_init|]. split; [intros self; apply in_range_init|].
  intros self config_dict Hr.
  pose proof (in_range_update_from_dict config_dict Hr) as Hr'.
  split; [exact Hr' | now apply in_range_settings].
Qed.

(** X14: [save_config] never writes the configuration.  In every state of
    the shared instance (created, then loaded, updated and reset any number of
    times) the attributes are the seven of [__init__]: [update_from_dict]
    never adds one, its [activation_threshold] branch is never taken, and
    [speech_pad_ms], which [save_config] reads, does not exist.  So
    [save_config] returns [False] with nothing handed to [json.dump], and
    [load_config] creates no file when there is none. *)
Theorem save_config_never_writes self :
  Configured float_of_str int_of_str self ->
  map fst self = names_of_new
  /\ hasattr self "activation_threshold" = false
  /\ (forall now dump_ok, save_config self now dump_ok = (false, None))
  /\ (forall file now dump_ok, snd (load_config self file now dump_ok) = None).
Proof.
  intros Hc. pose proof (configured_names Hc) as Hn.
  split; [exact Hn|]. split.
  { unfold hasattr. rewrite (@names_no_attr self "activation_threshold" Hn);
      [reflexivity | simpl; intuition discriminate]. }
  split; [intros; now apply save_config_fails|].
  intros [| |config_data] now dump_ok; cbn [load_config snd]; [|reflexivity|reflexivity].
  now rewrite save_config_fails.
Qed.

(** X15: what the admin endpoints answer.  [update_vad_config] leaves the
    instance as [update_from_dict] left it, answers "success" with the
    settings before and after exactly when no conversion raised, and "error"
    otherwise, the items before the failing one staying applied;
    [reset_vad_config] answers "success" and leaves the defaults.  In no case
    is anything written to the configuration file, although the success
    message says the configuration was saved. *)
Theorem admin_updates_are_never_saved self :
  Configured float_of_str int_of_str self ->
  (forall config active_sessions now dump_ok,
      let r := update_vad_config float_of_str int_of_str self config active_sessions
                 now dump_ok in
      let u := update_from_dict float_of_str int_of_str self config in
      snd r = None
      /\ snd (fst r) = snd u
      /\ match fst u with
         | Raised => fst (fst r) = Error
         | Returned =>
             exists old_config new_config,
               to_dict self = Some old_config /\ to_dict (snd u) = Some new_config
               /\ fst (fst r) = Success old_config new_config active_sessions
         end)
  /\ (forall active_sessions now dump_ok,
        let r := reset_vad_config self active_sessions now dump_ok in
        snd r = None
        /\ snd (fst r) = reset self
        /\ settings (reset self) = Some VADConfig.default
        /\ exists old_config new_config,
             to_dict self = Some old_config /\ to_dict (reset self) = Some new_config
             /\ fst (fst r) = Success old_config new_config active_sessions).
Proof.
  intros Hc. pose proof (configured_names Hc) as Hn. split.
  - intros config active_sessions now dump_ok r u.
    pose proof (names_update_from_dict config self Hn) as Hn'. fold u in Hn'.
    destruct (to_dict_defined self Hn) as (old_config & Hold).
    destruct (to_dict_defined _ Hn') as (new_config & Hnew).
    subst r. unfold update_vad_config. fold u. rewrite Hold.
    destruct u as [[|] self1] eqn:Eu; cbn [fst snd] in *.
    + rewrite Hnew. cbn [fst snd]. rewrite save_config_fails by exact Hn'.
      split; [reflexivity|]. split; [reflexivity|].
      exists old_config, new_config. auto.
    + auto.
  - intros active_sessions now dump_ok r.
    pose proof (names_init self Hn) as Hn'.
    destruct (to_dict_defined self Hn) as (old_config & Hold).
    destruct (to_dict_defined _ Hn') as (new_config & Hnew).
    subst r. unfold reset_vad_config. rewrite Hold. cbv zeta. unfold reset.
    rewrite Hnew. cbn [fst snd]. rewrite save_config_fails by exact Hn'.
    split; [reflexivity|]. split; [reflexivity|].
    split.
    + unfold settings, init. cbv zeta. attr_simpl. reflexivity.
    + exists old_config, new_config. auto.
Qed.

Lemma update_item_frame self key value self1 name :
  map fst self = names_of_new ->
  update_item float_of_str int_of_str self key value = Some self1 ->
  name <> key \/ ~ In name setting_names ->
  getattr self1 name = getattr self name.
Proof.
  intros Hn. destruct (update_item_written self key value Hn) as [-> Hin].
  destruct (written_by float_of_str int_of_str key value) as [[v|]|];
    intros [= <-] Hname; [|reflexivity].
  specialize (Hin v eq_refl).
  apply getattr_setattr_other. intros ->. destruct Hname as [H|H]; [now apply H|].
  apply H. exact Hin.
Qed.

Lemma update_from_dict_frame config_dict name :
  forall self,
    map fst self = names_of_new ->
    ~ In name (map fst config_dict) \/ ~ In name setting_names ->
    getattr (snd (update_from_dict float_of_str int_of_str self config_dict)) name
    = getattr self name.
Proof.
  induction config_dict as [|[key value] rest IH]; intros self Hn Hname; [reflexivity|].
  cbn [update_from_dict].
  destruct (update_item float_of_str int_of_str self key value) as [self1|] eqn:E;
    [|reflexivity].
  rewrite IH.
  - eapply update_item_frame; [exact Hn | exact E |].
    destruct Hname as [H|H]; [left | now right].
    intros ->. apply H. now left.
  - eapply names_update_item; eassumption.
  - destruct Hname as [H|H]; [left | now right].
    intros Hin. apply H. now right.
Qed.

Lemma update_from_dict_written config_dict :
  forall self,
    map fst self = names_of_new ->
    fst (update_from_dict float_of_str int_of_str self config_dict) = Returned ->
    NoDup (map fst config_dict) ->
    forall key value v,
      In (key, value) config_dict ->
      written_by float_of_str int_of_str key value = Some (Some v) ->
      getattr (snd (update_from_dict float_of_str int_of_str self config_dict)) key
      = Some v.
Proof.
  induction config_dict as [|[k0 v0] rest IH]; intros self Hn Hret Hnd key value v Hin Hw;
    [contradiction|].
  cbn [update_from_dict] in *. cbn [map fst] in Hnd. inversion Hnd as [|? ? Hk0 Hnd']; subst.
  destruct (update_item float_of_str int_of_str self k0 v0) as [self1|] eqn:E;
    [|discriminate Hret].
  pose proof (names_update_item self k0 v0 Hn E) as Hn1.
  destruct Hin as [[= -> ->]|Hin].
  - rewrite update_from_dict_frame; [|exact Hn1 | now left].
    destruct (update_item_written self key value Hn) as [Eu _].
    rewrite Eu, Hw in E. injection E as <-. apply getattr_setattr_same.
  - eapply IH; eassumption.
Qed.

(** X16: what a call of [update_from_dict] changes.  An attribute whose
    name is no key of the dict, or is none of the six settings, keeps its
    value; and when the call returns, every setting that is a key of the dict
    holds the clamped conversion of the value sent for it. *)
Theorem update_from_dict_sets_given_keys_only self config_dict :
  Configured float_of_str int_of_str self ->
  (forall name,
      ~ In name (map fst config_dict) \/ ~ In name setting_names ->
      getattr (snd (update_from_dict float_of_str int_of_str self config_dict)) name
      = getattr self name)
  /\ (fst (update_from_dict float_of_str int_of_str self config_dict) = Returned ->
      NoDup (map fst config_dict) ->
      forall key value v,
        In (key, value) config_dict ->
        written_by float_of_str int_of_str key value = Some (Some v) ->
        getattr (snd (update_from_dict float_of_str int_of_str self config_dict)) key
        = Some v).
Proof.
  intros Hc. pose proof (configured_names Hc) as Hn. split.
  - intros name Hname. now apply update_from_dict_frame.
  - intros Hret Hnd key value v Hin Hw. eapply update_from_dict_written; eassumption.
Qed.

End Updates.
(** A dict as the admin page posts it, with one value that is no number. *)
Lemma posted_config_configured :
  Configured (fun _ => None) (fun _ => None)
    (snd (update_from_dict (fun _ => None) (fun _ => None) new
            [("threshold", VFloat (Finite (7 # 10))); ("chunk_size", VStr "big")])).
Proof. apply Conf_update, Conf_new. Qed.

Lemma save_config_never_writes_witness :
  save_config
    (snd (update_from_dict (fun _ => None) (fun _ => None) new
            [("threshold", VFloat (Finite (7 # 10))); ("chunk_size", VStr "big")]))
    "2025-01-01T00:00:00" true
  = (false, None).
Proof.
  exact (proj1 (proj2 (proj2 (save_config_never_writes posted_config_configured)))
           "2025-01-01T00:00:00" true).
Defined.

Lemma admin_updates_are_never_saved_witness :
  snd (update_vad_config (fun _ => None) (fun _ => None) new
         [("threshold", VFloat (Finite (7 # 10)))] 0 "2025-01-01T00:00:00" true)
  = None.
Proof.
  exact (proj1 (proj1 (admin_updates_are_never_saved (Conf_new _ _))
                  [("threshold", VFloat (Finite (7 # 10)))] 0 "2025-01-01T00:00:00" true)).
Defined.

Lemma update_from_dict_sets_given_keys_only_witness :
  getattr (snd (update_from_dict (fun _ => None) (fun _ => None) new
                  [("threshold", VFloat (Finite (7 # 10)))])) "chunk_size"
  = getattr new "chunk_size".
Proof.
  apply (proj1 (update_from_dict_sets_given_keys_only
                  [("threshold", VFloat (Finite (7 # 10)))] (Conf_new _ _))).
  left. simpl. intuition discriminate.
Defined.

End VADConfigFacts.

(** ** Cleaning up the audio logs *)

Section CleanupFacts.
Import AudioLogger.
Variable File : Type.
Variable st_ctime : File -> Q.

Lemma insert_by_ctime_perm x l : Permutation (insert_by_ctime st_ctime x l) (x :: l).
Proof.
  induction l as [|y rest IH]; simpl; [apply Permutation_refl|].
  destruct (Qle_bool (st_ctime x) (st_ctime y)); [apply Permutation_refl|].
  eapply Permutation_trans; [apply perm_skip, IH | apply perm_swap].
Qed.

Lemma sorted_by_ctime_perm l : Permutation (sorted_by_ctime st_ctime l) l.
Proof.
  induction l as [|x rest IH]; simpl; [apply perm_nil|].
  eapply Permutation_trans; [apply insert_by_ctime_perm | apply perm_skip, IH].
Qed.

Lemma insert_by_ctime_sorted x l :
  StronglySorted (fun a b => (st_ctime a <= st_ctime b)%Q) l ->
  StronglySorted (fun a b => (st_ctime a <= st_ctime b)%Q) (insert_by_ctime st_ctime x l).
Proof.
  induction 1 as [|y rest Hs IH Hy]; simpl.
  - constructor; constructor.
  - destruct (Qle_bool (st_ctime x) (st_ctime y)) eqn:E.
    + apply Qle_bool_iff in E. constructor; [now constructor|].
      constructor; [exact E|].
      eapply Forall_impl; [|exact Hy]. intros z Hz. eapply Qle_trans; eassumption.
    + assert (Hyx : (st_ctime y <= st_ctime x)%Q).
      { apply Qlt_le_weak, Qnot_le_lt. intros H. apply Qle_bool_iff in H. congruence. }
      constructor; [exact IH|].
      eapply Permutation_Forall; [apply Permutation_sym, insert_by_ctime_perm|].
      constructor; assumption.
Qed.

Lemma sorted_by_ctime_sorted l :
  StronglySorted (fun a b => (st_ctime a <= st_ctime b)%Q) (sorted_by_ctime st_ctime l).
Proof.
  induction l as [|x rest IH]; simpl; [constructor | now apply insert_by_ctime_sorted].
Qed.

Lemma in_skipn (l : list File) n x : In x (skipn n l) -> In x l.
Proof.
  revert n. induction l as [|a l IH]; intros n H.
  - now rewrite skipn_nil in H.
  - destruct n as [|n]; [exact H|]. right. eapply IH. exact H.
Qed.

Lemma sorted_split (R : File -> File -> Prop) l n :
  StronglySorted R l -> forall d k, In d (firstn n l) -> In k (skipn n l) -> R d k.
Proof.
  intros Hs. revert n. induction Hs as [|a l Hs IH Ha]; intros n d k Hd Hk.
  - rewrite firstn_nil in Hd. contradiction.
  - destruct n as [|n]; [contradiction|]. cbn [firstn skipn] in *.
    destruct Hd as [<-|Hd].
    + rewrite Forall_forall in Ha. apply Ha. eapply in_skipn. exact Hk.
    + eapply IH; eassumption.
Qed.

(** X17: which audio logs [cleanup_old_files] deletes.  With a limit of at
    least one file, the files it tries to delete are the oldest ones beyond
    the limit: as many as exceed it, none of them newer than a file that is
    kept, and the [max_files] newest files (all of them when there are fewer)
    are never touched.  A limit of 0 deletes nothing, since [files[:-0]] is
    empty, and a negative limit [-k] deletes the [k] oldest files, whatever
    their number.  Nothing is deleted when logging is disabled or the
    directory is missing, and only files the call tried to delete are. *)
Theorem cleanup_deletes_oldest_beyond_limit max_files raw_files :
  ((1 <= max_files)%Z ->
   length (files_to_delete st_ctime max_files raw_files)
   = length raw_files - Z.to_nat max_files
   /\ length (files_kept st_ctime max_files raw_files)
      = Nat.min (length raw_files) (Z.to_nat max_files)
   /\ Permutation (files_to_delete st_ctime max_files raw_files
                   ++ files_kept st_ctime max_files raw_files) raw_files
   /\ (forall d k,
          In d (files_to_delete st_ctime max_files raw_files) ->
          In k (files_kept st_ctime max_files raw_files) ->
          (st_ctime d <= st_ctime k)%Q))
  /\ (max_files = 0%Z -> files_to_delete st_ctime max_files raw_files = [])
  /\ ((max_files < 0)%Z ->
      files_to_delete st_ctime max_files raw_files
      = firstn (Z.to_nat (- max_files)) (sorted_by_ctime st_ctime raw_files))
  /\ (forall enabled output_dir_exists unlink,
         incl (cleanup_old_files st_ctime enabled output_dir_exists max_files raw_files unlink)
              (files_to_delete st_ctime max_files raw_files)
         /\ (enabled && output_dir_exists = false ->
             cleanup_old_files st_ctime enabled output_dir_exists max_files raw_files unlink
             = [])).
Proof.
  pose proof (sorted_by_ctime_perm raw_files) as Hperm.
  pose proof (Permutation_length Hperm) as Hlen.
  pose proof (sorted_by_ctime_sorted raw_files) as Hsorted.
  set (files := sorted_by_ctime st_ctime raw_files) in *.
  split; [|split; [|split]].
  - intros Hm.
    assert (Hdel : files_to_delete st_ctime max_files raw_files
                   = firstn (length raw_files - Z.to_nat max_files) files).
    { unfold files_to_delete. cbv zeta. fold files. rewrite Hlen.
      destruct (Z.ltb_spec max_files (Z.of_nat (length raw_files))) as [Hlt|Hge].
      - unfold slice_to. destruct (Z.leb_spec 0 (- max_files)); [lia|].
        rewrite Hlen. f_equal. lia.
      - replace (length raw_files - Z.to_nat max_files) with 0 by lia. reflexivity. }
    unfold files_kept. fold files. rewrite Hdel.
    set (k := length raw_files - Z.to_nat max_files).
    assert (Hk : length (firstn k files) = k).
    { rewrite length_firstn, Hlen. unfold k. lia. }
    rewrite Hk, length_skipn, Hlen.
    split; [reflexivity|]. split; [unfold k; lia|]. split.
    + rewrite firstn_skipn. exact Hperm.
    + intros d f Hd Hf.
      eapply (@sorted_split (fun a b => (st_ctime a <= st_ctime b)%Q)); eassumption.
  - intros ->. unfold files_to_delete. cbv zeta.
    destruct (0 <? Z.of_nat (length (sorted_by_ctime st_ctime raw_files)))%Z; reflexivity.
  - intros Hm. unfold files_to_delete. cbv zeta. fold files. rewrite Hlen.
    destruct (Z.ltb_spec max_files (Z.of_nat (length raw_files))) as [_|Hge]; [|lia].
    unfold slice_to. destruct (Z.leb_spec 0 (- max_files)); [reflexivity | lia].
  - intros enabled output_dir_exists unlink. unfold cleanup_old_files. split.
    + destruct enabled; cbn [negb]; [|apply incl_nil_l].
      destruct output_dir_exists; cbn [negb]; [|apply incl_nil_l].
      apply incl_filter.
    + destruct enabled, output_dir_exists; cbn; intros H; try reflexivity; discriminate H.
Qed.

End CleanupFacts.

(** ** The WAV header *)

Lemma Z_of_byte_of_Z z : Z_of_byte (byte_of_Z z) = (z mod 256)%Z.
Proof.
  unfold Z_of_byte, byte_of_Z.
  pose proof (Z.mod_pos_bound z 256 ltac:(lia)) as Hb.
  destruct (Byte.of_N (Z.to_N (z mod 256))) as [b|] eqn:E.
  - apply Byte.to_of_N in E. rewrite E. lia.
  - apply Byte.of_N_None_iff in E. lia.
Qed.

Lemma from_le_bytes n :
  forall v, from_bytes_little (le_bytes n v) = (v mod 2 ^ (8 * Z.of_nat n))%Z.
Proof.
  induction n as [|n IH]; intros v.
  - simpl. now rewrite Z.mod_1_r.
  - cbn [le_bytes from_bytes_little]. rewrite Z_of_byte_of_Z, IH.
    replace (8 * Z.of_nat (S n))%Z with (8 + 8 * Z.of_nat n)%Z by lia.
    rewrite Z.pow_add_r by lia. change (2 ^ 8)%Z with 256%Z.
    rewrite Z.rem_mul_r by lia. reflexivity.
Qed.

Lemma from_to_bytes_little n v bs :
  to_bytes_little n v = Some bs -> from_bytes_little bs = v /\ length bs = n.
Proof.
  unfold to_bytes_little.
  destruct (Z.ltb_spec v 0); [discriminate|].
  destruct (Z.leb_spec (2 ^ (8 * Z.of_nat n)) v); [discriminate|].
  cbn [orb]. intros [= <-]. rewrite from_le_bytes. split.
  - apply Z.mod_small. lia.
  - clear. revert v. induction n as [|n IH]; intros v; [reflexivity|].
    cbn [le_bytes length]. now rewrite IH.
Qed.

Lemma to_bytes_little_defined v :
  (0 <= v < 4294967296)%Z -> to_bytes_little 4 v = Some (le_bytes 4 v).
Proof.
  intros H. unfold to_bytes_little.
  change (2 ^ (8 * Z.of_nat 4))%Z with 4294967296%Z.
  destruct (Z.ltb_spec v 0); [lia|].
  destruct (Z.leb_spec 4294967296 v); [lia | reflexivity].
Qed.

Lemma to_bytes_little_overflow v :
  (v < 0 \/ 4294967296 <= v)%Z -> to_bytes_little 4 v = None.
Proof.
  intros H. unfold to_bytes_little.
  change (2 ^ (8 * Z.of_nat 4))%Z with 4294967296%Z.
  destruct (Z.ltb_spec v 0); [reflexivity|].
  destruct (Z.leb_spec 4294967296 v); [reflexivity | lia].
Qed.

(** X18: the WAV file of [play_audio_file].  Building it raises (and the
    endpoint answers 500) exactly when the sample rate of the metadata is
    negative or at least 2^31, or the samples take 2^32 - 36 bytes or more.
    Otherwise the file is the 44 bytes of the header followed by the samples,
    it starts with RIFF and WAVE, and its little-endian fields read back as
    written: ChunkSize is the length of the file minus 8, SampleRate the rate
    given, ByteRate twice the rate, and Subchunk2Size the number of bytes of
    the samples. *)
Theorem wav_content_fields sample_rate pcm_data :
  (wav_content sample_rate pcm_data = None
   <-> (sample_rate < 0 \/ 2 ^ 31 <= sample_rate
        \/ 2 ^ 32 - 36 <= Z.of_nat (length pcm_data))%Z)
  /\ (forall wav,
         wav_content sample_rate pcm_data = Some wav ->
         length wav = 44 + length pcm_data
         /\ skipn 44 wav = pcm_data
         /\ firstn 4 wav = list_byte_of_string "RIFF"
         /\ slice wav 8 12 = list_byte_of_string "WAVE"
         /\ from_bytes_little (slice wav 4 8) = (Z.of_nat (length wav) - 8)%Z
         /\ from_bytes_little (slice wav 24 28) = sample_rate
         /\ from_bytes_little (slice wav 28 32) = (2 * sample_rate)%Z
         /\ from_bytes_little (slice wav 40 44) = Z.of_nat (length pcm_data)).
Proof.
  set (n := Z.of_nat (length pcm_data)).
  assert (Hn : (0 <= n)%Z) by (unfold n; lia).
  assert (H16_4 : to_bytes_little 4 16 = Some (le_bytes 4 16)) by reflexivity.
  assert (H1_2 : to_bytes_little 2 1 = Some (le_bytes 2 1)) by reflexivity.
  assert (H2_2 : to_bytes_little 2 2 = Some (le_bytes 2 2)) by reflexivity.
  assert (H16_2 : to_bytes_little 2 16 = Some (le_bytes 2 16)) by reflexivity.
  assert (P32 : (2 ^ (8 * Z.of_nat 4) = 4294967296)%Z) by reflexivity.
  change (2 ^ 31)%Z with 2147483648%Z. change (2 ^ 32)%Z with 4294967296%Z.
  unfold wav_content, wav_header. fold n. cbv zeta.
  rewrite H16_4, H1_2, H2_2, H16_2.
  destruct (Z_lt_le_dec sample_rate 0) as [Hneg|Hpos].
  { rewrite (@to_bytes_little_overflow sample_rate) by lia.
    split; [|intros wav H; exfalso; revert H].
    - split; [intros _; lia|]. intros _.
      destruct (to_bytes_little 4 (36 + n)); reflexivity.
    - destruct (to_bytes_little 4 (36 + n)); discriminate. }
  destruct (Z_lt_le_dec sample_rate 2147483648) as [Hsr|Hsr].
  2:{ rewrite (@to_bytes_little_overflow (sample_rate * 2)) by lia.
      split; [|intros wav H; exfalso; revert H].
      - split; [intros _; lia|]. intros _.
        destruct (to_bytes_little 4 (36 + n)), (to_bytes_little 4 sample_rate); reflexivity.
      - destruct (to_bytes_little 4 (36 + n)), (to_bytes_little 4 sample_rate);
          discriminate. }
  destruct (Z_lt_le_dec n (4294967296 - 36)) as [Hlen|Hlen].
  2:{ rewrite (@to_bytes_little_overflow (36 + n)) by lia.
      split; [|intros wav H; discriminate H].
      split; [intros _; lia | reflexivity]. }
  rewrite (@to_bytes_little_defined (36 + n)) by lia.
  rewrite (@to_bytes_little_defined sample_rate) by lia.
  rewrite (@to_bytes_little_defined (sample_rate * 2)) by lia.
  rewrite (@to_bytes_little_defined n) by lia.
  split; [split; [discriminate | lia]|].
  intros wav H. cbn [extend] in H.
  apply (f_equal (fun o => match o with Some x => x | None => [] end)) in H.
  cbv beta iota in H. subst wav.
  remember (36 + n)%Z as chunk_size eqn:Ecs.
  remember (sample_rate * 2)%Z as byte_rate eqn:Ebr.
  cbn [app list_byte_of_string String.list_ascii_of_string map le_bytes].
  cbn [length skipn firstn slice Nat.sub].
  split; [reflexivity|]. split; [reflexivity|]. split; [reflexivity|].
  split; [reflexivity|].
  change [byte_of_Z chunk_size; byte_of_Z (chunk_size / 256);
          byte_of_Z (chunk_size / 256 / 256); byte_of_Z (chunk_size / 256 / 256 / 256)]
    with (le_bytes 4 chunk_size).
  change [byte_of_Z sample_rate; byte_of_Z (sample_rate / 256);
          byte_of_Z (sample_rate / 256 / 256); byte_of_Z (sample_rate / 256 / 256 / 256)]
    with (le_bytes 4 sample_rate).
  change [byte_of_Z byte_rate; byte_of_Z (byte_rate / 256);
          byte_of_Z (byte_rate / 256 / 256); byte_of_Z (byte_rate / 256 / 256 / 256)]
    with (le_bytes 4 byte_rate).
  change [byte_of_Z n; byte_of_Z (n / 256); byte_of_Z (n / 256 / 256);
          byte_of_Z (n / 256 / 256 / 256)]
    with (le_bytes 4 n).
  rewrite !from_le_bytes, P32, !Z.mod_small by lia.
  unfold n. repeat split; lia.
Qed.

(** ** The framing loop as a run of the state machine *)

Lemma frame_ignores_chunk_buffer env self w f cb :
  snd (_process_audio_chunk env (set_chunk_buffer cb self) w f)
  = snd (_process_audio_chunk env self w f)
  /\ forall cb0,
       set_chunk_buffer cb0 (fst (_process_audio_chunk env (set_chunk_buffer cb self) w f))
       = set_chunk_buffer cb0 (fst (_process_audio_chunk env self w f)).
Proof.
  split; [|intros cb0]; unfold _process_audio_chunk; cbv zeta; rsimpl;
    frame_cases; try reflexivity; try lia;
    unfold _trigger_recognition; rsimpl; reflexivity.
Qed.

Lemma same_but_chunk_buffer a b cb0 :
  set_chunk_buffer cb0 a = set_chunk_buffer cb0 b ->
  a = set_chunk_buffer (_chunk_buffer a) b.
Proof.
  intros H. apply (f_equal (set_chunk_buffer (_chunk_buffer a))) in H.
  destruct a, b. cbn in *. exact H.
Qed.

Lemma run_frames_ignores_chunk_buffer env frames :
  forall a b w cb0,
    set_chunk_buffer cb0 a = set_chunk_buffer cb0 b ->
    snd (run_frames env frames a w) = snd (run_frames env frames b w)
    /\ forall cb, set_chunk_buffer cb (fst (run_frames env frames a w))
                  = set_chunk_buffer cb (fst (run_frames env frames b w)).
Proof.
  unfold run_frames.
  induction frames as [|f rest IH]; intros a b w cb0 H; cbn [fold_left fst snd].
  - split; [reflexivity|]. intros cb. apply same_but_chunk_buffer in H. rewrite H.
    reflexivity.
  - apply same_but_chunk_buffer in H.
    destruct (frame_ignores_chunk_buffer env b w f (_chunk_buffer a)) as [Hw Hs].
    rewrite <- H in Hw, Hs.
    destruct (_process_audio_chunk env a w f) as [a1 w1].
    destruct (_process_audio_chunk env b w f) as [b1 w2].
    cbn [fst snd] in *. subst w2. eapply IH. apply (Hs cb0).
Qed.

Lemma process_frames_run env fuel :
  forall self w arr start remain,
    0 < _chunk_size self -> remain < fuel ->
    fst (fst (process_frames env fuel self w arr start remain))
    = run_frames env
        (map (fun i => slice arr (start + i * _chunk_size self)
                         (start + i * _chunk_size self + _chunk_size self))
             (seq 0 (remain / _chunk_size self)))
        self w.
Proof.
  induction fuel as [|fuel IH]; intros self w arr start remain Hcs Hfuel; [lia|].
  cbn [process_frames]. cbv zeta.
  destruct (Nat.leb_spec (_chunk_size self) remain) as [Hle|Hlt].
  - destruct (div_mod_step Hcs Hle) as [Hdiv _].
    pose proof (frame_same_settings env self w
                  (slice arr start (start + _chunk_size self))) as Hsame.
    assert (Hcs1 : _chunk_size (fst (_process_audio_chunk env self w
                                       (slice arr start (start + _chunk_size self))))
                   = _chunk_size self) by apply Hsame.
    rewrite IH by lia. rewrite Hcs1, Hdiv. cbn [seq map]. unfold run_frames.
    cbn [fold_left fst snd]. rewrite Nat.add_0_r.
    destruct (_process_audio_chunk env self w (slice arr start (start + _chunk_size self)))
      as [s1 w1]. cbn [fst snd].
    f_equal. rewrite <- seq_shift, map_map. apply map_ext. intros i.
    f_equal; simpl; lia.
  - rewrite Nat.div_small by lia. reflexivity.
Qed.

(** X19: [_process_audio] is the state machine run on the frames of the
    stream, in order.  With the scorer loaded, the effects of a call and the
    session it leaves, chunk buffer apart, are those of
    [_process_audio_chunk] applied in turn to the full chunks of the residual
    followed by the new samples; the chunk buffer is left holding the samples
    after the last full chunk. *)
Theorem process_audio_runs_frames_in_order env model self w X :
  _vad_model env = Some model ->
  0 < _chunk_size self -> chunk_inv self ->
  let stream := NumPyRingBuffer.get_all (_chunk_buffer self) ++ X in
  let r := _process_audio env self w X in
  let r' := run_frames env (frames_of (_chunk_size self) stream) self w in
  snd r = snd r'
  /\ (forall cb, set_chunk_buffer cb (fst r) = set_chunk_buffer cb (fst r'))
  /\ NumPyRingBuffer.get_all (_chunk_buffer (fst r)) = residual_of (_chunk_size self) stream.
Proof.
  intros Hmodel Hcs Hinv stream r r'.
  destruct (@process_audio_framing env model self w X Hmodel Hcs Hinv) as (_ & Hres & _).
  fold stream r in Hres.
  refine ((fun H => conj (proj1 H) (conj (proj2 H) Hres)) _).
  destruct Hinv as (Hwf & Hcount & Hmax).
  pose proof (RingFacts.length_get_all Hwf) as Hlen.
  subst r r'. unfold _process_audio. rewrite Hmodel.
  destruct (Nat.eqb_spec (length X) 0) as [HX|HX].
  - apply length_zero_iff_nil in HX. subst X. unfold stream. rewrite app_nil_r.
    unfold frames_of. rewrite Hlen, Nat.div_small by lia.
    split; [reflexivity|]. intros cb. reflexivity.
  - cbv zeta.
    set (cb := _chunk_buffer self) in *.
    set (taken := NumPyRingBuffer.get_bulk cb (NumPyRingBuffer.size cb)).
    set (self1 := if 0 <? NumPyRingBuffer.size cb
                  then set_chunk_buffer (NumPyRingBuffer.clear (snd taken)) self
                  else self).
    set (arr := if 0 <? NumPyRingBuffer.size cb then fst taken ++ X else X).
    assert (Harr : arr = stream).
    { unfold arr, taken, stream. rewrite RingFacts.get_bulk_size.
      destruct (Nat.ltb_spec 0 (NumPyRingBuffer.size cb)) as [Hp|Hz]; [reflexivity|].
      rewrite RingFacts.get_all_empty; [reflexivity|].
      unfold NumPyRingBuffer.size in Hz. lia. }
    assert (Hs1 : forall cb0, set_chunk_buffer cb0 self1 = set_chunk_buffer cb0 self).
    { intros cb0. unfold self1. destruct (0 <? NumPyRingBuffer.size cb); reflexivity. }
    assert (Hcs1 : _chunk_size self1 = _chunk_size self).
    { unfold self1. destruct (0 <? NumPyRingBuffer.size cb); reflexivity. }
    pose proof (@process_frames_run env (S (length arr)) self1 w arr 0 (length arr)) as Hrun.
    rewrite Hcs1 in Hrun. specialize (Hrun Hcs (Nat.lt_succ_diag_r _)).
    cbn [Nat.add] in Hrun. fold (frames_of (_chunk_size self) arr) in Hrun.
    set (looped := process_frames env (S (length arr)) self1 w arr 0 (length arr)) in *.
    destruct (@run_frames_ignores_chunk_buffer env (frames_of (_chunk_size self) arr)
                self1 self w cb (Hs1 cb)) as [Hw Hs].
    rewrite <- Hrun, Harr in Hw, Hs.
    destruct (0 <? snd looped); cbn [fst snd]; split; try exact Hw;
      intros cb0; rewrite <- Hs; reflexivity.
Qed.

Lemma process_audio_runs_frames_in_order_witness :
  snd (_process_audio (env_of (speech_on 0 1)) coroutine_session world0 (repeat 0%Z 1100))
  = snd (run_frames (env_of (speech_on 0 1))
           (frames_of (_chunk_size coroutine_session)
              (NumPyRingBuffer.get_all (_chunk_buffer coroutine_session)
               ++ repeat 0%Z 1100))
           coroutine_session world0).
Proof.
  destruct (reachable_chunk_inv coroutine_session_reachable) as [Hcs Hinv].
  exact (proj1 (@process_audio_runs_frames_in_order (env_of (speech_on 0 1)) (speech_on 0 1)
                  coroutine_session world0 (repeat 0%Z 1100) eq_refl Hcs Hinv)).
Defined.

(** ** Audio logs read back *)

Lemma byte_digits x :
  (0 <= x < 2 ^ 32)%Z ->
  (Z_of_byte (byte_of_Z x) + 2 ^ 8 * Z_of_byte (byte_of_Z (x / 2 ^ 8))
   + 2 ^ 16 * Z_of_byte (byte_of_Z (x / 2 ^ 16))
   + 2 ^ 24 * Z_of_byte (byte_of_Z (x / 2 ^ 24)))%Z = x.
Proof.
  intros Hx. rewrite !Z_of_byte_of_Z.
  change (2 ^ 8)%Z with 256%Z. change (2 ^ 16)%Z with (256 * 256)%Z.
  change (2 ^ 24)%Z with (256 * 256 * 256)%Z. change (2 ^ 32)%Z with 4294967296%Z in Hx.
  rewrite <- !Z.div_div by lia.
  pose proof (Z.div_mod x 256 ltac:(lia)).
  pose proof (Z.div_mod (x / 256) 256 ltac:(lia)).
  pose proof (Z.div_mod (x / 256 / 256) 256 ltac:(lia)).
  assert (H3 : (0 <= x / 256 / 256 / 256 < 256)%Z).
  { split; [repeat apply Z.div_pos; lia|].
    repeat (apply Z.div_lt_upper_bound; [lia|]). lia. }
  rewrite (Z.mod_small (x / 256 / 256 / 256) 256) by exact H3.
  lia.
Qed.

(** X20: a logged utterance read back.  [save_audio_raw] writes four bytes
    per sample, and decoding the file as float32 ([np.frombuffer]) gives the
    samples back bit for bit; sent to a session as a payload, the file is
    taken for float32 and decodes to the same samples as soon as every sample
    is finite with magnitude at most 1.5. *)
Theorem logged_audio_reads_back audio_array :
  Forall (fun x => (0 <= x < 2 ^ 32)%Z) audio_array ->
  length (tobytes_float32 audio_array) = 4 * length audio_array
  /\ frombuffer_float32 (tobytes_float32 audio_array) = Some audio_array
  /\ (forallb (fun x => f32_le_const (f32_abs x) (3 # 2)) audio_array = true ->
      decode_payload (tobytes_float32 audio_array) = AsFloat32 audio_array).
Proof.
  intros Hr.
  assert (Hlen : length (tobytes_float32 audio_array) = 4 * length audio_array).
  { clear Hr. induction audio_array as [|x xs IH]; [reflexivity|].
    cbn [tobytes_float32 flat_map app length]. fold (tobytes_float32 xs).
    rewrite IH. lia. }
  assert (Hfb : frombuffer_float32 (tobytes_float32 audio_array) = Some audio_array).
  { clear Hlen. induction Hr as [|x xs Hx _ IH]; [reflexivity|].
    cbn [tobytes_float32 flat_map app frombuffer_float32].
    fold (tobytes_float32 xs). rewrite IH, (byte_digits Hx). reflexivity. }
  split; [exact Hlen|]. split; [exact Hfb|].
  intros Hok. unfold decode_payload. rewrite Hlen, Hfb, Hok.
  replace (4 * length audio_array) with (length audio_array * 4) by lia.
  rewrite Nat.Div0.mod_mul. reflexivity.
Qed.

Lemma logged_audio_reads_back_witness :
  frombuffer_float32 (tobytes_float32 [0; 1065353216; 3204448256]%Z)
  = Some [0; 1065353216; 3204448256]%Z.
Proof.
  refine (proj1 (proj2 (@logged_audio_reads_back [0; 1065353216; 3204448256]%Z _))).
  repeat constructor; vm_compute; congruence.
Defined.

(** ** The audio log against the recognizer *)

Lemma saved_app tr1 tr2 : saved (tr1 ++ tr2) = saved tr1 ++ saved tr2.
Proof.
  induction tr1 as [|e tr1 IH]; [reflexivity|].
  destruct e; simpl; rewrite IH; reflexivity.
Qed.

Lemma frame_saved env self w f :
  exists Us,
    dispatched (trace (snd (_process_audio_chunk env self w f)))
    = dispatched (trace w) ++ Us
    /\ saved (trace (snd (_process_audio_chunk env self w f)))
       = saved (trace w) ++ (if audio_log_enabled env then Us else []).
Proof.
  assert (Htrig : forall s w0 U,
             exists Us,
               dispatched (trace (_trigger_recognition env s w0 U))
               = dispatched (trace w0) ++ Us
               /\ saved (trace (_trigger_recognition env s w0 U))
                  = saved (trace w0) ++ (if audio_log_enabled env then Us else [])).
  { intros s w0 U. unfold _trigger_recognition.
    assert (Hnone : exists Us,
               dispatched (trace w0) = dispatched (trace w0) ++ Us
               /\ saved (trace w0)
                  = saved (trace w0) ++ (if audio_log_enabled env then Us else [])).
    { exists []. destruct (audio_log_enabled env); rewrite !app_nil_r; auto. }
    destruct (_whisper_processor s); [|exact Hnone].
    destruct (length U =? 0); [exact Hnone|].
    destruct (Qlt_bool _ _); [exact Hnone|].
    match goal with
    | |- context [if Qgt_bool ?a ?b then ?x else ?y] =>
        exists [if Qgt_bool a b then x else y]
    end.
    destruct (audio_log_enabled env); cbn [emit trace];
      rewrite ?dispatched_app, ?saved_app; simpl; rewrite ?app_nil_r;
      split; reflexivity. }
  assert (Hnone : exists Us,
             dispatched (trace w) = dispatched (trace w) ++ Us
             /\ saved (trace w)
                = saved (trace w) ++ (if audio_log_enabled env then Us else [])).
  { exists []. destruct (audio_log_enabled env); rewrite !app_nil_r; auto. }
  frame_cases;
    rewrite ?dispatched_app, ?saved_app; simpl; rewrite ?app_nil_r; try exact Hnone;
    match goal with
    | |- context [_trigger_recognition ?e ?s0 ?w0 ?U] =>
        destruct (Htrig s0 w0 U) as (Us & Hd & Hs); exists Us;
        rewrite Hd, Hs; cbn [emit trace];
        rewrite ?dispatched_app, ?saved_app; simpl; rewrite ?app_nil_r; auto
    end.
Qed.

(** X21: the audio log holds what the recognizer was given.  Over any run
    of payloads with audio logging enabled, the utterances handed to
    [save_audio_raw] are exactly those handed to [recognize_async], in the
    same order and after truncation; with logging disabled nothing is
    logged. *)
Theorem audio_log_matches_dispatches env payloads self w r :
  receive_loop env self w payloads = inr r ->
  exists Us,
    dispatched (trace (snd r)) = dispatched (trace w) ++ Us
    /\ saved (trace (snd r))
       = saved (trace w) ++ (if audio_log_enabled env then Us else []).
Proof.
  intros Hrun.
  set (P := fun (_ : SpeechRecognizer) (w' : World) =>
              exists Us,
                dispatched (trace w') = dispatched (trace w) ++ Us
                /\ saved (trace w')
                   = saved (trace w) ++ (if audio_log_enabled env then Us else [])).
  change (P (fst r) (snd r)).
  eapply (@receive_loop_lift env P); [| | |exact Hrun|].
  - intros s w' cb H. exact H.
  - intros s w' f (Us & Hd & Hs).
    destruct (frame_saved env s w' f) as (Vs & Hd' & Hs').
    exists (Us ++ Vs). rewrite Hd', Hs', Hd, Hs.
    destruct (audio_log_enabled env); rewrite <- ?app_assoc, ?app_nil_r; auto.
  - intros s w' X H. exact H.
  - exists []. destruct (audio_log_enabled env); rewrite !app_nil_r; auto.
Qed.

Lemma audio_log_matches_dispatches_witness :
  exists Us,
    dispatched (trace (snd after_one_utterance)) = dispatched (trace world0) ++ Us
    /\ saved (trace (snd after_one_utterance))
       = saved (trace world0) ++ (if audio_log_enabled (env_of (speech_on 0 1)) then Us else []).
Proof.
  apply (@audio_log_matches_dispatches (env_of (speech_on 0 1)) [zeros (16 * 512)]
           coroutine_session world0 after_one_utterance).
  vm_compute. reflexivity.
Defined.

(** ** What an utterance loses *)

Lemma speech_ends_app tr1 tr2 : speech_ends (tr1 ++ tr2) = speech_ends tr1 ++ speech_ends tr2.
Proof. unfold speech_ends. now rewrite notifications_app, filter_app. Qed.

Lemma trigger_speech_ends env self w U :
  speech_ends (trace (_trigger_recognition env self w U)) = speech_ends (trace w).
Proof.
  destruct (trigger_trace env self w U) as (effs & -> & [->|(U' & _ & [->| ->])]);
    rewrite speech_ends_app; simpl; apply app_nil_r.
Qed.

Lemma frame_ends_or_keeps_ring env self w f :
  _callback self = CoroutineFunction ->
  (speech_ends (trace (snd (_process_audio_chunk env self w f))) = speech_ends (trace w)
   /\ _audio_buffer (fst (_process_audio_chunk env self w f)) = _audio_buffer self)
  \/ (exists e, speech_ends (trace (snd (_process_audio_chunk env self w f)))
                = speech_ends (trace w) ++ [e])
     /\ NumPyRingBuffer.count (_audio_buffer (fst (_process_audio_chunk env self w f))) = 0.
Proof.
  intros Hcb. frame_cases; try congruence;
    rewrite ?speech_ends_app, ?trigger_speech_ends; cbn [trace emit];
    rewrite ?speech_ends_app; simpl; rewrite ?app_nil_r;
    try (left; split; reflexivity).
  right. split; [eexists; reflexivity | reflexivity].
Qed.

(** X22: an utterance that ends takes the rest of its payload with it.
    Over one call of [add_audio_chunk] (with a coroutine callback), either no
    SpeechEnd is notified and the audio ring is the one [put_bulk] left, or an
    utterance ended during the call and the audio ring is empty afterwards:
    the samples of the payload that follow the frame of the end are scored
    but are in no buffer, so an utterance that starts among them begins with
    an empty ring. *)
Theorem utterance_end_empties_audio_ring env self w audio_data r :
  _callback self = CoroutineFunction ->
  add_audio_chunk env self w audio_data = inr r ->
  (speech_ends (trace (snd r)) = speech_ends (trace w)
   /\ _audio_buffer (fst r)
      = NumPyRingBuffer.put_bulk (_audio_buffer self) (samples_of audio_data))
  \/ (length (speech_ends (trace w)) < length (speech_ends (trace (snd r)))
      /\ NumPyRingBuffer.is_empty (_audio_buffer (fst r)) = true).
Proof.
  intros Hcb Hadd.
  set (ab1 := NumPyRingBuffer.put_bulk (_audio_buffer self) (samples_of audio_data)).
  assert (Hr : r = _process_audio env (set_audio_buffer ab1 self) w (samples_of audio_data)).
  { unfold add_audio_chunk, samples_of in *. unfold ab1, samples_of.
    destruct (decode_payload audio_data); try discriminate; congruence. }
  set (P := fun (s : SpeechRecognizer) (w' : World) =>
              _callback s = CoroutineFunction
              /\ ((speech_ends (trace w') = speech_ends (trace w) /\ _audio_buffer s = ab1)
                  \/ (length (speech_ends (trace w)) < length (speech_ends (trace w'))
                      /\ NumPyRingBuffer.count (_audio_buffer s) = 0))).
  assert (HP : P (fst r) (snd r)).
  { rewrite Hr. apply (@process_audio_lift env P).
    - intros s w' cb H. exact H.
    - intros s w' f (Hc & H).
      destruct (frame_same_settings env s w' f)
        as (_ & _ & _ & _ & _ & _ & _ & _ & _ & Hsame).
      split; [congruence|].
      destruct (frame_ends_or_keeps_ring env s w' f Hc) as [(E1 & E2)|((e & E1) & E2)].
      + rewrite E1, E2. destruct H as [H|(H1 & H2)]; [left; exact H | right; auto].
      + right. split; [|exact E2]. rewrite E1, length_app. cbn [length].
        destruct H as [(H & _)|(H & _)]; [rewrite H|]; lia.
    - split; [exact Hcb|]. left. split; reflexivity. }
  destruct HP as (_ & [H|(H1 & H2)]); [left; exact H | right].
  split; [exact H1|]. unfold NumPyRingBuffer.is_empty. now rewrite H2.
Qed.

Lemma utterance_end_empties_audio_ring_witness :
  (speech_ends (trace (snd after_one_utterance)) = speech_ends (trace world0)
   /\ _audio_buffer (fst after_one_utterance)
      = NumPyRingBuffer.put_bulk (_audio_buffer coroutine_session)
          (samples_of (zeros (16 * 512))))
  \/ (length (speech_ends (trace world0))
      < length (speech_ends (trace (snd after_one_utterance)))
      /\ NumPyRingBuffer.is_empty (_audio_buffer (fst after_one_utterance)) = true).
Proof.
  apply (@utterance_end_empties_audio_ring (env_of (speech_on 0 1)) coroutine_session world0
           (zeros (16 * 512)) after_one_utterance).
  - vm_compute. reflexivity.
  - vm_compute. reflexivity.
Defined.

(** X23: a full ring moves the start of the utterance.  The start index
    counts from the oldest sample of the ring and is not adjusted when the
    ring drops samples: once the ring is full, a payload of [n] samples leaves
    an utterance that starts [n] samples later in the audio received. *)
Theorem full_ring_shifts_utterance_start self X :
  NumPyRingBuffer.wf (_audio_buffer self) ->
  NumPyRingBuffer.is_full (_audio_buffer self) = true ->
  extracted_utterance
    (set_audio_buffer (NumPyRingBuffer.put_bulk (_audio_buffer self) X) self)
  = skipn (Z.to_nat (_speech_start_index self) + length X)
      (NumPyRingBuffer.get_all (_audio_buffer self) ++ X)
  /\ extracted_utterance self
     = skipn (Z.to_nat (_speech_start_index self))
         (NumPyRingBuffer.get_all (_audio_buffer self)).
Proof.
  intros Hwf Hfull. split; [|now apply extracted_utterance_suffix].
  rewrite extracted_utterance_suffix by (rsimpl; now apply RingFacts.wf_put_bulk).
  rsimpl. rewrite RingFacts.get_all_put_bulk by exact Hwf.
  unfold last_n. rewrite length_app, (RingFacts.length_get_all Hwf).
  unfold NumPyRingBuffer.is_full in Hfull. apply Nat.eqb_eq in Hfull. rewrite Hfull.
  rewrite skipn_skipn. f_equal. lia.
Qed.

Lemma full_ring_shifts_utterance_start_witness :
  extracted_utterance
    (set_audio_buffer
       (NumPyRingBuffer.put_bulk
          (NumPyRingBuffer.mk 4 [1; 2; 3; 4]%Z 0 0 4) [5; 6]%Z)
       (set_speech_start_index 1
          (set_audio_buffer (NumPyRingBuffer.mk 4 [1; 2; 3; 4]%Z 0 0 4) blank_session)))
  = skipn (Z.to_nat 1 + 2) ([1; 2; 3; 4] ++ [5; 6])%Z.
Proof.
  refine (proj1 (@full_ring_shifts_utterance_start
                   (set_speech_start_index 1
                      (set_audio_buffer (NumPyRingBuffer.mk 4 [1; 2; 3; 4]%Z 0 0 4)
                         blank_session))
                   [5; 6]%Z _ _)).
  - cbn. unfold NumPyRingBuffer.wf. cbn. repeat split; lia.
  - reflexivity.
Defined.
